(** * deepqmc: sampling engine and checkpointed training loop

    A shallow embedding of [src/deepqmc/jax/train.py] (the [train]
    orchestrator and its [CheckpointStore]) and of [src/deepqmc/sampling.py]
    (the sampler classes, [chain], [MoleculeIdxSampler],
    [MultiNuclearGeometrySampler], the force stabilisation and
    [equilibrate]), followed by the properties stated about them.

    Conventions of the embedding:
    - Python [int]s are [Z], array sizes and indices are [nat];
    - floating-point scalars and array entries are [xreal]: exact real numbers
      extended with the IEEE special values [+inf], [-inf] and [NaN].
      Rounding, overflow and the sign of zero are not modelled;
    - exceptions are values of [exn]; a method that mutates its object is a
      computation in the state-and-exception monad [M];
    - instance dictionaries and stat dictionaries are [gmap]s keyed by
      strings, files are a [gmap] from path to content. *)

From Stdlib Require Import ZArith List String Reals Lra Lia Psatz.
From stdpp Require Import base option list gmap strings pretty.

Local Open Scope Z_scope.

(** ** Exceptions and the state-and-exception monad *)

Inductive exn : Type :=
| AssertionError
| AttributeError
| FileNotFoundError
| IndexError
| KeyError
| NaNError
| NotImplementedError
| TypeError
| UnboundLocalError
| ValueError
| ZeroDivisionError.

(** A call either returns a value or raises. *)
Inductive result (A : Type) : Type :=
| Ok (a : A)
| Raise (e : exn).
Arguments Ok {A} a.
Arguments Raise {A} e.

Definition rbind {A B} (r : result A) (k : A -> result B) : result B :=
  match r with
  | Ok a => k a
  | Raise e => Raise e
  end.

Definition is_Ok {A} (r : result A) : bool :=
  match r with Ok _ => true | Raise _ => false end.

(** Outcome of a computation over a mutable state [S]: the state is kept
    when an exception propagates, so that a [finally] block can run on it. *)
Inductive outcome (S A : Type) : Type :=
| Done (s : S) (a : A)
| Raised (s : S) (e : exn).
Arguments Done {S A} s a.
Arguments Raised {S A} s e.

(** The state a computation ended in, on either exit. *)
Definition state_of {S A} (o : outcome S A) : S :=
  match o with
  | Done s _ => s
  | Raised s _ => s
  end.

Definition M (S A : Type) : Type := S -> outcome S A.

Definition ret {S A} (a : A) : M S A := fun s => Done s a.
Definition raise {S A} (e : exn) : M S A := fun s => Raised s e.
Definition bind {S A B} (m : M S A) (k : A -> M S B) : M S B :=
  fun s => match m s with
           | Done s' a => k a s'
           | Raised s' e => Raised s' e
           end.
Definition get {S} : M S S := fun s => Done s s.
Definition put {S} (s : S) : M S unit := fun _ => Done s tt.
Definition modify {S} (f : S -> S) : M S unit := fun s => Done (f s) tt.

(** [try: m finally: fin] -- [fin] runs on both exits; an exception raised
    by [fin] itself replaces the pending one. *)
Definition finally {S A} (m : M S A) (fin : M S unit) : M S A :=
  fun s => match m s with
           | Done s' a => match fin s' with
                          | Done s'' _ => Done s'' a
                          | Raised s'' e => Raised s'' e
                          end
           | Raised s' e => match fin s' with
                            | Done s'' _ => Raised s'' e
                            | Raised s'' e' => Raised s'' e'
                            end
           end.

#[global] Instance M_ret {S} : MRet (M S) := fun A => @ret S A.
#[global] Instance M_bind {S} : MBind (M S) := fun A B k m => @bind S A B m k.
#[global] Instance result_ret : MRet result := fun A => @Ok A.
#[global] Instance result_bind : MBind result := fun A B k r => @rbind A B r k.

(** Control signal of one iteration of a Python [for] body: fall through
    to the next element, [break], or [return] from the enclosing function.
    [L] is the tuple of local variables the loop carries. *)
Inductive ctl (L A : Type) : Type :=
| Continue (l : L)
| Break (l : L)
| Return (a : A).
Arguments Continue {L A} l.
Arguments Break {L A} l.
Arguments Return {L A} a.

(** [for x in xs: body] -- ends with the locals when the iterable is
    exhausted or the body breaks, and with the returned value when the body
    returns. *)
Fixpoint for_each {S X L A} (body : X -> L -> M S (ctl L A))
    (xs : list X) (l : L) : M S (L + A) :=
  match xs with
  | [] => ret (inl l)
  | x :: xs' =>
      c ← body x l;
      match c with
      | Continue l' => for_each body xs' l'
      | Break l' => ret (inl l')
      | Return a => ret (inr a)
      end
  end.

(** ** Floating-point values *)

Inductive xreal : Type :=
| Fin (x : R)
| PInf
| NInf
| NaN.

Definition Rneg (x : R) : bool := if Rlt_dec x 0 then true else false.
Definition Rzero (x : R) : bool := if Req_dec_T x 0 then true else false.
Definition Rltb (x y : R) : bool := if Rlt_dec x y then true else false.
Definition Rleb (x y : R) : bool := if Rle_dec x y then true else false.

Definition xinf (neg : bool) : xreal := if neg then NInf else PInf.

Definition isnan (a : xreal) : bool :=
  match a with NaN => true | _ => false end.

Definition xneg (a : xreal) : xreal :=
  match a with
  | Fin x => Fin (- x)
  | PInf => NInf
  | NInf => PInf
  | NaN => NaN
  end.

Definition xadd (a b : xreal) : xreal :=
  match a, b with
  | NaN, _ | _, NaN => NaN
  | Fin x, Fin y => Fin (x + y)
  | PInf, NInf | NInf, PInf => NaN
  | PInf, _ | _, PInf => PInf
  | NInf, _ | _, NInf => NInf
  end.

Definition xsub (a b : xreal) : xreal := xadd a (xneg b).

Definition xmul (a b : xreal) : xreal :=
  match a, b with
  | NaN, _ | _, NaN => NaN
  | Fin x, Fin y => Fin (x * y)
  | Fin x, PInf | PInf, Fin x => if Rzero x then NaN else xinf (Rneg x)
  | Fin x, NInf | NInf, Fin x => if Rzero x then NaN else xinf (negb (Rneg x))
  | PInf, PInf | NInf, NInf => PInf
  | PInf, NInf | NInf, PInf => NInf
  end.

Definition xdiv (a b : xreal) : xreal :=
  match a, b with
  | NaN, _ | _, NaN => NaN
  | Fin x, Fin y =>
      if Rzero y then (if Rzero x then NaN else xinf (Rneg x))
      else Fin (x / y)
  | Fin _, (PInf | NInf) => Fin 0
  | PInf, Fin y => xinf (Rneg y)
  | NInf, Fin y => xinf (negb (Rneg y))
  | (PInf | NInf), (PInf | NInf) => NaN
  end.

Definition xsqrt (a : xreal) : xreal :=
  match a with
  | Fin x => if Rneg x then NaN else Fin (sqrt x)
  | PInf => PInf
  | NInf | NaN => NaN
  end.

Definition xexp (a : xreal) : xreal :=
  match a with
  | Fin x => Fin (exp x)
  | PInf => PInf
  | NInf => Fin 0
  | NaN => NaN
  end.

(** [a < b]; every comparison with [NaN] is false. *)
Definition xltb (a b : xreal) : bool :=
  match a, b with
  | NaN, _ | _, NaN => false
  | Fin x, Fin y => Rltb x y
  | _, NInf => false
  | NInf, _ => true
  | PInf, _ => false
  | Fin _, PInf => true
  end.

(** [a <= b]. *)
Definition xleb (a b : xreal) : bool :=
  match a, b with
  | NaN, _ | _, NaN => false
  | Fin x, Fin y => Rleb x y
  | NInf, _ => true
  | _, PInf => true
  | _, NInf => false
  | PInf, _ => false
  end.

Definition xgtb (a b : xreal) : bool := xltb b a.
Definition xgeb (a b : xreal) : bool := xleb b a.

(** [jnp.minimum] and [jnp.maximum] propagate [NaN]. *)
Definition xmin (a b : xreal) : xreal :=
  match a, b with
  | NaN, _ | _, NaN => NaN
  | _, _ => if xltb b a then b else a
  end.

Definition xmax (a b : xreal) : xreal :=
  match a, b with
  | NaN, _ | _, NaN => NaN
  | _, _ => if xltb a b then b else a
  end.

(** [jnp.clip(a, lo, None)]. *)
Definition clip_min (a lo : xreal) : xreal := xmax a lo.

Definition xsum (l : list xreal) : xreal := fold_left xadd l (Fin 0).

Definition xsqr (a : xreal) : xreal := xmul a a.

(** [jnp.isnan(a).any()] *)
Definition any_isnan (a : list xreal) : bool := existsb isnan a.

(** [range(lo, hi)] *)
Definition range (lo hi : Z) : list Z :=
  map (fun i => lo + Z.of_nat i) (seq 0 (Z.to_nat (hi - lo))).

(** * [jax/train.py] *)

(** ** [Checkpoint = namedtuple('Checkpoint', 'step loss path')] *)

Module Checkpoint.
Record t : Type := mk { step : Z; loss : xreal; path : string }.
End Checkpoint.

(** ** [class CheckpointStore]

    The files of the store are pickled training states: the file system is
    a finite map from path to the state stored there.  A method runs in the
    monad [M (disk * t)], its state being the file system and [self]. *)

Module CheckpointStore.

(** [PATTERN.format(x)] with [PATTERN = 'chkpt-{}.pt'] *)
Definition PATTERN (x : string) : string := "chkpt-" +:+ x +:+ ".pt".

(** [Path(dir) / name] *)
Definition joinpath (dir name : string) : string := dir +:+ "/" +:+ name.

Definition no_slash (s : string) : bool :=
  match String.index 0 "/" s with None => true | Some _ => false end.

(** [p in dir.glob('chkpt-*.pt')]: a direct child of [dir] whose name
    starts with [chkpt-] and ends with [.pt]. *)
Definition glob_match (dir p : string) : bool :=
  let pre := joinpath dir "chkpt-" in
  let n := String.length p in
  let k := String.length pre in
  String.prefix pre p
  && (k + 3 <=? n)%nat
  && String.eqb (String.substring (n - 3) 3 p) ".pt"
  && no_slash (String.substring k (n - 3 - k) p).

Definition default_size : Z := 3.
Definition default_min_interval : Z := 100.
Definition default_threshold : xreal := Fin (95 / 100).

Section Store.
Context {State : Type}.

Record t : Type := mk {
  workdir : string;
  size : Z;
  min_interval : Z;
  threshold : xreal;
  chkpts : list Checkpoint.t;
  step : Z;
  buffer : option State;
}.

Local Abbreviation disk := (gmap string State).

Definition set_chkpts (self : t) (c : list Checkpoint.t) : t :=
  mk (workdir self) (size self) (min_interval self) (threshold self)
     c (step self) (buffer self).
Definition set_step (self : t) (n : Z) : t :=
  mk (workdir self) (size self) (min_interval self) (threshold self)
     (chkpts self) n (buffer self).
Definition set_buffer (self : t) (b : option State) : t :=
  mk (workdir self) (size self) (min_interval self) (threshold self)
     (chkpts self) (step self) b.

(** [path.unlink()] *)
Definition unlink (p : string) : M (disk * t) unit :=
  '(d, self) ← get;
  match d !! p with
  | None => raise FileNotFoundError
  | Some _ => put (delete p d, self)
  end.

(** [CheckpointStore(workdir, size, min_interval, threshold)]: removes
    every file of [workdir] that matches the pattern and starts empty. *)
Definition __init__ (workdir : string) (size min_interval : Z)
    (threshold : xreal) : M disk t :=
  modify (filter (fun kv : string * State =>
                    Is_true (negb (glob_match workdir kv.1))));;
  ret (mk workdir size min_interval threshold [] 0 None).

(** [def dump(self, state)] *)
Definition dump (state : State) : M (disk * t) string :=
  '(d, self) ← get;
  let path := joinpath (workdir self) (PATTERN (pretty (step self))) in
  put (<[path := state]> d, self);;
  ret path.

(** The condition of the early [return] of [update], evaluated after
    the counter was advanced:
    [self.step < self.min_interval or self.chkpts and
     (self.step < self.min_interval + self.chkpts[-1].step
      or loss > self.threshold * self.chkpts[-1].loss)] *)
Definition skips (self : t) (loss : xreal) : bool :=
  (step self <? min_interval self)
  || match list.last (chkpts self) with
     | None => false
     | Some c =>
         (step self <? min_interval self + Checkpoint.step c)
         || xgtb loss (xmul (threshold self) (Checkpoint.loss c))
     end.

(** [while len(self.chkpts) > self.size: self.chkpts.pop(0).path.unlink()] *)
Fixpoint evict (cs : list Checkpoint.t) : M (disk * t) unit :=
  '(d, self) ← get;
  if size self <? Z.of_nat (length cs) then
    match cs with
    | [] => raise IndexError
    | c :: rest =>
        put (d, set_chkpts self rest);;
        unlink (Checkpoint.path c);;
        evict rest
    end
  else ret tt.

(** [def update(self, loss, state)]; [deepcopy] is the identity on
    values. *)
Definition update (loss : xreal) (state : State) : M (disk * t) unit :=
  modify (fun w : disk * t => (w.1, set_step w.2 (step w.2 + 1)));;
  modify (fun w : disk * t => (w.1, set_buffer w.2 (Some state)));;
  '(_, self) ← get;
  if skips self loss then ret tt
  else
    path ← dump state;
    modify (fun w : disk * t =>
              (w.1, set_chkpts w.2
                      (chkpts w.2 ++ [Checkpoint.mk (step w.2) loss path])));;
    '(_, self) ← get;
    evict (chkpts self).

(** [def close(self)] *)
Definition close : M (disk * t) unit :=
  '(_, self) ← get;
  match buffer self with
  | Some b => dump b;; ret tt
  | None => ret tt
  end.

(** [@property def last(self)] *)
Definition last : M (disk * t) (Z * State) :=
  '(d, self) ← get;
  match list.last (chkpts self) with
  | None => raise IndexError
  | Some chkpt =>
      match d !! Checkpoint.path chkpt with
      | None => raise FileNotFoundError
      | Some state => ret (Checkpoint.step chkpt, state)
      end
  end.

End Store.
Arguments t : clear implicits.
End CheckpointStore.

(** ** [def train(...)]

    Only the training phase is stateful in a way the properties below
    depend on.  The collaborators that are not part of the source files are
    parameters: the training state with its projection
    [train_state.sampler['psi'].log], and the generator [fit_wf], given by
    the items it yields for a progress-bar range and an initial state.  The
    state handed to the training phase by [init_fit] and the equilibration
    loop is the argument [init_state].  The logging sinks ([log], [tqdm],
    the tensorboard writer, the HDF5 table, the energy average) do not feed
    back into the control flow or the returned value and are left out. *)

Section Train.
Context {TrainState Optimizer : Type}.

(** [train_state.sampler['psi'].log] *)
Variable sampler_psi_log : TrainState -> list xreal.

(** One item [step, train_state, E_loc, stats] yielded by [fit_wf];
    [it_loss] is [stats['E_loc/std']]. *)
Record fit_item : Type := mk_item {
  it_step : Z;
  it_train_state : TrainState;
  it_loss : xreal;
}.

(** [fit_wf(rng, hamil, ansatz, opt, sampler, sample_size, pbar,
    state_callback, train_state, **kwargs)] as a function of the two
    arguments that change between calls: the range behind [pbar] and
    [train_state]. *)
Variable fit_wf : Z * Z -> TrainState -> list fit_item.

(** What the loop did, in order (a ghost record, not a program value):
    a call of [fit_wf], an iteration of the inner loop at a step index, a
    reload of the last checkpoint. *)
Inductive event : Type :=
| CallFit (pbar : Z * Z)
| Step (k : Z)
| Rollback (k : Z).

Record world : Type := mk_world {
  disk : gmap string TrainState;
  chkpts : option (CheckpointStore.t TrainState);
  trace : list event;
}.

(** The local variables carried by the two loops. *)
Record locals : Type := mk_locals {
  pbar : Z * Z;
  train_state : TrainState;
}.

Inductive mode_t : Type := evaluate | train_mode.

Definition mode_name (m : mode_t) : string :=
  match m with evaluate => "evaluate" | train_mode => "train" end.

Definition log_event (e : event) : M world unit :=
  modify (fun w => mk_world (disk w) (chkpts w) (trace w ++ [e])).

(** A method call on the variable [chkpts]; the name is unbound when
    [workdir] was falsy. *)
Definition on_chkpts {A}
    (m : M (gmap string TrainState * CheckpointStore.t TrainState) A)
    : M world A :=
  fun w =>
    match chkpts w with
    | None => Raised w UnboundLocalError
    | Some self =>
        match m (disk w, self) with
        | Done (d, self') a => Done (mk_world d (Some self') (trace w)) a
        | Raised (d, self') e => Raised (mk_world d (Some self') (trace w)) e
        end
    end.

(** [if workdir:] *)
Definition truthy (workdir : option string) : bool :=
  match workdir with
  | Some s => negb (String.eqb s "")
  | None => false
  end.

(** Body of [for step, train_state, E_loc, stats in fit_wf(...)]. *)
Definition fit_body (workdir : option string) (mode : mode_t) (steps : Z)
    (it : fit_item) (l : locals) : M world (ctl locals (option TrainState)) :=
  log_event (Step (it_step it));;
  let l := mk_locals (pbar l) (it_train_state it) in
  if any_isnan (sampler_psi_log (train_state l)) then
    '(step, state) ← on_chkpts CheckpointStore.last;
    log_event (Rollback step);;
    ret (Break (mk_locals (step, steps) state))
  else
    (if truthy workdir then
       match mode with
       | train_mode =>
           on_chkpts (CheckpointStore.update (it_loss it) (train_state l))
       | evaluate => ret tt
       end
     else ret tt);;
    ret (Continue l).

(** Body of [for _ in range(max_restarts)]: the inner loop, then the
    [return train_state] that follows it at the same indentation. *)
Definition restart_body (workdir : option string) (mode : mode_t) (steps : Z)
    (attempt : Z) (l : locals) : M world (ctl locals (option TrainState)) :=
  log_event (CallFit (pbar l));;
  r ← for_each (fit_body workdir mode steps)
        (fit_wf (pbar l) (train_state l)) l;
  match r with
  | inl l' => ret (Return (Some (train_state l')))
  | inr v => ret (Return v)
  end.

(** [train(hamil, ansatz, opt, sampler, workdir, ..., steps=steps,
    max_restarts=max_restarts)], started on the file system [d]; the name
    [chkpts] is unbound on entry. *)
Definition train (opt : option Optimizer) (workdir : option string)
    (steps : Z) (max_restarts : Z) (init_state : TrainState)
    (d : gmap string TrainState) : outcome world (option TrainState) :=
  let mode := match opt with None => evaluate | Some _ => train_mode end in
  let body : M world (option TrainState) :=
    (if truthy workdir then
       let workdir' := default "" workdir +:+ "/" +:+ mode_name mode in
       fun w =>
         match CheckpointStore.__init__ workdir' CheckpointStore.default_size
                 CheckpointStore.default_min_interval
                 CheckpointStore.default_threshold (disk w) with
         | Done d' self => Done (mk_world d' (Some self) (trace w)) tt
         | Raised d' e => Raised (mk_world d' (chkpts w) (trace w)) e
         end
     else ret tt);;
    finally
      (r ← for_each (restart_body workdir mode steps) (range 0 max_restarts)
            (mk_locals (0, steps) init_state);
       match r with
       | inl _ => ret None
       | inr v => ret v
       end)
      (if truthy workdir then on_chkpts CheckpointStore.close else ret tt)
  in
  body (mk_world d None []).

End Train.

Arguments fit_item : clear implicits.
Arguments world : clear implicits.
Arguments locals : clear implicits.

(** ** Definitions used to state the properties of [train.py] *)

Section StoreRuns.
Context {State : Type}.

(** A sequence of [update(loss, state)] calls, in order. *)
Fixpoint updates (calls : list (xreal * State))
    : M (gmap string State * CheckpointStore.t State) unit :=
  match calls with
  | [] => ret tt
  | (loss, state) :: rest => CheckpointStore.update loss state;; updates rest
  end.

(** The world right after [CheckpointStore(workdir, size, min_interval,
    threshold)] on the file system [d]. *)
Definition fresh (workdir : string) (size min_interval : Z)
    (threshold : xreal) (d : gmap string State)
    : gmap string State * CheckpointStore.t State :=
  match CheckpointStore.__init__ workdir size min_interval threshold d with
  | Done d' self => (d', self)
  | Raised d' _ => (d', CheckpointStore.mk workdir size min_interval
                          threshold [] 0 None)
  end.

(** The call that led to [w] persisted [state]: the newest checkpoint
    carries the current value of the counter and its file holds [state]. *)
Definition persisted (w : gmap string State * CheckpointStore.t State)
    (state : State) : Prop :=
  exists c, list.last (CheckpointStore.chkpts w.2) = Some c
    /\ Checkpoint.step c = CheckpointStore.step w.2
    /\ w.1 !! Checkpoint.path c = Some state.

(** The gate as the code decides it, for a call that advances the
    counter to [step]: the loss test is the negation of [>]. *)
Definition gate (self : CheckpointStore.t State) (step : Z) (loss : xreal)
    : bool :=
  (CheckpointStore.min_interval self <=? step)
  && match list.last (CheckpointStore.chkpts self) with
     | None => true
     | Some c =>
         (CheckpointStore.min_interval self <=? step - Checkpoint.step c)
         && negb (xgtb loss (xmul (CheckpointStore.threshold self)
                                   (Checkpoint.loss c)))
     end.

(** The gate as the specification words it: [step >= min_interval] and
    (no prior checkpoint or ([step - last.step >= min_interval] and
    [loss <= threshold * last.loss])). *)
Definition spec_gate (self : CheckpointStore.t State) (step : Z)
    (loss : xreal) : bool :=
  (CheckpointStore.min_interval self <=? step)
  && match list.last (CheckpointStore.chkpts self) with
     | None => true
     | Some c =>
         (CheckpointStore.min_interval self <=? step - Checkpoint.step c)
         && xleb loss (xmul (CheckpointStore.threshold self)
                            (Checkpoint.loss c))
     end.

End StoreRuns.

(** A run of [train] used as a test input: training states are numbered,
    state [k] is the one yielded at step [k], and the step [nan_at] yields
    the state [-1], whose log-amplitude is [NaN].  Every loss is [1.0]. *)
Definition demo_psi_log (s : Z) : list xreal :=
  if s <? 0 then [NaN] else [Fin 0].

Definition demo_fit_wf (nan_at : Z) (pbar : Z * Z) (s : Z) : list (fit_item Z) :=
  map (fun k => mk_item k (if k =? nan_at then -1 else k) (Fin 1))
      (range pbar.1 pbar.2).

Definition demo_train (nan_at : Z) (workdir : option string)
    (steps max_restarts : Z) : outcome (world Z) (option Z) :=
  train demo_psi_log (demo_fit_wf nan_at) (Some tt) workdir steps
        max_restarts 0 ∅.

(** * [sampling.py] *)

(** ** Random keys

    [jax.random] keys are symbolic: a key is a seed or the [i]-th of the
    [num] children of a key, so that keys drawn from different splits are
    different values. *)

Inductive key : Type :=
| PRNGKey (seed : Z)
| Split (parent : key) (num i : nat).

(** [jax.random.split(rng, num)] *)
Definition random_split (rng : key) (num : nat) : list key :=
  map (Split rng num) (seq 0 num).

Definition lift_result {S A} (r : result A) : M S A :=
  fun s => match r with
           | Ok a => Done s a
           | Raise e => Raised s e
           end.

(** [a[idx]] for a one-dimensional array [a] and an index array [idx]:
    negative indices count from the end and out-of-range indices are
    clamped.  [jnp.array(range(...))] of an empty range is a floating-point
    array, which is rejected as an indexer. *)
Definition clamp_index (len i : Z) : nat :=
  let i' := if i <? 0 then i + len else i in
  Z.to_nat (Z.max 0 (Z.min i' (len - 1))).

Definition getitem (a : list Z) (idx : list Z) : result (list Z) :=
  match idx with
  | [] => Raise TypeError
  | _ => Ok (map (fun i => nth (clamp_index (Z.of_nat (length a)) i) a 0) idx)
  end.

(** ** [class MoleculeIdxSampler] *)

Module MoleculeIdxSampler.

(** [shuffle in [False, 'once', 'always']] *)
Inductive shuffle_t : Type := no_shuffle | once | always.

Section Sampler.
Context {Devices : Type}.

(** [jax.random.permutation(rng, x)] *)
Variable random_permutation : key -> list Z -> list Z.

(** [replicate_on_devices(value)], from the module [parallel] *)
Variable replicate_on_devices : list Z -> Devices.

Record t : Type := mk {
  rng : key;
  n_mols : Z;
  batch_size : Z;
  state : Z;
  shuffle : shuffle_t;
  permutation : list Z;
}.

Definition set_rng (self : t) (k : key) : t :=
  mk k (n_mols self) (batch_size self) (state self) (shuffle self)
     (permutation self).
Definition set_state (self : t) (s : Z) : t :=
  mk (rng self) (n_mols self) (batch_size self) s (shuffle self)
     (permutation self).
Definition set_permutation (self : t) (p : list Z) : t :=
  mk (rng self) (n_mols self) (batch_size self) (state self) (shuffle self) p.

(** [def new_permutation(self)] *)
Definition new_permutation : M t (list Z) :=
  self ← get;
  let permutation := range 0 (n_mols self) in
  match shuffle self with
  | no_shuffle => ret permutation
  | sh =>
      let rng_next := Split (rng self) 2 0 in
      let rng' := Split (rng self) 2 1 in
      let permutation := random_permutation rng' permutation in
      (match sh with
       | always => modify (fun self => set_rng self rng_next)
       | _ => ret tt
       end);;
      ret permutation
  end.

(** [def __init__(self, rng, n_mols, batch_size, shuffle=False)] *)
Definition __init__ (rng : key) (n_mols batch_size : Z) (shuffle : shuffle_t)
    : outcome t unit :=
  (p ← new_permutation;
   modify (fun self => set_permutation self p))
    (mk rng n_mols batch_size 0 shuffle []).

(** [def sample(self)] *)
Definition sample : M t Devices :=
  self ← get;
  let idx := range (state self)
               (Z.min (state self + batch_size self) (n_mols self)) in
  v ← lift_result (getitem (permutation self) idx);
  value ← (if Z.of_nat (length idx) <? batch_size self then
             p ← new_permutation;
             modify (fun self => set_permutation self p);;
             self ← get;
             let idx := range 0 (batch_size self - Z.of_nat (length idx)) in
             v' ← lift_result (getitem (permutation self) idx);
             ret [v; v']
           else ret [v]);
  self ← get;
  (if n_mols self =? 0 then raise ZeroDivisionError
   else modify (fun self =>
                  set_state self ((state self + batch_size self) `mod` n_mols self)));;
  ret (replicate_on_devices (concat value)).

(** [k] consecutive [sample] calls, with what each returned. *)
Fixpoint samples (k : nat) : M t (list Devices) :=
  match k with
  | O => ret []
  | S k' => v ← sample; vs ← samples k'; ret (v :: vs)
  end.

End Sampler.
End MoleculeIdxSampler.

(** [ceil(n / b)] for positive [b] *)
Definition ceil_div (n b : Z) : Z := (n + b - 1) / b.

(** ** Walker states and configurations *)

Definition vec3 : Type := xreal * xreal * xreal.

(** [PhysicalConfiguration(R, r, mol_idx)] for a batch of walkers *)
Record PhysicalConfiguration : Type := mk_conf {
  pc_R : list (list vec3);
  pc_r : list (list vec3);
  pc_mol_idx : list Z;
}.

(** The signed log-amplitude [psi] of a batch: the two leaves [sign] and
    [log]. *)
Record Psi : Type := mk_psi {
  psi_sign : list xreal;
  psi_log : list xreal;
}.

(** The sampler state dictionary.  The keys [r], [psi], [age] and [tau] are
    set by every [init]; [force] exists for the Langevin mover only, [step]
    and [log_weight] only under a [ResampledSampler]: a missing key is
    [None] and reading it raises [KeyError]. *)
Record State : Type := mk_state {
  st_r : list (list vec3);
  st_psi : Psi;
  st_age : list Z;
  st_tau : xreal;
  st_force : option (list (list vec3));
  st_step : option Z;
  st_log_weight : option (list xreal);
}.

(** Stat dictionaries *)
Abbreviation Stats := (gmap string xreal).

Definition getkey {A} (v : option A) : result A :=
  match v with
  | Some a => Ok a
  | None => Raise KeyError
  end.

(** [x[idx]] along the leading axis, for an integer index array produced
    by [jax]: out-of-range indices are clamped. *)
Definition take_rows {A} (x : list A) (idx : list nat) : list A :=
  omap (fun i => x !! Nat.min i (length x - 1)) idx.

(** [lax.scan(f, init, xs)]: the final carry and the per-step outputs, in
    order ([jax] stacks them along a new leading axis). *)
Fixpoint scan {C X Y} (f : C -> X -> result (C * Y)) (init : C) (xs : list X)
    : result (C * list Y) :=
  match xs with
  | [] => Ok (init, [])
  | x :: xs' =>
      '(c, y) ← f init x;
      '(c', ys) ← scan f c xs';
      Ok (c', y :: ys)
  end.

(** [{k: v[-1] for k, v in stats.items()}] on stacked outputs: the
    dictionary of the last step; indexing arrays of length zero raises. *)
Definition stacked_last (stats : list Stats) : result Stats :=
  match list.last stats with
  | Some s => Ok s
  | None => Raise IndexError
  end.

(** [ess = jnp.sum(weight) ** 2 / jnp.sum(weight ** 2)] for
    [weight = jnp.exp(log_weight)] *)
Definition ess_of (log_weight : list xreal) : xreal :=
  let weight := map xexp log_weight in
  xdiv (xsqr (xsum weight)) (xsum (map xsqr weight)).

(** ** The sampler classes *)

Inductive class : Type :=
| object
| Sampler
| MetropolisSampler
| LangevinSampler
| DecorrSampler
| ResampledSampler
| chained.

#[global] Instance class_eq_dec : EqDecision class.
Proof. solve_decision. Defined.

(** [cls.__name__]; a class made by [chain] carries its name in the
    instance. *)
Definition class_name (c : class) : string :=
  match c with
  | object => "object"
  | Sampler => "Sampler"
  | MetropolisSampler => "MetropolisSampler"
  | LangevinSampler => "LangevinSampler"
  | DecorrSampler => "DecorrSampler"
  | ResampledSampler => "ResampledSampler"
  | chained => "Sampler"
  end.

(** [cls.__mro__] of the classes defined in the file *)
Definition class_mro (c : class) : list class :=
  match c with
  | object => [object]
  | Sampler => [Sampler; object]
  | MetropolisSampler => [MetropolisSampler; Sampler; object]
  | LangevinSampler => [LangevinSampler; MetropolisSampler; Sampler; object]
  | DecorrSampler => [DecorrSampler; Sampler; object]
  | ResampledSampler => [ResampledSampler; Sampler; object]
  | chained => [chained; object]
  end.

(** Attribute values: numbers, [None], and references to the external
    collaborators ([hamil], [wf]). *)
Inductive pyval : Type :=
| PyNone
| PyInt (z : Z)
| PyFloat (x : xreal)
| PyRef (name : string).

(** A sampler instance: the name and the method resolution order of its
    class, and its [__dict__].  All classes made by [chain] are the one
    constructor [chained]; the instance carries what distinguishes them. *)
Record obj : Type := mk_obj {
  cls_name : string;
  mro : list class;
  dict : gmap string pyval;
}.

(** [getattr(self, name)] for a data attribute *)
Definition getattr (self : obj) (name : string) : result pyval :=
  match dict self !! name with
  | Some v => Ok v
  | None => Raise AttributeError
  end.

(** [MetropolisSampler(hamil, wf, tau=tau, target_acceptance=...,
    max_age=...)] and, with the inherited constructor,
    [LangevinSampler(...)] *)
Definition new_mover (c : class) (hamil wf : string) (tau : xreal)
    (target_acceptance : pyval) (max_age : pyval) : obj :=
  mk_obj (class_name c) (class_mro c)
    (<["hamil" := PyRef hamil]>
       (<["initial_tau" := PyFloat tau]>
          (<["target_acceptance" := target_acceptance]>
             (<["max_age" := max_age]> (<["wf" := PyRef wf]> ∅))))).

(** [DecorrSampler(length=length)] *)
Definition new_DecorrSampler (length : Z) : obj :=
  mk_obj (class_name DecorrSampler) (class_mro DecorrSampler)
    (<["length" := PyInt length]> ∅).

(** [ResampledSampler(period=period, treshold=treshold)] *)
Definition new_ResampledSampler (period treshold : pyval) : result obj :=
  match period, treshold with
  | PyNone, PyNone => Raise AssertionError
  | _, _ =>
      Ok (mk_obj (class_name ResampledSampler) (class_mro ResampledSampler)
            (<["period" := period]> (<["treshold" := treshold]> ∅)))
  end.

(** *** [chain] *)

(** [s.replace(old, new)]: [skip] characters of a match just replaced are
    still to be dropped. *)
Fixpoint replace_go (old new : string) (skip : nat) (s : string) : string :=
  match s with
  | EmptyString => EmptyString
  | String c s' =>
      match skip with
      | S k => replace_go old new k s'
      | O =>
          if String.prefix old s
          then new +:+ replace_go old new (String.length old - 1) s'
          else String c (replace_go old new O s')
      end
  end.

Definition str_replace (s old new : string) : string :=
  replace_go old new O s.

(** The merge step of the C3 linearisation that [type(name, bases, ns)]
    computes: the first head that is in no tail comes next. *)
Definition in_tail (c : class) (s : list class) : bool :=
  match s with
  | [] => false
  | _ :: t => bool_decide (c ∈ t)
  end.

Definition drop_head (c : class) (s : list class) : list class :=
  match s with
  | h :: t => if decide (h = c) then t else s
  | [] => []
  end.

Definition nonempty {A} (s : list A) : bool :=
  match s with [] => false | _ => true end.

Fixpoint c3_merge (fuel : nat) (seqs : list (list class))
    : result (list class) :=
  let seqs := List.filter nonempty seqs in
  match seqs with
  | [] => Ok []
  | _ =>
      match fuel with
      | O => Raise TypeError
      | S fuel' =>
          match List.find (fun h => forallb (fun s => negb (in_tail h s)) seqs)
                  (omap head seqs) with
          | None => Raise TypeError
          | Some h =>
              rest ← c3_merge fuel' (map (drop_head h) seqs);
              Ok (h :: rest)
          end
      end
  end.

(** [type(name, bases, ns).__mro__], the new class being [chained] *)
Definition type_mro (bases : list obj) : result (list class) :=
  let mros := match bases with
              | [] => [class_mro object]
              | _ => map mro bases
              end in
  let heads := omap head mros in
  rest ← c3_merge (length (concat mros) + length heads) (mros ++ [heads]);
  Ok (chained :: rest).

(** [def chain( *samplers)] *)
Definition chain (samplers : list obj) : result obj :=
  let name := foldl (fun name base => str_replace name "Sampler" (cls_name base))
                    "Sampler" samplers in
  m ← type_mro samplers;
  Ok (mk_obj name m (foldl (fun d sampler => dict sampler ∪ d) ∅ samplers)).

(** *** Methods

    A method call [self.m(...)] runs the first definition of [m] along
    [type(self).__mro__]; [super().m(...)] inside a class continues the
    search after that class.  The interpreters below recurse on the
    remaining part of the resolution order. *)

Inductive attr : Type :=
| a_init
| a_sample
| a_update
| a_phys_conf
| a_resample_walkers
| a_WALKER_STATE.

(** The attributes each class body defines. *)
Definition defines (c : class) (a : attr) : bool :=
  match c, a with
  | Sampler, (a_init | a_sample) => true
  | MetropolisSampler,
    (a_init | a_sample | a_update | a_phys_conf | a_WALKER_STATE) => true
  | LangevinSampler, a_WALKER_STATE => true
  | DecorrSampler, a_sample => true
  | ResampledSampler,
    (a_init | a_sample | a_update | a_resample_walkers) => true
  | _, _ => false
  end.

Definition resolve (m : list class) (a : attr) : result class :=
  match List.find (fun c => defines c a) m with
  | Some c => Ok c
  | None => Raise AttributeError
  end.

(** [self.WALKER_STATE] *)
Definition WALKER_STATE (self : obj) : result (list string) :=
  c ← resolve (mro self) a_WALKER_STATE;
  match c with
  | LangevinSampler => Ok ["r"; "psi"; "age"; "force"]
  | _ => Ok ["r"; "psi"; "age"]
  end.

(** [self.phys_conf(R, r)] for a batch [r] (the branch [r.ndim != 2]) *)
Definition phys_conf (self : obj) (R : list vec3) (r : list (list vec3))
    : result PhysicalConfiguration :=
  _ ← resolve (mro self) a_phys_conf;
  let n_smpl := length r in
  Ok (mk_conf (repeat R n_smpl) r (repeat 0 n_smpl)).

Definition in_list (k : string) (l : list string) : bool :=
  bool_decide (k ∈ l).

Definition as_length (v : pyval) : result nat :=
  match v with
  | PyInt z => if z <? 0 then Raise ValueError else Ok (Z.to_nat z)
  | _ => Raise TypeError
  end.

(** The test of [jax.lax.cond] in [ResampledSampler.sample]:
    [(self.period is not None and state['step'] >= self.period)
     | (self.treshold is not None and ess / len(weight) < self.treshold)] *)
Definition resample_due (period treshold : pyval) (step : Z) (ess : xreal)
    (n : nat) : result bool :=
  by_period ← match period with
              | PyNone => Ok false
              | PyInt p => Ok (p <=? step)
              | PyFloat x => Ok (xgeb (Fin (IZR step)) x)
              | PyRef _ => Raise TypeError
              end;
  by_ess ← match treshold with
           | PyNone => Ok false
           | PyInt t => Ok (xltb (xdiv ess (Fin (INR n))) (Fin (IZR t)))
           | PyFloat t => Ok (xltb (xdiv ess (Fin (INR n))) t)
           | PyRef _ => Raise TypeError
           end;
  Ok (by_period || by_ess).

Section Samplers.
Context {Params : Type}.

(** The proposal, update and acceptance part of
    [MetropolisSampler.sample] (everything before its [return]), which
    calls the wave function and [jax.random] and dispatches [_update],
    [_proposal] and [_acc_log_prob] on [self]. *)
Variable mcmc_step :
  obj -> key -> State -> Params -> list vec3 -> result (State * Stats).

(** [MetropolisSampler.init] *)
Variable mover_init :
  obj -> key -> Params -> nat -> list vec3 -> result State.

(** [multinomial_resampling(rng, weights)], from the module [utils] *)
Variable multinomial_resampling : key -> list xreal -> list nat.

(** [MetropolisSampler.sample] *)
Definition MetropolisSampler_sample (self : obj) (rng : key) (state : State)
    (params : Params) (R : list vec3)
    : result (State * PhysicalConfiguration * Stats) :=
  '(state, stats) ← mcmc_step self rng state params R;
  conf ← phys_conf self R (st_r state);
  Ok (state, conf, stats).

(** [DecorrSampler.sample]; [sample] is [super().sample]. *)
Definition DecorrSampler_sample
    (sample : key -> State -> Params -> list vec3
              -> result (State * PhysicalConfiguration * Stats))
    (self : obj) (rng : key) (state : State) (params : Params)
    (R : list vec3) : result (State * PhysicalConfiguration * Stats) :=
  length ← getattr self "length" ≫= as_length;
  '(state, stats) ← scan (fun state rng =>
                            '(state', _, stats) ← sample rng state params R;
                            Ok (state', stats))
                         state (random_split rng length);
  stats ← stacked_last stats;
  conf ← phys_conf self R (st_r state);
  Ok (state, conf, stats).

(** [ResampledSampler.resample_walkers] *)
Definition resample_walkers (self : obj) (rng_re : key) (state : State)
    : result State :=
  log_weight ← getkey (st_log_weight state);
  let idx := multinomial_resampling rng_re (map xexp log_weight) in
  ws ← WALKER_STATE self;
  let pick {A} (k : string) (x : list A) : list A :=
    if in_list k ws then take_rows x idx else x in
  Ok (mk_state
        (pick "r" (st_r state))
        (if in_list "psi" ws
         then mk_psi (take_rows (psi_sign (st_psi state)) idx)
                     (take_rows (psi_log (st_psi state)) idx)
         else st_psi state)
        (pick "age" (st_age state))
        (st_tau state)
        (pick "force" <$> st_force state)
        (Some 0)
        (Some (map (fun _ => Fin 0) log_weight))).

(** [ResampledSampler.sample]; [sample] is [super().sample]. *)
Definition ResampledSampler_sample
    (sample : key -> State -> Params -> list vec3
              -> result (State * PhysicalConfiguration * Stats))
    (self : obj) (rng : key) (state : State) (params : Params)
    (R : list vec3) : result (State * PhysicalConfiguration * Stats) :=
  let rng_re := Split rng 2 0 in
  let rng_smpl := Split rng 2 1 in
  '(state, _, stats) ← sample rng_smpl state params R;
  step ← getkey (st_step state);
  let state := mk_state (st_r state) (st_psi state) (st_age state)
                 (st_tau state) (st_force state) (Some (step + 1))
                 (st_log_weight state) in
  log_weight ← getkey (st_log_weight state);
  let ess := ess_of log_weight in
  let stats := <["sampling/effective sample size" := ess]> stats in
  period ← getattr self "period";
  treshold ← getattr self "treshold";
  due ← resample_due period treshold (step + 1) ess (length log_weight);
  state ← match due with
          | true => resample_walkers self rng_re state
          | false => Ok state
          end;
  conf ← phys_conf self R (st_r state);
  Ok (state, conf, stats).

(** [self.sample(rng, state, params, R)], searched along [tail].  The
    base [Sampler.sample(self, rng, state, wf)] takes one argument less
    than every call in the file passes. *)
Fixpoint sample_at (tail : list class) (self : obj) (rng : key)
    (state : State) (params : Params) (R : list vec3)
    : result (State * PhysicalConfiguration * Stats) :=
  match tail with
  | [] => Raise AttributeError
  | c :: rest =>
      match c with
      | DecorrSampler =>
          DecorrSampler_sample (sample_at rest self) self rng state params R
      | ResampledSampler =>
          ResampledSampler_sample (sample_at rest self) self rng state params R
      | MetropolisSampler => MetropolisSampler_sample self rng state params R
      | Sampler => Raise TypeError
      | _ => sample_at rest self rng state params R
      end
  end.

Definition sample (self : obj) : key -> State -> Params -> list vec3
    -> result (State * PhysicalConfiguration * Stats) :=
  sample_at (mro self) self.

(** [self.init(rng, params, n, R)], searched along [tail]; the base
    [Sampler.init(self, rng, wf, n)] again takes one argument less. *)
Fixpoint init_at (tail : list class) (self : obj) (rng : key)
    (params : Params) (n : nat) (R : list vec3) : result State :=
  match tail with
  | [] => Raise AttributeError
  | c :: rest =>
      match c with
      | ResampledSampler =>
          state ← init_at rest self rng params n R;
          Ok (mk_state (st_r state) (st_psi state) (st_age state)
                (st_tau state) (st_force state) (Some 0)
                (Some (map (fun _ => Fin 0) (psi_log (st_psi state)))))
      | MetropolisSampler => mover_init self rng params n R
      | Sampler => Raise TypeError
      | _ => init_at rest self rng params n R
      end
  end.

Definition init (self : obj) : key -> Params -> nat -> list vec3
    -> result State :=
  init_at (mro self) self.

(** What the specification says one external step of a decorrelated
    sampler is: [length] steps of the terminal mover, the [i]-th one with
    the [i]-th key of [jax.random.split(rng, length)], of which the
    configuration and the stats of the last step are returned. *)
Fixpoint iterate_mover (mover : obj) (keys : list key) (state : State)
    (params : Params) (R : list vec3)
    (last : option (PhysicalConfiguration * Stats))
    : result (State * option (PhysicalConfiguration * Stats)) :=
  match keys with
  | [] => Ok (state, last)
  | k :: keys' =>
      '(state', conf, stats) ← MetropolisSampler_sample mover k state params R;
      iterate_mover mover keys' state' params R (Some (conf, stats))
  end.

Definition spec_decorr_sample (mover : obj) (length : nat) (rng : key)
    (state : State) (params : Params) (R : list vec3)
    : result (State * PhysicalConfiguration * Stats) :=
  '(state', last) ← iterate_mover mover (random_split rng length) state params R None;
  match last with
  | Some (conf, stats) => Ok (state', conf, stats)
  | None => Raise IndexError
  end.

End Samplers.

(** ** Force stabilisation *)

(** Arithmetic on the last axis (three coordinates) *)
Definition vsub (a b : vec3) : vec3 :=
  let '(ax, ay, az) := a in
  let '(bx, by_, bz) := b in
  (xsub ax bx, xsub ay by_, xsub az bz).

Definition vmul (a b : vec3) : vec3 :=
  let '(ax, ay, az) := a in
  let '(bx, by_, bz) := b in
  (xmul ax bx, xmul ay by_, xmul az bz).

(** [c[..., None] * v] *)
Definition vscale (c : xreal) (v : vec3) : vec3 :=
  let '(x, y, z) := v in (xmul c x, xmul c y, xmul c z).

(** [v / c] for [c] with [keepdims=True] *)
Definition vdiv (v : vec3) (c : xreal) : vec3 :=
  let '(x, y, z) := v in (xdiv x c, xdiv y c, xdiv z c).

(** [jnp.sum(v, axis=-1)] *)
Definition vsum (v : vec3) : xreal :=
  let '(x, y, z) := v in xadd (xadd x y) z.

(** [jnp.linalg.norm(v, axis=-1)] *)
Definition vnorm (v : vec3) : xreal := xsqrt (vsum (vmul v v)).

(** Modelled from the spec: [pairwise_diffs] of the module [physics], which
    is not among the source files.  The nearest-nucleus lookup is a full
    pairwise computation by squared distance: for every particle and every
    nucleus the difference vector, followed by its squared length as the
    fourth component. *)
Definition pairwise_diffs (r coords : list vec3)
    : list (list (vec3 * xreal)) :=
  map (fun ri => map (fun Rj => let d := vsub ri Rj in (d, vsum (vmul d d)))
                     coords) r.

(** [jnp.argmin] along an axis: the first minimum, a [NaN] counting as
    smaller than everything; an empty axis raises. *)
Fixpoint argmin_from (best_i : nat) (best : xreal) (i : nat)
    (l : list xreal) : nat :=
  match l with
  | [] => best_i
  | x :: l' =>
      if negb (isnan best) && (isnan x || xltb x best)
      then argmin_from i x (S i) l'
      else argmin_from best_i best (S i) l'
  end.

Definition argmin (l : list xreal) : result nat :=
  match l with
  | [] => Raise ValueError
  | x :: l' => Ok (argmin_from 0 x 1 l')
  end.

(** Elementwise application over a leading axis; operands whose sizes
    differ are rejected. *)
Fixpoint zip_with_r {A B C} (f : A -> B -> result C) (la : list A)
    (lb : list B) : result (list C) :=
  match la, lb with
  | [], [] => Ok []
  | a :: la', b :: lb' =>
      c ← f a b; cs ← zip_with_r f la' lb'; Ok (c :: cs)
  | _, _ => Raise ValueError
  end.

Fixpoint map_r {A B} (f : A -> result B) (l : list A) : result (list B) :=
  match l with
  | [] => Ok []
  | a :: l' => b ← f a; bs ← map_r f l'; Ok (b :: bs)
  end.

(** [def diffs_to_nearest_nuc(r, coords)]: for every particle the row of
    [z] at its nearest nucleus, and the index of that nucleus. *)
Definition diffs_to_nearest_nuc (r coords : list vec3)
    : result (list ((vec3 * xreal) * nat)) :=
  let z := pairwise_diffs r coords in
  map_r (fun zi =>
           idx ← argmin (map snd zi);
           match zi !! idx with
           | Some row => Ok (row, idx)
           | None => Raise IndexError
           end) z.

Section CleanForce.

(** [jnp.finfo(dtype).eps] *)
Variable eps : R.

(** [def crossover_parameter(z, f, charge)], for one particle: [z] is the
    row [z[..., :3]] with [z2 = z[..., 3]]. *)
Definition crossover_parameter (z : vec3 * xreal) (f : vec3)
    (charge : xreal) : xreal :=
  let '(z, z2) := z in
  let z_unit := vdiv z (vnorm z) in
  let f_unit := vdiv f (clip_min (vnorm f) (Fin eps)) in
  let Z2z2 := xmul (xsqr charge) z2 in
  xadd (xdiv (xadd (Fin 1) (vsum (vmul f_unit z_unit))) (Fin 2))
       (xdiv Z2z2 (xmul (Fin 10) (xadd (Fin 4) Z2z2))).

(** The body of [clean_force] for one particle, given its row of
    [diffs_to_nearest_nuc] and the charge of that nucleus. *)
Definition clean_force_at (tau : xreal) (charge : xreal) (force : vec3)
    (z : vec3 * xreal) : vec3 :=
  let a := crossover_parameter z force charge in
  let av2tau := xmul (xmul a (vsum (vmul force force))) tau in
  let factor := xdiv (Fin 2)
                  (xadd (xsqrt (xadd (Fin 1) (xmul (Fin 2) av2tau))) (Fin 1)) in
  let force := vscale factor force in
  let norm_factor :=
    xmin (Fin 1)
         (xdiv (xsqrt z.2) (xmul tau (clip_min (vnorm force) (Fin eps)))) in
  vscale norm_factor force.

(** [mol.charges[idx]] *)
Definition charge_at (charges : list xreal) (idx : nat) : result xreal :=
  match charges !! Nat.min idx (length charges - 1) with
  | Some c => Ok c
  | None => Raise IndexError
  end.

(** [def clean_force(force, phys_conf, mol, *, tau)]: [jax.vmap] over the
    walkers of the batch, elementwise over the particles of a walker;
    [charges] is [mol.charges]. *)
Definition clean_force (force : list (list vec3))
    (phys_conf : PhysicalConfiguration) (charges : list xreal) (tau : xreal)
    : result (list (list vec3)) :=
  nearest ← zip_with_r diffs_to_nearest_nuc (pc_r phys_conf) (pc_R phys_conf);
  zip_with_r
    (fun force_w nearest_w =>
       zip_with_r
         (fun f zi =>
            charge ← charge_at charges zi.2;
            Ok (clean_force_at tau charge f zi.1))
         force_w nearest_w)
    force nearest.

End CleanForce.

(** Vectors of finite components, their Euclidean length and distance *)
Definition Rvec (x y z : R) : vec3 := (Fin x, Fin y, Fin z).

Definition finite_vec (v : vec3) : Prop :=
  exists x y z, v = Rvec x y z.

Definition Rnorm (x y z : R) : R := sqrt (x * x + y * y + z * z).

(** [dist a b d]: both points are finite and [d] is their distance. *)
Definition dist (a b : vec3) (d : R) : Prop :=
  exists ax ay az bx by_ bz,
    a = Rvec ax ay az /\ b = Rvec bx by_ bz
    /\ d = Rnorm (ax - bx) (ay - by_) (az - bz).

(** ** Definitions used to state and prove the properties *)

(** The file a store in [wd] writes at the counter value [n]. *)
Definition path_of (wd : string) (n : Z) : string :=
  CheckpointStore.joinpath wd (CheckpointStore.PATTERN (pretty n)).

(** What holds of a store between two calls: every checkpoint names the
    file of its own step, that file exists, no step is ahead of the counter
    and no step occurs twice. *)
Definition store_inv {State : Type} (wd : string)
    (w : gmap string State * CheckpointStore.t State) : Prop :=
  CheckpointStore.workdir w.2 = wd
  /\ Forall (fun c => Checkpoint.path c = path_of wd (Checkpoint.step c)
                      /\ is_Some (w.1 !! Checkpoint.path c)
                      /\ Checkpoint.step c <= CheckpointStore.step w.2)
            (CheckpointStore.chkpts w.2)
  /\ NoDup (Checkpoint.step <$> CheckpointStore.chkpts w.2).

(** An item whose log-amplitude holds no [NaN]. *)
Definition clean {TrainState : Type} (psi_log : TrainState -> list xreal)
    (it : fit_item TrainState) : Prop :=
  any_isnan (psi_log (it_train_state it)) = false.

(** The world once the iteration at step [k] has been recorded. *)
Definition stepped {TrainState : Type} (w : world TrainState) (k : Z)
    : world TrainState :=
  mk_world (disk w) (chkpts w) (trace w ++ [Step k]).

(** A computation that never raises [NaNError]. *)
Definition no_NaNError {S A : Type} (m : M S A) : Prop :=
  forall s s', m s <> Raised s' NaNError.

(** The indices one [MoleculeIdxSampler.sample] call returns from the
    state [s] when nothing is shuffled. *)
Definition batch (n bs s : Z) : list Z :=
  range s (Z.min (s + bs) n)
  ++ (if n - s <? bs then map (fun i => Z.min i (n - 1)) (range 0 (bs - (n - s)))
      else []).

(** A sampler that never shuffles, between two calls. *)
Definition steady (n bs : Z) (self : MoleculeIdxSampler.t) : Prop :=
  MoleculeIdxSampler.shuffle self = MoleculeIdxSampler.no_shuffle
  /\ MoleculeIdxSampler.n_mols self = n
  /\ MoleculeIdxSampler.batch_size self = bs
  /\ MoleculeIdxSampler.permutation self = range 0 n
  /\ 0 <= MoleculeIdxSampler.state self < n.

(** The two terminal movers *)
Definition is_mover (c : class) : Prop :=
  c = MetropolisSampler \/ c = LangevinSampler.

(** Test inputs for the samplers: a mover step that leaves the walkers
    where they are and reports no stats, and a resampling draw that picks
    walker 1 twice. *)
Definition demo_step (self : obj) (k : key) (s : State) (p : unit)
    (R : list vec3) : result (State * Stats) := Ok (s, ∅).
Definition demo_init (self : obj) (k : key) (p : unit) (n : nat)
    (R : list vec3) : result State := Raise NotImplementedError.
Definition demo_draw (k : key) (w : list xreal) : list nat := [1; 1]%nat.

Definition demo_mover : obj :=
  new_mover MetropolisSampler "hamil" "wf" (Fin 1) (PyFloat (Fin (57 / 100)))
    PyNone.

Definition demo_resampled : obj :=
  mk_obj "ResampledMetropolisSampler"
    [chained; ResampledSampler; MetropolisSampler; Sampler; object]
    (<["period" := PyInt 1]> (<["treshold" := PyNone]> ∅) ∪ dict demo_mover).

Definition demo_walkers : State :=
  mk_state [[(Fin 0, Fin 0, Fin 0)]; [(Fin 1, Fin 0, Fin 0)]]
    (mk_psi [Fin 1; Fin 1] [Fin 0; Fin 0]) [0; 3] (Fin 1) None
    (Some 0) (Some [Fin 0; Fin 0]).

Local Open Scope R_scope.

Definition finite (a : xreal) : Prop := exists x, a = Fin x.

Definition Rv (c : R * R * R) : vec3 := Rvec c.1.1 c.1.2 c.2.

(** The drift of the returned force [o] of a particle at [r] is finite and
    no longer than the distance to any nucleus of [Rw]. *)
Definition bounded_drift (t : R) (Rw : list vec3) (o r : vec3) : Prop :=
  exists ox oy oz,
    o = Rvec ox oy oz
    /\ forall Rj d, Rj ∈ Rw -> dist r Rj d -> t * Rnorm ox oy oz <= d.

(** Inputs on which the force stabilisation is meant to run: finite
    forces, positions and nuclei of agreeing shapes, at least one nucleus
    per walker, and no particle on a nucleus. *)
Definition well_posed (force : list (list vec3))
    (conf : PhysicalConfiguration) : Prop :=
  Forall3 (fun fw rw Rw =>
             Rw <> [] /\ Forall finite_vec Rw
             /\ Forall2 (fun f r => finite_vec f /\ finite_vec r
                                    /\ Forall (fun Rj => r <> Rj) Rw) fw rw)
          force (pc_r conf) (pc_R conf).

Local Close Scope R_scope.

(** ** What a checkpoint store retains *)

(** Adjacent retained checkpoints: the later one was taken at a later call,
    at least [mi] calls after the earlier one, and the test
    [loss > th * earlier.loss] was false for it. *)
Fixpoint improving (mi : Z) (th : xreal) (cs : list Checkpoint.t) : Prop :=
  match cs with
  | c1 :: rest =>
      match rest with
      | c2 :: _ =>
          Checkpoint.step c1 < Checkpoint.step c2
          /\ mi <= Checkpoint.step c2 - Checkpoint.step c1
          /\ xgtb (Checkpoint.loss c2) (xmul th (Checkpoint.loss c1)) = false
      | [] => True
      end /\ improving mi th rest
  | [] => True
  end.

(** The files and the list of a store agree: at most [size] checkpoints
    are retained, a file of the store's pattern exists exactly for the steps
    of the retained checkpoints, every other path holds what it held on the
    file system [d0], and the retained checkpoints were taken when the
    counter had reached [min_interval], each improving on the one before. *)
Definition retained_ok {State : Type} (wd : string) (d0 : gmap string State)
    (w : gmap string State * CheckpointStore.t State) : Prop :=
  Z.of_nat (length (CheckpointStore.chkpts w.2)) <= CheckpointStore.size w.2
  /\ (forall n, is_Some (w.1 !! path_of wd n)
                <-> n ∈ Checkpoint.step <$> CheckpointStore.chkpts w.2)
  /\ (forall p, (forall n, p <> path_of wd n) -> w.1 !! p = d0 !! p)
  /\ Forall (fun c => CheckpointStore.min_interval w.2 <= Checkpoint.step c)
            (CheckpointStore.chkpts w.2)
  /\ improving (CheckpointStore.min_interval w.2) (CheckpointStore.threshold w.2)
        (CheckpointStore.chkpts w.2).

(** ** States of [MoleculeIdxSampler] between two calls *)

(** A sampler of [n] geometries with batches of [bs], between two calls,
    whatever its shuffling mode: its permutation is a permutation of the
    geometry indices and its position is an index. *)
Definition valid_sampler (n bs : Z) (self : MoleculeIdxSampler.t) : Prop :=
  MoleculeIdxSampler.n_mols self = n
  /\ MoleculeIdxSampler.batch_size self = bs
  /\ MoleculeIdxSampler.permutation self ≡ₚ range 0 n
  /\ 0 <= MoleculeIdxSampler.state self < n.

(** A sampler constructed with the key [k] and [shuffle='once'], between
    two calls: it still holds [k] and the permutation drawn from [k]. *)
Definition shuffled_once (random_permutation : key -> list Z -> list Z)
    (k : key) (n bs : Z) (self : MoleculeIdxSampler.t) : Prop :=
  MoleculeIdxSampler.n_mols self = n
  /\ MoleculeIdxSampler.batch_size self = bs
  /\ 0 <= MoleculeIdxSampler.state self < n
  /\ MoleculeIdxSampler.shuffle self = MoleculeIdxSampler.once
  /\ MoleculeIdxSampler.rng self = k
  /\ MoleculeIdxSampler.permutation self
     = random_permutation (Split k 2 1) (range 0 n).

(** ** What the force stabilisation returns *)

Local Open Scope R_scope.

(** [o] is the finite force [f] scaled by a factor between 0 and 1. *)
Definition shrunk (f o : vec3) : Prop :=
  exists fx fy fz c,
    f = Rvec fx fy fz /\ 0 <= c <= 1
    /\ o = Rvec (c * fx) (c * fy) (c * fz).

(** The row of [diffs_to_nearest_nuc] for the particle at [r]: the
    difference to the nucleus of index [o.2], its squared length, and no
    nucleus of [cs] is nearer. *)
Definition nearest_row (cs : list (R * R * R)) (r : R * R * R)
    (o : (vec3 * xreal) * nat) : Prop :=
  exists c,
    cs !! o.2 = Some c
    /\ o.1 = (Rvec (r.1.1 - c.1.1) (r.1.2 - c.1.2) (r.2 - c.2),
              Fin (Rsqr (r.1.1 - c.1.1) + Rsqr (r.1.2 - c.1.2) + Rsqr (r.2 - c.2)))
    /\ forall c', c' ∈ cs ->
         Rnorm (r.1.1 - c.1.1) (r.1.2 - c.1.2) (r.2 - c.2)
         <= Rnorm (r.1.1 - c'.1.1) (r.1.2 - c'.1.2) (r.2 - c'.2).

Local Close Scope R_scope.

(** ** The Metropolis and Langevin movers

    The body of [MetropolisSampler.sample] with the methods [_update],
    [_proposal] and [_acc_log_prob] it dispatches on [self], for the two
    classes that define them.  The wave function, its gradient, the random
    draws and the collaborators of the modules [physics] and [hamil] are
    parameters. *)

(** [jnp.log] *)
Definition xlog (a : xreal) : xreal :=
  match a with
  | Fin x => if Rneg x then NaN else if Rzero x then NInf else Fin (ln x)
  | PInf => PInf
  | NInf | NaN => NaN
  end.

Definition vadd (a b : vec3) : vec3 :=
  let '(ax, ay, az) := a in
  let '(bx, by_, bz) := b in
  (xadd ax bx, xadd ay by_, xadd az bz).

(** [jnp.mean], [jnp.std] and [jnp.max] of a one-dimensional array; the
    maximum of an empty array raises. *)
Definition xmean (l : list xreal) : xreal :=
  xdiv (xsum l) (Fin (INR (length l))).

Definition xstd (l : list xreal) : xreal :=
  let m := xmean l in xsqrt (xmean (map (fun x => xsqr (xsub x m)) l)).

Definition zmax (l : list Z) : result Z :=
  match l with
  | [] => Raise ValueError
  | x :: l' => Ok (fold_left Z.max l' x)
  end.

(** [if v:] for an attribute value *)
Definition truthy_val (v : pyval) : bool :=
  match v with
  | PyNone => false
  | PyInt z => negb (z =? 0)
  | PyFloat (Fin x) => negb (Rzero x)
  | PyFloat _ => true
  | PyRef _ => true
  end.

(** A number used as a floating-point operand *)
Definition as_float (v : pyval) : result xreal :=
  match v with
  | PyInt z => Ok (Fin (IZR z))
  | PyFloat x => Ok x
  | _ => Raise TypeError
  end.

(** [self.<name>] for an attribute that holds a collaborator *)
Definition attr_ref (self : obj) (name : string) : result string :=
  v ← getattr self name;
  match v with
  | PyRef s => Ok s
  | _ => Raise TypeError
  end.

(** [jax.vmap(jnp.where)(accepted, xp, x)]: row [i] of [xp] where
    [accepted[i]], row [i] of [x] elsewhere. *)
Fixpoint where_rows {A} (accepted : list bool) (xp x : list A)
    : result (list A) :=
  match accepted, xp, x with
  | [], [], [] => Ok []
  | a :: accepted', p :: xp', y :: x' =>
      rest ← where_rows accepted' xp' x';
      Ok ((if a then p else y) :: rest)
  | _, _, _ => Raise ValueError
  end.

(** The class whose [_update], [_proposal] and [_acc_log_prob] a call on
    [self] runs: the first of the two movers in the resolution order. *)
Definition resolve_mover (m : list class) : result class :=
  match List.find (fun c => bool_decide (c = LangevinSampler)
                            || bool_decide (c = MetropolisSampler)) m with
  | Some c => Ok c
  | None => Raise AttributeError
  end.

(** [r.shape[:2]] *)
Definition shape_of (r : list (list vec3)) : nat * nat :=
  (length r, length (default [] (head r))).

(** [state['age'] >= self.max_age], elementwise *)
Definition age_ge (age : Z) (max_age : pyval) : result bool :=
  match max_age with
  | PyInt m => Ok (m <=? age)
  | PyFloat x => Ok (xgeb (Fin (IZR age)) x)
  | _ => Raise TypeError
  end.

Local Open Scope R_scope.

(** The squared length of a vector of three reals *)
Definition sq3 (x : R * R * R) : R :=
  x.1.1 * x.1.1 + x.1.2 * x.1.2 + x.2 * x.2.

(** The Langevin proposal for one particle, as [LangevinSampler._proposal]
    computes it: [r + tau * force + jnp.sqrt(tau) * xi]. *)
Definition langevin_move (tau : xreal) (r f xi : vec3) : vec3 :=
  vadd (vadd r (vscale tau f)) (vscale (xsqrt tau) xi).

Local Close Scope R_scope.

Section Movers.
Context {Params : Type}.

(** [self.wf(params, PhysicalConfiguration(R, r, mol_idx))] for one walker:
    the sign and the logarithm of the amplitude; the first argument names
    the wave function held by [self.wf]. *)
Variable wf : string -> Params -> list vec3 -> list vec3 -> Z -> xreal * xreal.

(** The gradient of the log-amplitude with respect to [r], which
    [jax.value_and_grad] derives from [self.wf]. *)
Variable grad_log_wf : string -> Params -> list vec3 -> list vec3 -> list vec3.

(** [jax.random.normal(rng, shape)[i, j]] and
    [jax.random.uniform(rng, (n,))[i]] *)
Variable random_normal : key -> nat * nat -> nat -> nat -> vec3.
Variable random_uniform : key -> nat -> nat -> xreal.

(** [jnp.mean(pairwise_self_distance(r))], from the module [physics] *)
Variable mean_self_distance : list (list vec3) -> xreal.

(** [self.hamil.init_sample(rng, R, n).r] and [self.hamil.mol.charges] *)
Variable init_sample : string -> key -> list vec3 -> nat -> list (list vec3).
Variable mol_charges : string -> list xreal.

(** [jnp.finfo(dtype).eps] *)
Variable eps : R.

Definition set_psi (state : State) (psi : Psi) : State :=
  mk_state (st_r state) psi (st_age state) (st_tau state) (st_force state)
    (st_step state) (st_log_weight state).

(** [MetropolisSampler._update]; the key ['psi'] of [state] is not read. *)
Definition MetropolisSampler__update (self : obj) (state : State)
    (params : Params) (R : list vec3) : result State :=
  wf_name ← attr_ref self "wf";
  conf ← phys_conf self R (st_r state);
  let psis := zip_with (fun Rr m => wf wf_name params Rr.1 Rr.2 m)
                (zip (pc_R conf) (pc_r conf)) (pc_mol_idx conf) in
  Ok (set_psi state (mk_psi (map fst psis) (map snd psis))).

(** [LangevinSampler._update]: inside [wf_and_force] every walker is a
    single configuration [PhysicalConfiguration(R, r, 0)]. *)
Definition LangevinSampler__update (self : obj) (state : State)
    (params : Params) (R : list vec3) : result State :=
  wf_name ← attr_ref self "wf";
  _ ← resolve (mro self) a_phys_conf;
  let psis := map (fun r => wf wf_name params R r 0) (st_r state) in
  let force := map (grad_log_wf wf_name params R) (st_r state) in
  conf ← phys_conf self R (st_r state);
  hamil ← attr_ref self "hamil";
  force ← clean_force eps force conf (mol_charges hamil) (st_tau state);
  Ok (mk_state (st_r state) (mk_psi (map fst psis) (map snd psis))
        (st_age state) (st_tau state) (Some force) (st_step state)
        (st_log_weight state)).

(** [self._update(state, params, R)] *)
Definition _update (self : obj) (state : State) (params : Params)
    (R : list vec3) : result State :=
  kind ← resolve_mover (mro self);
  match kind with
  | LangevinSampler => LangevinSampler__update self state params R
  | _ => MetropolisSampler__update self state params R
  end.

(** [jax.random.normal(rng, r.shape)] *)
Definition normal_like (rng : key) (r : list (list vec3)) : list (list vec3) :=
  imap (fun i ri => imap (fun j _ => random_normal rng (shape_of r) i j) ri) r.

(** [MetropolisSampler._proposal]:
    [r + state['tau'] * jax.random.normal(rng, r.shape)] *)
Definition MetropolisSampler__proposal (state : State) (rng : key)
    : result (list (list vec3)) :=
  Ok (zip_with (zip_with (fun r xi => vadd r (vscale (st_tau state) xi)))
        (st_r state) (normal_like rng (st_r state))).

(** [LangevinSampler._proposal]:
    [r + tau * state['force'] + jnp.sqrt(tau) * jax.random.normal(...)] *)
Definition LangevinSampler__proposal (state : State) (rng : key)
    : result (list (list vec3)) :=
  let tau := st_tau state in
  force ← getkey (st_force state);
  rf ← zip_with_r (zip_with_r (fun r f => Ok (r, f))) (st_r state) force;
  Ok (zip_with (zip_with (fun rf xi => langevin_move tau rf.1 rf.2 xi))
        rf (normal_like rng (st_r state))).

(** [MetropolisSampler._acc_log_prob]:
    [2 * (prop['psi'].log - state['psi'].log)] *)
Definition MetropolisSampler__acc_log_prob (state prop : State)
    : result (list xreal) :=
  zip_with_r (fun p s => Ok (xmul (Fin 2) (xsub p s)))
    (psi_log (st_psi prop)) (psi_log (st_psi state)).

(** The summand of [log_G_ratios] for one particle:
    [(f + f') * ((r - r') + tau / 2 * (f - f'))], summed over the
    coordinates. *)
Definition log_G_term (tau : xreal) (r r' f f' : vec3) : xreal :=
  vsum (vmul (vadd f f')
          (vadd (vsub r r') (vscale (xdiv tau (Fin 2)) (vsub f f')))).

(** [LangevinSampler._acc_log_prob] *)
Definition LangevinSampler__acc_log_prob (state prop : State)
    : result (list xreal) :=
  f ← getkey (st_force state);
  f' ← getkey (st_force prop);
  fs ← zip_with_r (zip_with_r (fun a b => Ok (a, b))) f f';
  rs ← zip_with_r (zip_with_r (fun a b => Ok (a, b))) (st_r state) (st_r prop);
  log_G_ratios ←
    zip_with_r (fun fw rw =>
                  terms ← zip_with_r
                            (fun ff rr => Ok (log_G_term (st_tau state)
                                                rr.1 rr.2 ff.1 ff.2))
                            fw rw;
                  Ok (xsum terms)) fs rs;
  psi ← MetropolisSampler__acc_log_prob state prop;
  zip_with_r (fun g p => Ok (xadd g p)) log_G_ratios psi.

(** [MetropolisSampler.sample] up to its [return]. *)
Definition MetropolisSampler_sample_body (self : obj) (rng : key)
    (state : State) (params : Params) (R : list vec3)
    : result (State * Stats) :=
  let rng_prop := Split rng 2 0 in
  let rng_acc := Split rng 2 1 in
  kind ← resolve_mover (mro self);
  r' ← match kind with
       | LangevinSampler => LangevinSampler__proposal state rng_prop
       | _ => MetropolisSampler__proposal state rng_prop
       end;
  ws ← WALKER_STATE self;
  let prop := mk_state r' (mk_psi [] []) (map (fun _ => 0) (st_age state))
                (st_tau state)
                (if in_list "force" ws then None else st_force state)
                (st_step state) (st_log_weight state) in
  prop ← _update self prop params R;
  log_prob ← match kind with
             | LangevinSampler => LangevinSampler__acc_log_prob state prop
             | _ => MetropolisSampler__acc_log_prob state prop
             end;
  let n := length log_prob in
  let accepted := imap (fun i lp => xgtb lp (xlog (random_uniform rng_acc n i)))
                    log_prob in
  max_age ← getattr self "max_age";
  accepted ← (if truthy_val max_age
              then zip_with_r (fun a age => old ← age_ge age max_age;
                                            Ok (a || old))
                     accepted (st_age state)
              else Ok accepted);
  let acceptance :=
    xdiv (Fin (INR (length (List.filter (fun a : bool => a) accepted))))
         (Fin (INR (length accepted))) in
  target ← getattr self "target_acceptance";
  tau ← (if truthy_val target
         then t ← as_float target;
              Ok (xdiv (st_tau prop)
                    (xdiv t (xmax acceptance (Fin (5 / 100)))))
         else Ok (st_tau prop));
  let aged := map (fun a => a + 1) (st_age state) in
  r ← where_rows accepted (st_r prop) (st_r state);
  sign ← where_rows accepted (psi_sign (st_psi prop)) (psi_sign (st_psi state));
  log ← where_rows accepted (psi_log (st_psi prop)) (psi_log (st_psi state));
  age ← where_rows accepted (st_age prop) aged;
  force ← (if in_list "force" ws
           then fp ← getkey (st_force prop);
                f ← getkey (st_force state);
                f' ← where_rows accepted fp f;
                Ok (Some f')
           else Ok (st_force prop));
  let state := mk_state r (mk_psi sign log) age tau force (st_step prop)
                 (st_log_weight prop) in
  age_max ← zmax (st_age state);
  let stats : Stats :=
    <["sampling/acceptance" := acceptance]>
      (<["sampling/tau" := st_tau state]>
         (<["sampling/age/mean" := xmean (map (fun a => Fin (IZR a)) (st_age state))]>
            (<["sampling/age/max" := Fin (IZR age_max)]>
               (<["sampling/log_psi/mean" := xmean (psi_log (st_psi state))]>
                  (<["sampling/log_psi/std" := xstd (psi_log (st_psi state))]>
                     (<["sampling/dists/mean" := mean_self_distance (st_r state)]>
                        ∅)))))) in
  Ok (state, stats).

(** [MetropolisSampler.init] *)
Definition MetropolisSampler_init (self : obj) (rng : key) (params : Params)
    (n : nat) (R : list vec3) : result State :=
  hamil ← attr_ref self "hamil";
  tau ← getattr self "initial_tau" ≫= as_float;
  _update self
    (mk_state (init_sample hamil rng R n) (mk_psi [] []) (repeat 0 n) tau
       None None None)
    params R.

(** [MetropolisSampler.update] *)
Definition MetropolisSampler_update (self : obj) (state : State)
    (params : Params) (R : list vec3) : result State :=
  _update self state params R.

(** [ResampledSampler.update].  The first statement assigns into the
    dictionary the caller passed; [_update] then returns a new dictionary.
    The result is the pair of the caller's dictionary after the call and
    the returned state; the maximum of an empty array raises. *)
Definition ResampledSampler_update (self : obj) (state : State)
    (params : Params) (R : list vec3) : result (State * State) :=
  lw ← getkey (st_log_weight state);
  lw1 ← zip_with_r (fun w l => Ok (xsub w (xmul (Fin 2) l)))
          lw (psi_log (st_psi state));
  let arg := mk_state (st_r state) (st_psi state) (st_age state)
               (st_tau state) (st_force state) (st_step state) (Some lw1) in
  state ← _update self arg params R;
  lw ← getkey (st_log_weight state);
  lw2 ← zip_with_r (fun w l => Ok (xadd w (xmul (Fin 2) l)))
          lw (psi_log (st_psi state));
  top ← match lw2 with
        | [] => Raise ValueError
        | w :: ws => Ok (fold_left xmax ws w)
        end;
  Ok (arg,
      mk_state (st_r state) (st_psi state) (st_age state) (st_tau state)
        (st_force state) (st_step state)
        (Some (map (fun w => xsub w top) lw2))).

End Movers.


(** A batch of [n] walkers under a [ResampledSampler] whose log-weights
    are all zero: every array has [n] rows and the step counter is set. *)
Definition uniform_batch (n : nat) (state : State) : Prop :=
  length (st_r state) = n
  /\ length (psi_sign (st_psi state)) = n
  /\ length (psi_log (st_psi state)) = n
  /\ length (st_age state) = n
  /\ (exists k, st_step state = Some k)
  /\ st_log_weight state = Some (repeat (Fin 0) n).

(** Test inputs for the movers: a wave function of constant amplitude 1,
    no noise, uniform draws of one half, and a mover with [max_age = 2]. *)
Definition demo_wf (name : string) (p : unit) (R r : list vec3) (m : Z)
    : xreal * xreal := (Fin 1, Fin 0).
Definition demo_grad (name : string) (p : unit) (R r : list vec3)
    : list vec3 := map (fun _ => (Fin 0, Fin 0, Fin 0)) r.
Definition demo_normal (k : key) (shape : nat * nat) (i j : nat) : vec3 :=
  (Fin 0, Fin 0, Fin 0).
Definition demo_uniform (k : key) (n i : nat) : xreal := Fin (1 / 2).
Definition demo_dist (r : list (list vec3)) : xreal := Fin 0.
Definition demo_charges (hamil : string) : list xreal := [Fin 1].

Definition demo_aged_mover : obj :=
  new_mover MetropolisSampler "hamil" "wf" (Fin 1) (PyFloat (Fin (57 / 100)))
    (PyInt 2).

Definition demo_body :=
  MetropolisSampler_sample_body demo_wf demo_grad demo_normal demo_uniform
    demo_dist demo_charges (/ 8388608).

(** ** [class MultiNuclearGeometrySampler]

    The state of the sampler is a pytree whose leaves carry the geometries
    on their leading axis: it is the list of the states of the wrapped
    sampler, one per geometry.  [jax.vmap] maps over that axis; the methods
    of the wrapped sampler ([self.sampler.init], [.sample], [.update]) are
    parameters.  Geometry indices are natural numbers. *)

(** [x.at[idx].set(y)]: row [idx[j]] of [x] becomes row [j] of [y]; an
    index past the end is dropped. *)
Definition scatter_rows {A} (x : list A) (idx : list nat) (y : list A)
    : list A :=
  foldl (fun x iy => <[iy.1 := iy.2]> x) x (zip idx y).

Module MultiNuclearGeometrySampler.
Section Sampler.
Context {Params : Type}.

Variable sampler_init : key -> Params -> nat -> list vec3 -> result State.
Variable sampler_sample :
  key -> State -> Params -> list vec3
  -> result (State * PhysicalConfiguration * Stats).
Variable sampler_update : State -> Params -> list vec3 -> result State.

Record t : Type := mk { nuclear_coordinates : list (list vec3) }.

(** [def __len__(self)] *)
Definition __len__ (self : t) : nat := length (nuclear_coordinates self).

(** [def init(self, rng, params, electron_batch_size)] *)
Definition init (self : t) (rng : key) (params : Params)
    (electron_batch_size : nat) : result (list State) :=
  let rngs := random_split rng (__len__ self) in
  zip_with_r (fun rng R => sampler_init rng params electron_batch_size R)
    rngs (nuclear_coordinates self).

(** [def sample(self, rng, state, params, mol_idxs)] *)
Definition sample (self : t) (rng : key) (state : list State)
    (params : Params) (mol_idxs : list nat)
    : result (list State * list PhysicalConfiguration * list Stats) :=
  let rngs := random_split rng (length mol_idxs) in
  let nuclear_coordinates := take_rows (nuclear_coordinates self) mol_idxs in
  let states_to_sample := take_rows state mol_idxs in
  args ← zip_with_r (fun rng s => Ok (rng, s)) rngs states_to_sample;
  out ← zip_with_r (fun a R => sampler_sample a.1 a.2 params R)
          args nuclear_coordinates;
  let sampled_states := map (fun o => o.1.1) out in
  let phys_conf := map (fun o => o.1.2) out in
  let stats := map snd out in
  let state := scatter_rows state mol_idxs sampled_states in
  let n_smpl := match phys_conf with
                | c :: _ => length (pc_r c)
                | [] => O
                end in
  let phys_conf :=
    zip_with (fun c i => mk_conf (pc_R c) (pc_r c) (repeat (Z.of_nat i) n_smpl))
      phys_conf mol_idxs in
  Ok (state, phys_conf, stats).

(** [def update(self, state, params)] *)
Definition update (self : t) (state : list State) (params : Params)
    : result (list State) :=
  zip_with_r (fun s R => sampler_update s params R)
    state (nuclear_coordinates self).

End Sampler.
End MultiNuclearGeometrySampler.

(** A wrapped sampler used as a test input: it ages every walker by one
    and reports no stats. *)
Definition demo_inner_sample (k : key) (s : State) (p : unit) (R : list vec3)
    : result (State * PhysicalConfiguration * Stats) :=
  Ok (mk_state (st_r s) (st_psi s) (map (fun a => a + 1) (st_age s))
        (st_tau s) (st_force s) (st_step s) (st_log_weight s),
      mk_conf (map (fun _ => R) (st_r s)) (st_r s) (map (fun _ => 0) (st_r s)),
      ∅).

(** ** [equilibrate] *)

(** The builtin [abs] on a float. *)
Definition xabs (a : xreal) : xreal :=
  match a with
  | Fin x => Fin (Rabs x)
  | PInf | NInf => PInf
  | NaN => NaN
  end.

(** The builtin [min(a, b)]: [b] when [b < a], else [a]. *)
Definition py_min (a b : xreal) : xreal := if xltb b a then b else a.

(** The slices [l[start:]] and [l[:stop]]: a negative bound counts from the
    end, and both are clamped to the list. *)
Definition slice_bound (len i : Z) : nat :=
  Z.to_nat (if i <? 0 then Z.max (len + i) 0 else Z.min i len).

Definition slice_from {A} (start : Z) (l : list A) : list A :=
  drop (slice_bound (Z.of_nat (length l)) start) l.

Definition slice_to {A} (stop : Z) (l : list A) : list A :=
  take (slice_bound (Z.of_nat (length l)) stop) l.

(** How the generator [equilibrate] ends: [steps] ran out, the loop reached
    [break], a sampler call raised, or [mean] or [stdev] raised
    [statistics.StatisticsError]. *)
Inductive exit_t : Type :=
| Exhausted
| Converged
| Error (e : exn)
| StatisticsError.

Section Equilibrate.
Context {Devices Idx Step SState Params Conf Stats : Type}.

Variable random_permutation : key -> list Z -> list Z.
Variable replicate_on_devices : list Z -> Devices.

(** [rng_iterator(rng)] and [select_one_device], from the module
    [parallel]: the [i]-th key the iterator produces. *)
Variable rng_iterator : key -> nat -> key.
Variable select_one_device : Devices -> Idx.

(** [statistics.mean] and [statistics.stdev]; [None] is
    [StatisticsError]. *)
Variable mean : list xreal -> option xreal.
Variable stdev : list xreal -> option xreal.

(** [sample_wf = jax.pmap(sampler.sample)] *)
Variable sample_wf : key -> SState -> Params -> Devices
                     -> result (SState * Conf * Stats).

(** [criterion(phys_conf).item()] *)
Variable criterion : Conf -> xreal.

Variable rng : key.
Variable params : Params.
Variable block_size : Z.
Variable n_blocks : Z.

(** The loop of [equilibrate] from its [i]-th iteration on, drained by the
    caller: the items yielded, how the generator ended, and the molecule
    index sampler it leaves behind. *)
Fixpoint equilibrate_from (i : nat) (steps : list Step) (state : SState)
    (buffer : list xreal) (molecule_idx_sampler : MoleculeIdxSampler.t)
    : list (Step * SState * Idx * Stats) * exit_t * MoleculeIdxSampler.t :=
  let buffer_size := block_size * n_blocks in
  match steps with
  | [] => ([], Exhausted, molecule_idx_sampler)
  | step :: steps' =>
      let rng := rng_iterator rng i in
      match MoleculeIdxSampler.sample random_permutation replicate_on_devices
              molecule_idx_sampler with
      | Raised molecule_idx_sampler e => ([], Error e, molecule_idx_sampler)
      | Done molecule_idx_sampler mol_idxs =>
          match sample_wf rng state params mol_idxs with
          | Raise e => ([], Error e, molecule_idx_sampler)
          | Ok (state, phys_conf, stats) =>
              let item := (step, state, select_one_device mol_idxs, stats) in
              let buffer :=
                slice_from (- buffer_size + 1) buffer ++ [criterion phys_conf] in
              let continue :=
                let '(items, exit, molecule_idx_sampler) :=
                  equilibrate_from (S i) steps' state buffer
                    molecule_idx_sampler in
                (item :: items, exit, molecule_idx_sampler) in
              if Z.of_nat (length buffer) <? buffer_size then continue
              else
                let b1 := slice_to block_size buffer in
                let b2 := slice_from (- block_size) buffer in
                match
                  m1 ← mean b1; m2 ← mean b2;
                  s1 ← stdev b1; s2 ← stdev b2;
                  Some (xltb (xabs (xsub m1 m2)) (py_min s1 s2))
                with
                | None => ([item], StatisticsError, molecule_idx_sampler)
                | Some true => ([item], Converged, molecule_idx_sampler)
                | Some false => continue
                end
          end
      end
  end.

(** [def equilibrate(rng, params, molecule_idx_sampler, sampler, state,
    criterion, steps, *, block_size, n_blocks=5)] *)
Definition equilibrate (molecule_idx_sampler : MoleculeIdxSampler.t)
    (state : SState) (steps : list Step) :=
  equilibrate_from 0 steps state [] molecule_idx_sampler.

End Equilibrate.

(** [statistics.mean] and [statistics.stdev] of a sample of finite values, in
    exact arithmetic. *)
Definition mean_exact (data : list xreal) : option xreal :=
  match data with
  | [] => None
  | _ => Some (xdiv (xsum data) (Fin (INR (length data))))
  end.

Definition stdev_exact (data : list xreal) : option xreal :=
  if (length data <? 2)%nat then None
  else
    m ← mean_exact data;
    Some (xsqrt (xdiv (xsum (map (fun x => xsqr (xsub x m)) data))
                      (Fin (INR (length data - 1))))).

(** A sampler over a single molecule, a walker state that counts the calls,
    and a criterion that reads the count. *)
Definition one_molecule : MoleculeIdxSampler.t :=
  MoleculeIdxSampler.mk (PRNGKey 0) 1 1 0 MoleculeIdxSampler.no_shuffle [0].

Definition counting_sample (_ : key) (state : nat) (_ : unit) (_ : list Z)
    : result (nat * nat * unit) :=
  Ok (S state, state, tt).

(** * Properties of [jax/train.py] *)

Ltac msimpl :=
  cbv [mbind mret M_bind M_ret bind ret get put modify raise]; cbn [fst snd].

Section StoreFacts.
Context {State : Type}.
Implicit Types (d : gmap string State) (self : CheckpointStore.t State).
Implicit Types (w : gmap string State * CheckpointStore.t State).

Lemma string_length_app (s t : string) :
  String.length (s +:+ t) = (String.length s + String.length t)%nat.
Proof. induction s as [|a s IH]; simpl; [done | by rewrite IH]. Qed.

Lemma string_app_inv_tail (x y t : string) : x +:+ t = y +:+ t -> x = y.
Proof.
  revert y. induction x as [|a x IH]; intros [|b y] H; simpl in H.
  - done.
  - apply (f_equal String.length) in H.
    rewrite ?string_length_app in H. simpl in H.
    rewrite ?string_length_app in H. lia.
  - apply (f_equal String.length) in H.
    rewrite ?string_length_app in H. simpl in H.
    rewrite ?string_length_app in H. lia.
  - injection H as -> H. f_equal. by apply IH.
Qed.

Lemma path_of_inj (wd : string) (a b : Z) : path_of wd a = path_of wd b -> a = b.
Proof.
  unfold path_of, CheckpointStore.joinpath, CheckpointStore.PATTERN.
  intros H. do 3 apply String.app_inj in H.
  apply string_app_inv_tail in H. by apply pretty_Z_inj in H.
Qed.

Lemma set_chkpts_id self : CheckpointStore.set_chkpts self (CheckpointStore.chkpts self) = self.
Proof. by destruct self. Qed.

Lemma evict_spec (cs : list Checkpoint.t) : forall d self,
  CheckpointStore.chkpts self = cs ->
  0 <= CheckpointStore.size self ->
  Forall (fun c => is_Some (d !! Checkpoint.path c)) cs ->
  NoDup (Checkpoint.path <$> cs) ->
  exists d',
    let k := (length cs - Z.to_nat (CheckpointStore.size self))%nat in
    CheckpointStore.evict cs (d, self)
      = Done (d', CheckpointStore.set_chkpts self (drop k cs)) tt
    /\ (forall p, p ∉ (Checkpoint.path <$> take k cs) -> d' !! p = d !! p).
Proof.
  induction cs as [|c rest IH]; intros d self Hcs Hsz Hfiles Hnd.
  - exists d. simpl. msimpl.
    destruct (Z.ltb_spec (CheckpointStore.size self) (Z.of_nat 0)); [lia|].
    split; [|done]. by rewrite <- Hcs, set_chkpts_id.
  - cbn [CheckpointStore.evict]. msimpl.
    destruct (Z.ltb_spec (CheckpointStore.size self) (Z.of_nat (length (c :: rest))))
      as [Hlt|Hge].
    + unfold CheckpointStore.unlink. msimpl.
      apply Forall_cons in Hfiles as [[x Hx] Hfiles].
      rewrite fmap_cons in Hnd. apply NoDup_cons in Hnd as [Hc Hnd].
      rewrite Hx.
      destruct (IH (delete (Checkpoint.path c) d) (CheckpointStore.set_chkpts self rest))
        as (d' & Hev & Hd'); [by destruct self | by destruct self | | done |].
      { apply Forall_forall. intros c' Hc'.
        rewrite Forall_forall in Hfiles.
        rewrite lookup_delete_ne; [by apply Hfiles|].
        intros Heq. apply Hc. rewrite Heq. by apply list_elem_of_fmap_2. }
      exists d'. cbn zeta in *.
      assert (Hsz' : CheckpointStore.size (CheckpointStore.set_chkpts self rest)
                     = CheckpointStore.size self) by by destruct self.
      rewrite Hsz' in *.
      simpl length in *.
      replace (S (length rest) - Z.to_nat (CheckpointStore.size self))%nat
        with (S (length rest - Z.to_nat (CheckpointStore.size self))) by lia.
      cbn [drop take]. split.
      * rewrite Hev. by destruct self.
      * intros p Hp. rewrite fmap_cons in Hp.
        apply not_elem_of_cons in Hp as [Hne Hp].
        rewrite Hd' by done. by rewrite lookup_delete_ne.
    + exists d. cbn zeta. simpl length in *.
      replace (S (length rest) - Z.to_nat (CheckpointStore.size self))%nat with 0%nat by lia.
      split; [|done]. cbn [drop]. by rewrite <- Hcs, set_chkpts_id.
Qed.

Lemma skips_gate self loss state :
  CheckpointStore.skips
    (CheckpointStore.set_buffer
       (CheckpointStore.set_step self (CheckpointStore.step self + 1))
       (Some state)) loss
  = negb (gate self (CheckpointStore.step self + 1) loss).
Proof.
  unfold CheckpointStore.skips, gate. destruct self as [wd sz mi th cs st b].
  cbn [CheckpointStore.set_buffer CheckpointStore.set_step
       CheckpointStore.step CheckpointStore.min_interval
       CheckpointStore.chkpts CheckpointStore.threshold
       CheckpointStore.workdir CheckpointStore.size CheckpointStore.buffer].
  rewrite negb_andb, <- Z.ltb_antisym. f_equal.
  destruct (list.last cs) as [c|]; [|done].
  rewrite negb_andb, negb_involutive. f_equal.
  rewrite <- Z.ltb_antisym.
  destruct (Z.ltb_spec (st + 1) (mi + Checkpoint.step c)),
           (Z.ltb_spec (st + 1 - Checkpoint.step c) mi); (done || lia).
Qed.

Lemma paths_nodup (wd : string) (cs : list Checkpoint.t) :
  Forall (fun c => Checkpoint.path c = path_of wd (Checkpoint.step c)) cs ->
  NoDup (Checkpoint.step <$> cs) -> NoDup (Checkpoint.path <$> cs).
Proof.
  induction 1 as [|c cs Hc Hcs IH]; [constructor|].
  rewrite !fmap_cons, !NoDup_cons. intros [Hn Hnd]. split; [|by apply IH].
  intros Hin. apply Hn. apply list_elem_of_fmap in Hin as (c' & Heq & Hc').
  rewrite Forall_forall in Hcs. rewrite Hc, (Hcs c' Hc') in Heq.
  apply path_of_inj in Heq. rewrite Heq. by apply list_elem_of_fmap_2.
Qed.

Lemma last_drop_lt {A} (l : list A) (k : nat) :
  (k < length l)%nat -> list.last (drop k l) = list.last l.
Proof.
  intros Hk. rewrite !last_lookup, lookup_drop, length_drop. f_equal. lia.
Qed.

(** One [update] call on a store that satisfies the invariant. *)
Lemma update_spec (wd : string) w (loss : xreal) (state : State) :
  store_inv wd w -> 0 <= CheckpointStore.size w.2 ->
  exists w',
    CheckpointStore.update loss state w = Done w' tt
    /\ store_inv wd w'
    /\ CheckpointStore.step w'.2 = CheckpointStore.step w.2 + 1
    /\ CheckpointStore.buffer w'.2 = Some state
    /\ CheckpointStore.size w'.2 = CheckpointStore.size w.2
    /\ CheckpointStore.min_interval w'.2 = CheckpointStore.min_interval w.2
    /\ CheckpointStore.threshold w'.2 = CheckpointStore.threshold w.2
    /\ (gate w.2 (CheckpointStore.step w.2 + 1) loss = false ->
        w'.1 = w.1 /\ CheckpointStore.chkpts w'.2 = CheckpointStore.chkpts w.2)
    /\ (gate w.2 (CheckpointStore.step w.2 + 1) loss = true ->
        1 <= CheckpointStore.size w.2 -> persisted w' state).
Proof.
  destruct w as [d self]. intros (Hwd & Hall & Hnd) Hsz. cbn [fst snd] in *.
  unfold CheckpointStore.update. msimpl. rewrite skips_gate.
  destruct (gate self (CheckpointStore.step self + 1) loss) eqn:Hg; cbn [negb].
  - (* the call persists *)
    unfold CheckpointStore.dump. msimpl.
    set (self1 := CheckpointStore.set_buffer
                    (CheckpointStore.set_step self (CheckpointStore.step self + 1))
                    (Some state)).
    set (p := CheckpointStore.joinpath (CheckpointStore.workdir self1)
                (CheckpointStore.PATTERN (pretty (CheckpointStore.step self1)))).
    assert (Hp : p = path_of wd (CheckpointStore.step self + 1)).
    { subst p self1. unfold path_of. rewrite <- Hwd. by destruct self. }
    set (new := Checkpoint.mk (CheckpointStore.step self1) loss p).
    set (cs := CheckpointStore.chkpts self1 ++ [new]).
    set (self2 := CheckpointStore.set_chkpts self1 cs).
    assert (Hcs1 : CheckpointStore.chkpts self1 = CheckpointStore.chkpts self)
      by by destruct self.
    assert (Hst1 : CheckpointStore.step self1 = CheckpointStore.step self + 1)
      by by destruct self.
    assert (Hcs2 : CheckpointStore.chkpts self2 = cs) by by destruct self.
    assert (Hpaths : Forall (fun c => Checkpoint.path c = path_of wd (Checkpoint.step c)) cs).
    { subst cs. rewrite Hcs1. apply Forall_app. split.
      - eapply Forall_impl; [exact Hall|]. by intros c (? & _).
      - constructor; [|constructor]. subst new. cbn [Checkpoint.step Checkpoint.path Checkpoint.loss]. by rewrite Hst1. }
    assert (Hsteps : NoDup (Checkpoint.step <$> cs)).
    { subst cs. rewrite Hcs1, fmap_app. apply NoDup_app. split; [done|]. split.
      - intros x Hx Hx'. apply list_elem_of_fmap in Hx as (c & -> & Hc).
        rewrite Forall_forall in Hall. destruct (Hall c Hc) as (_ & _ & Hle).
        cbn [fmap list_fmap] in Hx'. apply list_elem_of_singleton in Hx'. subst new. cbn [Checkpoint.step] in Hx'. rewrite Hst1 in Hx'. lia.
      - cbn. apply NoDup_singleton. }
    assert (Hfiles : Forall (fun c => is_Some (<[p:=state]> d !! Checkpoint.path c)) cs).
    { subst cs. rewrite Hcs1. apply Forall_app. split.
      - eapply Forall_impl; [exact Hall|]. intros c (_ & Hc & _).
        apply lookup_insert_is_Some'. by right.
      - constructor; [|constructor]. subst new. cbn [Checkpoint.step Checkpoint.path Checkpoint.loss].
        rewrite lookup_insert_eq. by eexists. }
    destruct (evict_spec cs (<[p:=state]> d) self2 Hcs2) as (d' & Hev & Hd');
      [by destruct self | done | by eapply paths_nodup |].
    cbn zeta in Hev. rewrite Hcs2.
    replace (CheckpointStore.size self2) with (CheckpointStore.size self) in *
      by by destruct self.
    set (k := (length cs - Z.to_nat (CheckpointStore.size self))%nat) in *.
    fold self2. rewrite Hev. eexists. split; [reflexivity|].
    unfold store_inv, persisted. cbn [fst snd].
    assert (Hsplit : cs = take k cs ++ drop k cs) by by rewrite take_drop.
    assert (Hkeep : forall c, c ∈ drop k cs -> d' !! Checkpoint.path c
                                = <[p:=state]> d !! Checkpoint.path c).
    { intros c Hc. apply Hd'. intros Hin.
      pose proof (paths_nodup wd cs Hpaths Hsteps) as Hndp.
      rewrite Hsplit, fmap_app in Hndp. apply NoDup_app in Hndp as (_ & Hdisj & _).
      apply (Hdisj _ Hin). by apply list_elem_of_fmap_2. }
    split_and!.
    + by destruct self.
    + replace (CheckpointStore.chkpts (CheckpointStore.set_chkpts self2 (drop k cs)))
        with (drop k cs) by by destruct self.
      apply Forall_forall. intros c Hc.
      assert (Hin : c ∈ cs) by (rewrite Hsplit; apply elem_of_app; by right).
      rewrite Forall_forall in Hpaths, Hfiles.
      split; [by apply Hpaths|]. split.
      * rewrite Hkeep by done. by apply Hfiles.
      * replace (CheckpointStore.step (CheckpointStore.set_chkpts self2 (drop k cs)))
          with (CheckpointStore.step self + 1) by by destruct self.
        subst cs. rewrite Hcs1 in Hin. apply elem_of_app in Hin as [Hin|Hin].
        -- rewrite Forall_forall in Hall. destruct (Hall c Hin) as (_ & _ & ?). lia.
        -- apply list_elem_of_singleton in Hin. subst c new. cbn [Checkpoint.step Checkpoint.path Checkpoint.loss]. lia.
    + replace (CheckpointStore.chkpts (CheckpointStore.set_chkpts self2 (drop k cs)))
        with (drop k cs) by by destruct self.
      rewrite Hsplit, fmap_app in Hsteps. by apply NoDup_app in Hsteps as (_ & _ & ?).
    + by destruct self.
    + by destruct self.
    + by destruct self.
    + by destruct self.
    + by destruct self.
    + done.
    + intros _ Hsz1. exists new.
      replace (CheckpointStore.chkpts (CheckpointStore.set_chkpts self2 (drop k cs)))
        with (drop k cs) by by destruct self.
      assert (Hlen : length cs = S (length (CheckpointStore.chkpts self))).
      { subst cs. rewrite Hcs1, length_app. cbn. lia. }
      assert (Hk : (k < length cs)%nat) by (subst k; lia).
      assert (Hlast : list.last (drop k cs) = Some new).
      { rewrite last_drop_lt by done. subst cs. apply last_snoc. }
      split; [done|]. split; [by destruct self|].
      rewrite Hkeep.
      * subst new. cbn [Checkpoint.step Checkpoint.path Checkpoint.loss]. by rewrite lookup_insert_eq.
      * by apply last_Some_elem_of.
  - (* the call only refreshes the buffer *)
    eexists. split; [reflexivity|]. unfold store_inv, persisted. cbn [fst snd].
    split_and!; try by destruct self.
    + replace (CheckpointStore.chkpts _) with (CheckpointStore.chkpts self)
        by by destruct self.
      eapply Forall_impl; [exact Hall|]. intros c (? & ? & ?).
      repeat split; try done.
      replace (CheckpointStore.step _) with (CheckpointStore.step self + 1)
        by by destruct self.
      lia.
Qed.

End StoreFacts.

Section StoreRunFacts.
Context {State : Type}.
Implicit Types (d : gmap string State) (self : CheckpointStore.t State).
Implicit Types (w : gmap string State * CheckpointStore.t State).

Lemma fresh_spec (wd : string) (size mi : Z) (th : xreal) d :
  let w := fresh wd size mi th d in
  store_inv wd w
  /\ w.2 = CheckpointStore.mk wd size mi th [] 0 None.
Proof.
  unfold fresh, CheckpointStore.__init__. msimpl.
  unfold store_inv. cbn. split_and!; try done. constructor.
Qed.

Lemma updates_spec (wd : string) (calls : list (xreal * State)) : forall w,
  store_inv wd w -> 0 <= CheckpointStore.size w.2 ->
  exists w',
    updates calls w = Done w' tt
    /\ store_inv wd w'
    /\ CheckpointStore.step w'.2 = CheckpointStore.step w.2 + Z.of_nat (length calls)
    /\ CheckpointStore.size w'.2 = CheckpointStore.size w.2
    /\ CheckpointStore.min_interval w'.2 = CheckpointStore.min_interval w.2
    /\ CheckpointStore.threshold w'.2 = CheckpointStore.threshold w.2
    /\ (forall c, list.last calls = Some c -> CheckpointStore.buffer w'.2 = Some c.2).
Proof.
  induction calls as [|[loss state] rest IH]; intros w Hinv Hsz.
  - exists w. cbn. msimpl. split_and!; try done. lia.
  - destruct (update_spec wd w loss state Hinv Hsz)
      as (w1 & Hup & Hinv1 & Hst1 & Hb1 & Hsz1 & Hmi1 & Hth1 & _).
    destruct (IH w1 Hinv1) as (w' & Hrun & Hinv' & Hst' & Hsz' & Hmi' & Hth' & Hb');
      [lia|].
    exists w'. cbn [updates]. msimpl. rewrite Hup, Hrun.
    split_and!; try done; try congruence.
    + rewrite Hst', Hst1. cbn [length]. lia.
    + intros c Hc. destruct rest as [|c' rest'].
      * cbn in Hc. injection Hc as <-. cbn in Hrun. unfold mret, M_ret, ret in Hrun.
        injection Hrun as <-. done.
      * apply Hb'. by rewrite last_cons_cons in Hc.
Qed.

Lemma xleb_negb_xgtb (a b : xreal) :
  isnan a = false -> isnan b = false -> xleb a b = negb (xgtb a b).
Proof.
  unfold xgtb. destruct a as [x| | |], b as [y| | |]; cbn; try done.
  unfold Rleb, Rltb. intros _ _.
  destruct (Rle_dec x y), (Rlt_dec y x); (done || lra).
Qed.

End StoreRunFacts.

Section StoreTheorems.
Context {State : Type}.


(** Claim C9.  After at least one [update] call on a freshly constructed
    store, [close()] returns normally and the file named after the final
    value of the counter holds the state passed to the most recent [update]
    call, whatever the losses and the gate were. *)
Theorem close_persists_last_state (wd : string) (size mi : Z) (th : xreal)
    (d : gmap string State) (calls : list (xreal * State))
    (loss : xreal) (state : State) :
  0 <= size ->
  exists w w',
    updates (calls ++ [(loss, state)]) (fresh wd size mi th d) = Done w tt
    /\ CheckpointStore.step w.2 = Z.of_nat (length calls) + 1
    /\ CheckpointStore.close w = Done w' tt
    /\ w'.1 !! path_of wd (CheckpointStore.step w.2) = Some state.
Proof.
  intros Hsz.
  destruct (fresh_spec wd size mi th d) as [Hinv0 Hw0].
  destruct (updates_spec wd (calls ++ [(loss, state)]) _ Hinv0)
    as (w & Hrun & Hinv & Hst & _ & _ & _ & Hb).
  { rewrite Hw0. cbn. lia. }
  rewrite Hw0 in Hst. cbn [snd CheckpointStore.step] in Hst.
  specialize (Hb _ (last_snoc _ _)). cbn in Hb.
  destruct w as [dw self]. cbn [fst snd] in *.
  eexists (dw, self), _. split_and!; [done | | |].
  - cbn [snd]. rewrite Hst, length_app. cbn. lia.
  - unfold CheckpointStore.close. msimpl. rewrite Hb.
    unfold CheckpointStore.dump. msimpl. reflexivity.
  - cbn [fst snd]. destruct Hinv as (Hwd & _). cbn in Hwd. rewrite Hwd.
    apply lookup_insert_eq.
Qed.

End StoreTheorems.



(** C9 on a single [update] that does not pass the gate. *)
Lemma close_persists_last_state_witness :
  exists w w',
    updates ([] ++ [(Fin 1, 7%nat)])
      (fresh "w" 3 100 CheckpointStore.default_threshold ∅) = Done w tt
    /\ CheckpointStore.close w = Done w' tt
    /\ w'.1 !! path_of "w" 1 = Some 7%nat.
Proof.
  destruct (close_persists_last_state "w" 3 100 CheckpointStore.default_threshold
              ∅ [] (Fin 1) 7%nat) as (w & w' & H1 & H2 & H3 & H4); [lia|].
  exists w, w'. rewrite H2 in H4. split_and!; done.
Defined.

Section Quiet.
Context {S : Type}.

Lemma quiet_ret {A} (a : A) : no_NaNError (mret a : M S A).
Proof. intros s s'. done. Qed.

Lemma quiet_raise {A} (e : exn) : e <> NaNError -> no_NaNError (raise e : M S A).
Proof. intros He s s' H. injection H as _ ->. done. Qed.

Lemma quiet_bind {A B} (m : M S A) (k : A -> M S B) :
  no_NaNError m -> (forall a, no_NaNError (k a)) -> no_NaNError (m ≫= k).
Proof.
  intros Hm Hk s s'. cbv [mbind M_bind bind].
  destruct (m s) as [s1 a|s1 e] eqn:E.
  - apply Hk.
  - intros H. injection H as -> ->. by apply (Hm s s').
Qed.

Lemma quiet_get : no_NaNError (get : M S S).
Proof. intros s s'. done. Qed.

Lemma quiet_put (s0 : S) : no_NaNError (put s0).
Proof. intros s s'. done. Qed.

Lemma quiet_modify (f : S -> S) : no_NaNError (modify f).
Proof. intros s s'. done. Qed.

Lemma quiet_for_each {X L A} (body : X -> L -> M S (ctl L A)) (xs : list X) :
  (forall x l, no_NaNError (body x l)) ->
  forall l, no_NaNError (for_each body xs l).
Proof.
  intros Hb. induction xs as [|x xs IH]; intros l; cbn [for_each].
  - apply quiet_ret.
  - apply quiet_bind; [apply Hb|]. intros [l'|l'|a]; [apply IH| |]; apply quiet_ret.
Qed.

Lemma quiet_finally {A} (m : M S A) (fin : M S unit) :
  no_NaNError m -> no_NaNError fin -> no_NaNError (finally m fin).
Proof.
  intros Hm Hf s s'. unfold finally.
  destruct (m s) as [s1 a|s1 e] eqn:Em; destruct (fin s1) as [s2 []|s2 e'] eqn:Ef;
    try done.
  - intros H. injection H as -> ->. by apply (Hf s1 s').
  - intros H. injection H as -> ->. by apply (Hm s s1).
  - intros H. injection H as -> ->. by apply (Hf s1 s').
Qed.

End Quiet.


Section StoreQuiet.
Context {State : Type}.

Lemma quiet_unlink (p : string) :
  no_NaNError (CheckpointStore.unlink (State := State) p).
Proof.
  unfold CheckpointStore.unlink. apply quiet_bind; [apply quiet_get|].
  intros [d self]. destruct (d !! p); [apply quiet_put|by apply quiet_raise].
Qed.

Lemma quiet_dump (state : State) : no_NaNError (CheckpointStore.dump state).
Proof.
  unfold CheckpointStore.dump. apply quiet_bind; [apply quiet_get|].
  intros [d self]. apply quiet_bind; [apply quiet_put|]. intros _. apply quiet_ret.
Qed.

Lemma quiet_evict (cs : list Checkpoint.t) :
  no_NaNError (CheckpointStore.evict (State := State) cs).
Proof.
  induction cs as [|c cs IH]; cbn [CheckpointStore.evict];
    (apply quiet_bind; [apply quiet_get|]); intros [d self];
    destruct (_ <? _); try apply quiet_ret; [by apply quiet_raise|].
  apply quiet_bind; [apply quiet_put|]. intros _.
  apply quiet_bind; [apply quiet_unlink|]. intros _. apply IH.
Qed.

Lemma quiet_update (loss : xreal) (state : State) :
  no_NaNError (CheckpointStore.update loss state).
Proof.
  unfold CheckpointStore.update.
  apply quiet_bind; [apply quiet_modify|]. intros _.
  apply quiet_bind; [apply quiet_modify|]. intros _.
  apply quiet_bind; [apply quiet_get|]. intros [d self].
  destruct (CheckpointStore.skips self loss); [apply quiet_ret|].
  apply quiet_bind; [apply quiet_dump|]. intros p.
  apply quiet_bind; [apply quiet_modify|]. intros _.
  apply quiet_bind; [apply quiet_get|]. intros [d' self']. apply quiet_evict.
Qed.

Lemma quiet_close : no_NaNError (CheckpointStore.close (State := State)).
Proof.
  unfold CheckpointStore.close. apply quiet_bind; [apply quiet_get|].
  intros [d self]. destruct (CheckpointStore.buffer self); [|apply quiet_ret].
  apply quiet_bind; [apply quiet_dump|]. intros _. apply quiet_ret.
Qed.

Lemma quiet_last : no_NaNError (CheckpointStore.last (State := State)).
Proof.
  unfold CheckpointStore.last. apply quiet_bind; [apply quiet_get|].
  intros [d self]. destruct (list.last _); [|by apply quiet_raise].
  destruct (d !! _); [apply quiet_ret|by apply quiet_raise].
Qed.

End StoreQuiet.

Section TrainQuiet.
Context {TrainState Optimizer : Type}.
Variable psi_log : TrainState -> list xreal.
Variable fit_wf : Z * Z -> TrainState -> list (fit_item TrainState).

Lemma quiet_on_chkpts {A}
    (m : M (gmap string TrainState * CheckpointStore.t TrainState) A) :
  no_NaNError m -> no_NaNError (on_chkpts m).
Proof.
  intros Hm w w'. unfold on_chkpts. destruct (chkpts w) as [self|]; [|done].
  destruct (m (disk w, self)) as [[d s1] a|[d s1] e] eqn:E; [done|].
  intros H. injection H as _ ->. by apply (Hm (disk w, self) (d, s1)).
Qed.

Lemma quiet_log_event (e : event) : no_NaNError (log_event (TrainState := TrainState) e).
Proof. apply quiet_modify. Qed.

Lemma quiet_fit_body (workdir : option string) (mode : mode_t) (steps : Z)
    (it : fit_item TrainState) (l : locals TrainState) :
  no_NaNError (fit_body psi_log workdir mode steps it l).
Proof.
  unfold fit_body. apply quiet_bind; [apply quiet_log_event|]. intros _.
  cbv zeta. destruct (any_isnan _).
  - apply quiet_bind; [apply quiet_on_chkpts, quiet_last|]. intros [step state].
    apply quiet_bind; [apply quiet_log_event|]. intros _. apply quiet_ret.
  - apply quiet_bind; [|intros _; apply quiet_ret].
    destruct (truthy workdir); [|apply quiet_ret].
    destruct mode; [apply quiet_ret|apply quiet_on_chkpts, quiet_update].
Qed.

Lemma quiet_restart_body (workdir : option string) (mode : mode_t) (steps : Z)
    (attempt : Z) (l : locals TrainState) :
  no_NaNError (restart_body psi_log fit_wf workdir mode steps attempt l).
Proof.
  unfold restart_body. apply quiet_bind; [apply quiet_log_event|]. intros _.
  apply quiet_bind; [apply quiet_for_each, quiet_fit_body|].
  intros [l'|v]; apply quiet_ret.
Qed.

(** The restart loop ends in its first iteration: the attempts after the
    first are never made. *)
Lemma restart_loop_first (workdir : option string) (mode : mode_t) (steps : Z)
    (x : Z) (xs : list Z) (l : locals TrainState) (w : world TrainState) :
  for_each (restart_body psi_log fit_wf workdir mode steps) (x :: xs) l w
  = for_each (restart_body psi_log fit_wf workdir mode steps) [x] l w.
Proof.
  cbn [for_each]. cbv [mbind M_bind bind]. unfold restart_body.
  cbv [mbind M_bind bind log_event modify mret M_ret ret].
  destruct (for_each _ _ _ _) as [s' [l'|v]|s' e]; reflexivity.
Qed.

(** No input makes [train] raise [NaNError]. *)
Lemma train_never_raises_NaNError (opt : option Optimizer)
    (workdir : option string) (steps max_restarts : Z) (init_state : TrainState)
    (d : gmap string TrainState) (w : world TrainState) :
  train psi_log fit_wf opt workdir steps max_restarts init_state d
  <> Raised w NaNError.
Proof.
  unfold train. cbv zeta. apply quiet_bind.
  - destruct (truthy workdir); [|apply quiet_ret].
    intros s s'. unfold CheckpointStore.__init__.
    cbv [mbind M_bind bind modify mret M_ret ret]. done.
  - intros _. apply quiet_finally.
    + apply quiet_bind; [apply quiet_for_each, quiet_restart_body|].
      intros [l|v]; apply quiet_ret.
    + destruct (truthy workdir); [apply quiet_on_chkpts, quiet_close|apply quiet_ret].
Qed.

(** Every positive [max_restarts] behaves like [max_restarts = 1]. *)
Lemma train_restarts_irrelevant (opt : option Optimizer)
    (workdir : option string) (steps max_restarts : Z) (init_state : TrainState)
    (d : gmap string TrainState) :
  0 < max_restarts ->
  train psi_log fit_wf opt workdir steps max_restarts init_state d
  = train psi_log fit_wf opt workdir steps 1 init_state d.
Proof.
  intros Hm. unfold train. cbv zeta.
  assert (Hr : exists rest, range 0 max_restarts = 0 :: rest).
  { unfold range. rewrite Z.sub_0_r.
    destruct (Z.to_nat max_restarts) as [|k] eqn:Hk; [lia|]. cbn. by eexists. }
  destruct Hr as [rest ->]. change (range 0 1) with [0].
  cbv [mbind M_bind bind finally].
  destruct (if truthy workdir then _ else _) as [s1 []|s1 e]; [|done].
  by rewrite restart_loop_first.
Qed.

End TrainQuiet.

(** Claim C1 fails on the code.  For every input [train] ends without
    raising [NaNError]; and on the run in which the single permitted attempt
    ([max_restarts = 1]) ends in a NaN at training step 100, right after the
    checkpoint of step 100 was written, [train] returns the reloaded state
    to its caller as an ordinary result.  The same happens with the default
    [max_restarts = 3]. *)
Theorem train_returns_after_nan :
  (forall (TrainState Optimizer : Type)
          (psi_log : TrainState -> list xreal)
          (fit_wf : Z * Z -> TrainState -> list (fit_item TrainState))
          (opt : option Optimizer) (workdir : option string)
          (steps max_restarts : Z) (init_state : TrainState)
          (d : gmap string TrainState) (w : world TrainState),
      train psi_log fit_wf opt workdir steps max_restarts init_state d
      <> Raised w NaNError)
  /\ (exists w, demo_train 100 (Some "out") 200 1 = Done w (Some 99))
  /\ (exists w, demo_train 100 (Some "out") 200 3 = Done w (Some 99)).
Proof.
  split; [|split].
  - intros. apply train_never_raises_NaNError.
  - exists (state_of (demo_train 100 (Some "out") 200 1)).
    vm_compute; reflexivity.
  - exists (state_of (demo_train 100 (Some "out") 200 3)).
    vm_compute; reflexivity.
Qed.

(** Claim C2 fails on the code.  On the run with a NaN at training step
    100 (default [max_restarts = 3]) the state of the checkpoint of step 100
    is reloaded, but the reload is the last thing the loop does: [fit_wf] is
    called once, the steps 0 to 100 are the only iterations, and [train]
    returns the reloaded state; no training step with index 100 follows. *)
Theorem train_no_step_after_rollback :
  exists w,
    demo_train 100 (Some "out") 200 3 = Done w (Some 99)
    /\ trace w = [CallFit (0, 200)] ++ map Step (range 0 101) ++ [Rollback 100]
    /\ disk w !! "out/train/chkpt-100.pt" = Some 99.
Proof.
  exists (state_of (demo_train 100 (Some "out") 200 3)).
  split_and!; vm_compute; reflexivity.
Qed.

Section TrainFacts.
Context {TrainState Optimizer : Type}.
Variable psi_log : TrainState -> list xreal.
Variable fit_wf : Z * Z -> TrainState -> list (fit_item TrainState).

Lemma range_pos (n : Z) : 0 < n -> exists rest, range 0 n = 0 :: rest.
Proof.
  intros Hn. unfold range. rewrite Z.sub_0_r.
  destruct (Z.to_nat n) as [|k] eqn:Hk; [lia|].
  cbn. eexists. reflexivity.
Qed.

Lemma close_done (w : gmap string TrainState * CheckpointStore.t TrainState) :
  exists w', CheckpointStore.close w = Done w' tt.
Proof.
  destruct w as [d self]. unfold CheckpointStore.close, CheckpointStore.dump.
  msimpl. destruct (CheckpointStore.buffer self); eexists; reflexivity.
Qed.

Lemma for_each_cons {S X L A} (body : X -> L -> M S (ctl L A))
    (x : X) (xs : list X) (l : L) (s : S) :
  for_each body (x :: xs) l s
  = match body x l s with
    | Done s' (Continue l') => for_each body xs l' s'
    | Done s' (Break l') => Done s' (inl l')
    | Done s' (Return a) => Done s' (inr a)
    | Raised s' e => Raised s' e
    end.
Proof.
  cbn [for_each]. msimpl. destruct (body x l s) as [s' [l'|l'|a]|s' e]; done.
Qed.

Lemma fit_body_clean (workdir : option string) (mode : mode_t) (steps : Z)
    (it : fit_item TrainState) (l : locals TrainState) (w : world TrainState) :
  clean psi_log it ->
  fit_body psi_log workdir mode steps it l w
  = match (if truthy workdir then
             match mode with
             | train_mode =>
                 on_chkpts (CheckpointStore.update (it_loss it) (it_train_state it))
             | evaluate => ret tt
             end
           else ret tt) (stepped w (it_step it)) with
    | Done s' _ => Done s' (Continue (mk_locals (pbar l) (it_train_state it)))
    | Raised s' e => Raised s' e
    end.
Proof.
  intros Hit. unfold fit_body, log_event. msimpl. cbn [train_state].
  unfold clean in Hit. rewrite Hit. reflexivity.
Qed.

Lemma fit_body_nan (workdir : option string) (mode : mode_t) (steps : Z)
    (it : fit_item TrainState) (l : locals TrainState) (w : world TrainState) :
  any_isnan (psi_log (it_train_state it)) = true ->
  fit_body psi_log workdir mode steps it l w
  = match on_chkpts CheckpointStore.last (stepped w (it_step it)) with
    | Done s' (step, state) =>
        Done (mk_world (disk s') (chkpts s') (trace s' ++ [Rollback step]))
             (Break (mk_locals (step, steps) state))
    | Raised s' e => Raised s' e
    end.
Proof.
  intros Hit. unfold fit_body, log_event. msimpl. cbn [train_state].
  rewrite Hit. unfold stepped.
  destruct (on_chkpts _ _) as [s' [step state]|s' e]; reflexivity.
Qed.

(** Clean items leave the name [chkpts] unbound when [workdir] is falsy. *)
Lemma fit_prefix_unbound (workdir : option string) (mode : mode_t) (steps : Z)
    (pre rest : list (fit_item TrainState)) :
  truthy workdir = false -> Forall (clean psi_log) pre ->
  forall l w, chkpts w = None ->
  exists l' w',
    for_each (fit_body psi_log workdir mode steps) (pre ++ rest) l w
    = for_each (fit_body psi_log workdir mode steps) rest l' w'
    /\ chkpts w' = None.
Proof.
  intros Hwd. induction 1 as [|it pre Hit Hpre IH]; intros l w Hw.
  - exists l, w. done.
  - cbn [app]. rewrite for_each_cons, fit_body_clean by done.
    rewrite Hwd. msimpl. apply IH. done.
Qed.

(** Clean items keep the store without a checkpoint as long as the counter
    stays below the interval, or in evaluation mode. *)
Lemma fit_prefix_store (workdir : option string) (mode : mode_t) (steps : Z)
    (wd : string) (pre rest : list (fit_item TrainState)) :
  truthy workdir = true -> Forall (clean psi_log) pre ->
  forall l w self,
    chkpts w = Some self ->
    store_inv wd (disk w, self) ->
    0 <= CheckpointStore.size self ->
    CheckpointStore.chkpts self = [] ->
    mode = evaluate
    \/ CheckpointStore.step self + Z.of_nat (length pre)
       < CheckpointStore.min_interval self ->
  exists l' w' self',
    for_each (fit_body psi_log workdir mode steps) (pre ++ rest) l w
    = for_each (fit_body psi_log workdir mode steps) rest l' w'
    /\ chkpts w' = Some self'
    /\ CheckpointStore.chkpts self' = [].
Proof.
  intros Hwd. induction 1 as [|it pre Hit Hpre IH]; intros l w self Hw Hinv Hsz Hcs Hm.
  - exists l, w, self. done.
  - cbn [app]. rewrite for_each_cons, fit_body_clean by done.
    rewrite Hwd. destruct mode.
    + msimpl. eapply IH; cbn [stepped chkpts disk]; eauto.
    + destruct Hm as [?|Hm]; [done|].
      destruct (update_spec wd (disk w, self) (it_loss it) (it_train_state it) Hinv Hsz)
        as ([d' self'] & Hup & Hinv' & Hst' & _ & Hsz' & Hmi' & _ & Hskip & _).
      cbn [fst snd] in *.
      unfold on_chkpts, stepped. cbn [chkpts disk]. rewrite Hw, Hup.
      assert (Hg : gate self (CheckpointStore.step self + 1) (it_loss it) = false).
      { unfold gate. cbn [length] in Hm.
        destruct (Z.leb_spec (CheckpointStore.min_interval self)
                    (CheckpointStore.step self + 1)); [lia|done]. }
      destruct (Hskip Hg) as [Hd Hcs'].
      eapply IH; cbn [chkpts disk]; eauto.
      * lia.
      * congruence.
      * right. cbn [length] in Hm. lia.
Qed.

(** Claim C10.  When the first attempt of [train] meets a NaN
    log-amplitude, the access to [chkpts.last] raises instead of rolling
    back: [UnboundLocalError] when [workdir] is falsy (the store was never
    created), and [IndexError] when the store exists but has persisted
    nothing yet, which is the case in evaluation mode and before the
    hundredth training step. *)
Theorem nan_recovery_needs_checkpoint (opt : option Optimizer)
    (workdir : option string) (steps max_restarts : Z) (init_state : TrainState)
    (d : gmap string TrainState)
    (pre : list (fit_item TrainState)) (it : fit_item TrainState)
    (post : list (fit_item TrainState)) :
  0 < max_restarts ->
  fit_wf (0, steps) init_state = pre ++ it :: post ->
  Forall (clean psi_log) pre ->
  any_isnan (psi_log (it_train_state it)) = true ->
  (truthy workdir = false ->
   exists w, train psi_log fit_wf opt workdir steps max_restarts init_state d
             = Raised w UnboundLocalError)
  /\ (truthy workdir = true ->
      opt = None
      \/ Z.of_nat (length pre) < CheckpointStore.default_min_interval ->
      exists w, train psi_log fit_wf opt workdir steps max_restarts init_state d
                = Raised w IndexError).
Proof.
  intros Hmax Hfit Hpre Hnan.
  destruct (range_pos max_restarts Hmax) as [rs Hrs].
  split.
  - intros Hwd. unfold train, finally. rewrite Hwd, Hrs. msimpl.
    rewrite for_each_cons. unfold restart_body, log_event. msimpl.
    cbn [pbar train_state]. rewrite Hfit.
    edestruct (fit_prefix_unbound workdir
                 (match opt with None => evaluate | Some _ => train_mode end)
                 steps pre (it :: post) Hwd Hpre) as (l' & w' & -> & Hw');
      [reflexivity|].
    rewrite for_each_cons, fit_body_nan by done.
    unfold on_chkpts, stepped. cbn [chkpts].
    rewrite Hw'. unfold finally. msimpl. eexists. reflexivity.
  - intros Hwd Hcond. unfold train, finally. rewrite Hwd, Hrs.
    unfold CheckpointStore.__init__. msimpl.
    rewrite for_each_cons. unfold restart_body, log_event. msimpl.
    cbn [pbar train_state disk trace chkpts]. rewrite Hfit.
    match goal with |- context [CheckpointStore.mk ?wd _ _ _ [] 0 None] =>
      set (wdir := wd) end.
    edestruct (fit_prefix_store workdir
                 (match opt with None => evaluate | Some _ => train_mode end)
                 steps wdir pre (it :: post) Hwd Hpre)
      as (l' & w' & self' & -> & Hw' & Hcs').
    { cbn [chkpts]. reflexivity. }
    { cbn [disk]. unfold store_inv. cbn. split_and!; [done|constructor|constructor]. }
    { cbn. unfold CheckpointStore.default_size. lia. }
    { reflexivity. }
    { destruct Hcond as [->|Hlt]; [by left|right]. cbn. lia. }
    rewrite for_each_cons, fit_body_nan by done.
    unfold on_chkpts at 1. unfold stepped. cbn [chkpts disk].
    rewrite Hw'. unfold CheckpointStore.last. msimpl. rewrite Hcs'. cbn [list.last].
    unfold finally. unfold on_chkpts. cbn [chkpts disk].
    match goal with |- context [CheckpointStore.close ?x] =>
      destruct (close_done x) as ([d2 self2] & ->) end.
    eexists. reflexivity.
Qed.

End TrainFacts.

(** C10 on the test run with a NaN at step 50, without and with a
    [workdir]. *)
Lemma nan_recovery_needs_checkpoint_witness :
  (exists w, demo_train 50 None 200 3 = Raised w UnboundLocalError)
  /\ (exists w, demo_train 50 (Some "out") 200 3 = Raised w IndexError).
Proof.
  destruct (nan_recovery_needs_checkpoint (Optimizer := unit) demo_psi_log
              (demo_fit_wf 50) (Some tt) None 200 3 0 ∅
              (firstn 50 (demo_fit_wf 50 (0, 200) 0))
              (mk_item 50 (-1) (Fin 1))
              (skipn 51 (demo_fit_wf 50 (0, 200) 0))) as [H1 _].
  { lia. }
  { vm_compute. reflexivity. }
  { vm_compute. repeat constructor. }
  { vm_compute. reflexivity. }
  destruct (nan_recovery_needs_checkpoint (Optimizer := unit) demo_psi_log
              (demo_fit_wf 50) (Some tt) (Some "out") 200 3 0 ∅
              (firstn 50 (demo_fit_wf 50 (0, 200) 0))
              (mk_item 50 (-1) (Fin 1))
              (skipn 51 (demo_fit_wf 50 (0, 200) 0))) as [_ H2].
  { lia. }
  { vm_compute. reflexivity. }
  { vm_compute. repeat constructor. }
  { vm_compute. reflexivity. }
  split.
  - apply H1. reflexivity.
  - apply H2; [reflexivity|]. right. vm_compute. reflexivity.
Defined.

(** * Properties of [sampling.py] *)

Lemma range_length (lo hi : Z) : length (range lo hi) = Z.to_nat (hi - lo).
Proof. unfold range. by rewrite length_map, length_seq. Qed.

Lemma range_lookup (lo hi : Z) (k : nat) :
  Z.of_nat k < hi - lo -> range lo hi !! k = Some (lo + Z.of_nat k).
Proof.
  intros Hk. unfold range. rewrite list_lookup_fmap, lookup_seq_lt by lia. done.
Qed.

Lemma range_elem (lo hi j : Z) : j ∈ range lo hi <-> lo <= j < hi.
Proof.
  unfold range. rewrite list_elem_of_fmap. split.
  - intros (i & -> & Hi). apply elem_of_seq in Hi. lia.
  - intros Hj. exists (Z.to_nat (j - lo)). split; [lia|]. apply elem_of_seq. lia.
Qed.

Lemma range_nil (lo hi : Z) : hi <= lo -> range lo hi = [].
Proof. intros H. unfold range. replace (Z.to_nat (hi - lo)) with 0%nat by lia. done. Qed.

Lemma range_shift (lo hi : Z) :
  range lo hi = map (fun m => lo + m) (range 0 (hi - lo)).
Proof.
  unfold range. rewrite map_map, Z.sub_0_r. apply map_ext. intros; lia.
Qed.

Lemma range_app (lo mid hi : Z) :
  lo <= mid <= hi -> range lo hi = range lo mid ++ range mid hi.
Proof.
  intros H. unfold range.
  replace (Z.to_nat (hi - lo)) with (Z.to_nat (mid - lo) + Z.to_nat (hi - mid))%nat by lia.
  rewrite seq_app, map_app. f_equal. cbn [Nat.add].
  assert (E : forall a b, seq a b = map (Nat.add a) (seq 0 b)).
  { intros a b. change (map ?f ?l) with (f <$> l).
    rewrite fmap_add_seq. f_equal. lia. }
  rewrite E, map_map. apply map_ext. intros. lia.
Qed.

Lemma range_NoDup (lo hi : Z) : NoDup (range lo hi).
Proof.
  unfold range. apply NoDup_fmap_2; [|apply NoDup_seq]. intros ???. lia.
Qed.

Lemma getitem_arange (n : Z) (idx : list Z) :
  1 <= n -> idx <> [] -> Forall (fun i => 0 <= i) idx ->
  getitem (range 0 n) idx = Ok (map (fun i => Z.min i (n - 1)) idx).
Proof.
  intros Hn Hne Hpos. unfold getitem. destruct idx as [|i0 idx']; [done|].
  f_equal. apply map_ext_in. intros i Hi.
  rewrite Forall_forall in Hpos.
  assert (0 <= i) by (apply Hpos; by apply list_elem_of_In).
  rewrite range_length, Z.sub_0_r. unfold clamp_index.
  destruct (Z.ltb_spec i 0); [lia|].
  rewrite Z2Nat.id by lia.
  apply nth_lookup_Some with (d := 0) .
  rewrite range_lookup by lia. f_equal. lia.
Qed.

Lemma batch_length (n bs s : Z) :
  1 <= bs -> 0 <= s < n -> Z.of_nat (length (batch n bs s)) = bs.
Proof.
  intros Hbs Hs. unfold batch. rewrite length_app, range_length.
  destruct (Z.ltb_spec (n - s) bs).
  - rewrite length_map, range_length. lia.
  - cbn [length]. lia.
Qed.

Lemma batch_cyclic (n bs s : Z) :
  1 <= bs <= n -> 0 <= s < n ->
  batch n bs s = map (fun m => (s + m) `mod` n) (range 0 bs).
Proof.
  intros Hbs Hs. unfold batch. destruct (Z.ltb_spec (n - s) bs) as [Hw|Hw].
  - rewrite Z.min_r by lia.
    rewrite (range_app 0 (n - s) bs), map_app by lia. f_equal.
    + rewrite (range_shift s n). apply map_ext_in. intros m Hm.
      apply list_elem_of_In, range_elem in Hm. rewrite Z.mod_small; lia.
    + rewrite (range_shift (n - s) bs), map_map. apply map_ext_in. intros m Hm.
      apply list_elem_of_In, range_elem in Hm.
      replace (s + (n - s + m)) with (m + 1 * n) by lia.
      rewrite Z.mod_add, Z.mod_small; lia.
  - rewrite Z.min_l, app_nil_r by lia.
    rewrite (range_shift s (s + bs)). replace (s + bs - s) with bs by lia.
    apply map_ext_in. intros m Hm.
    apply list_elem_of_In, range_elem in Hm. rewrite Z.mod_small; lia.
Qed.

Lemma batch_covers (n bs s j : Z) :
  n <= bs -> 0 <= s < n -> 0 <= j < n -> j ∈ batch n bs s.
Proof.
  intros Hbs Hs Hj. unfold batch. rewrite Z.min_r by lia.
  apply elem_of_app. destruct (Z.lt_ge_cases j s) as [Hlt|Hge].
  - right. destruct (Z.ltb_spec (n - s) bs); [|lia].
    apply list_elem_of_fmap. exists j. split; [lia|]. apply range_elem. lia.
  - left. apply range_elem. lia.
Qed.

Lemma ceil_div_ge (n b : Z) : 1 <= b -> 0 <= n -> n <= ceil_div n b * b.
Proof.
  intros Hb Hn. unfold ceil_div.
  pose proof (Z.div_mod (n + b - 1) b ltac:(lia)).
  pose proof (Z.mod_pos_bound (n + b - 1) b ltac:(lia)). nia.
Qed.

Lemma ceil_div_exact (n b : Z) :
  1 <= b -> 0 <= n -> n `mod` b = 0 -> ceil_div n b * b = n.
Proof.
  intros Hb Hn Hm. unfold ceil_div.
  pose proof (Z.div_mod n b ltac:(lia)) as Hd. rewrite Hm in Hd.
  replace (n + b - 1) with ((b - 1) + (n / b) * b) by lia.
  rewrite Z.div_add, Z.div_small by lia. lia.
Qed.

Lemma ceil_div_one (n b : Z) : 1 <= n <= b -> ceil_div n b = 1.
Proof.
  intros H. unfold ceil_div.
  replace (n + b - 1) with ((n - 1) + 1 * b) by lia.
  rewrite Z.div_add, Z.div_small by lia. lia.
Qed.

Section IdxSamplerFacts.
Import MoleculeIdxSampler.
Context {Devices : Type}.
Variable random_permutation : key -> list Z -> list Z.
Variable replicate_on_devices : list Z -> Devices.

Lemma sample_spec (n bs : Z) (self : MoleculeIdxSampler.t) :
  1 <= n -> 1 <= bs -> steady n bs self ->
  sample random_permutation replicate_on_devices self
  = Done (set_state self ((state self + bs) `mod` n))
         (replicate_on_devices (batch n bs (state self))).
Proof.
  intros Hn Hbs (Hsh & Hnm & Hb & Hp & Hs).
  destruct self as [k nm b s sh p]. cbn in Hsh, Hnm, Hb, Hp, Hs. subst.
  unfold sample, new_permutation. msimpl. cbn [state batch_size n_mols permutation shuffle].
  rewrite getitem_arange; [|done| |].
  2:{ intros E. apply (f_equal length) in E. rewrite range_length in E. cbn in E. lia. }
  2:{ apply Forall_forall. intros i Hi. apply range_elem in Hi. lia. }
  unfold lift_result at 1. rewrite range_length.
  assert (Hfirst : map (fun i => Z.min i (n - 1)) (range s (Z.min (s + bs) n))
                   = range s (Z.min (s + bs) n)).
  { rewrite <- (map_id (range s _)) at 2. apply map_ext_in. intros i Hi.
    apply list_elem_of_In, range_elem in Hi. lia. }
  rewrite Hfirst.
  destruct (Z.ltb_spec (Z.of_nat (Z.to_nat (Z.min (s + bs) n - s))) bs) as [Hw|Hw].
  - unfold set_permutation. cbn [state batch_size n_mols permutation shuffle rng].
    rewrite getitem_arange; [|done| |].
    2:{ intros E. apply (f_equal length) in E. rewrite range_length in E. cbn in E. lia. }
    2:{ apply Forall_forall. intros i Hi. apply range_elem in Hi. lia. }
    unfold lift_result. cbn [state batch_size n_mols permutation shuffle rng].
    destruct (Z.eqb_spec n 0); [lia|].
    unfold set_state. cbn [state batch_size n_mols permutation shuffle rng].
    f_equal. f_equal. unfold batch. cbn [concat]. rewrite app_nil_r. f_equal.
    destruct (Z.ltb_spec (n - s) bs); [|lia]. f_equal. f_equal. lia.
  - cbn [state batch_size n_mols permutation shuffle rng].
    destruct (Z.eqb_spec n 0); [lia|].
    unfold set_state. cbn [state batch_size n_mols permutation shuffle rng].
    f_equal. f_equal. unfold batch. cbn [concat]. rewrite app_nil_r.
    destruct (Z.ltb_spec (n - s) bs); [lia|]. by rewrite app_nil_r.
Qed.

Lemma steady_step (n bs : Z) (self : MoleculeIdxSampler.t) :
  1 <= n -> steady n bs self ->
  steady n bs (set_state self ((state self + bs) `mod` n)).
Proof.
  intros Hn (Hsh & Hnm & Hb & Hp & Hs). unfold steady.
  destruct self; cbn in *. split_and!; try done; apply Z.mod_pos_bound; lia.
Qed.

Lemma init_steady (k : key) (n bs : Z) :
  1 <= n ->
  exists s0, __init__ random_permutation k n bs no_shuffle = Done s0 tt
             /\ steady n bs s0 /\ state s0 = 0.
Proof.
  intros Hn. eexists. split; [reflexivity|]. unfold steady. cbn.
  split_and!; (done || lia).
Qed.

Lemma samples_spec (n bs : Z) (k : nat) : forall self,
  1 <= n -> 1 <= bs -> steady n bs self ->
  exists self' vs,
    samples random_permutation replicate_on_devices k self
    = Done self' (map replicate_on_devices vs)
    /\ steady n bs self'
    /\ length vs = k
    /\ Forall (fun v => Z.of_nat (length v) = bs) vs
    /\ (forall v, v ∈ vs -> exists s, 0 <= s < n /\ v = batch n bs s)
    /\ (k <> O -> exists vs', vs = batch n bs (state self) :: vs')
    /\ (bs <= n ->
        concat vs = map (fun m => (state self + m) `mod` n)
                        (range 0 (Z.of_nat k * bs))).
Proof.
  induction k as [|k IH]; intros self Hn Hbs Hst.
  - exists self, []. cbn. split_and!; try done.
    intros v Hv. by apply elem_of_nil in Hv.
  - cbn [samples]. msimpl. rewrite (sample_spec n bs) by done.
    destruct (IH _ Hn Hbs (steady_step n bs self Hn Hst))
      as (self' & vs & -> & Hst' & Hlen & Hall & Hform & _ & Hcat).
    exists self', (batch n bs (state self) :: vs).
    assert (Hs : 0 <= state self < n) by (destruct Hst as (_ & _ & _ & _ & ?); done).
    split_and!; try done.
    + cbn. by rewrite Hlen.
    + constructor; [|done]. by apply batch_length.
    + intros v Hv. apply elem_of_cons in Hv as [->|Hv]; [|by apply Hform].
      by exists (state self).
    + intros _. by eexists.
    + intros Hle. cbn [concat]. rewrite Hcat by done.
      rewrite batch_cyclic by lia.
      replace (Z.of_nat (S k) * bs) with (bs + Z.of_nat k * bs) by lia.
      rewrite (range_app 0 bs (bs + Z.of_nat k * bs)), map_app by nia.
      f_equal.
      rewrite (range_shift bs (bs + Z.of_nat k * bs)), map_map.
      replace (bs + Z.of_nat k * bs - bs) with (Z.of_nat k * bs) by lia.
      apply map_ext. intros m.
      replace (state (set_state self ((state self + bs) `mod` n)))
        with ((state self + bs) `mod` n) by by destruct self.
      rewrite Zplus_mod_idemp_l. f_equal. lia.
Qed.

(** Claim C8, as amended.  Without shuffling, for [n_mols >= 1] and
    [batch_size >= 1], after any number of earlier calls the next
    [ceil(n_mols / batch_size)] calls of [sample] return normally, each
    returns exactly [batch_size] indices, and together they visit every
    geometry index at least once; they visit every index exactly once when
    [batch_size] divides [n_mols]. *)
Theorem idx_sampler_cycle (k0 : key) (n bs : Z) (before : nat) :
  1 <= n -> 1 <= bs ->
  exists s0 s1 s2 pre vs,
    __init__ random_permutation k0 n bs no_shuffle = Done s0 tt
    /\ samples random_permutation replicate_on_devices before s0 = Done s1 pre
    /\ samples random_permutation replicate_on_devices
         (Z.to_nat (ceil_div n bs)) s1 = Done s2 (map replicate_on_devices vs)
    /\ Forall (fun v => Z.of_nat (length v) = bs) vs
    /\ (forall j, 0 <= j < n -> j ∈ concat vs)
    /\ (n `mod` bs = 0 ->
        forall j, 0 <= j < n -> count_occ Z.eq_dec (concat vs) j = 1%nat).
Proof.
  intros Hn Hbs.
  destruct (init_steady k0 n bs Hn) as (s0 & Hinit & Hst0 & _).
  destruct (samples_spec n bs before s0 Hn Hbs Hst0)
    as (s1 & pre & Hpre & Hst1 & _).
  destruct (samples_spec n bs (Z.to_nat (ceil_div n bs)) s1 Hn Hbs Hst1)
    as (s2 & vs & Hrun & _ & Hlen & Hall & _ & Hhd & Hcat).
  exists s0, s1, s2, (map replicate_on_devices pre), vs.
  assert (Hs1 : 0 <= state s1 < n) by (destruct Hst1 as (_ & _ & _ & _ & ?); done).
  pose proof (ceil_div_ge n bs Hbs ltac:(lia)) as Hge.
  assert (Hk : 1 <= ceil_div n bs) by nia.
  split_and!; try done.
  - intros j Hj. destruct (Z.le_gt_cases bs n) as [Hle|Hgt].
    + rewrite Hcat by done. apply list_elem_of_fmap.
      exists ((j - state s1) `mod` n).
      pose proof (Z.mod_pos_bound (j - state s1) n ltac:(lia)).
      split.
      * rewrite Zplus_mod_idemp_r. replace (state s1 + (j - state s1)) with j by lia.
        rewrite Z.mod_small; lia.
      * apply range_elem. lia.
    + destruct Hhd as [vs' ->]; [lia|]. cbn [concat]. apply elem_of_app. left.
      apply batch_covers; lia.
  - intros Hdiv j Hj.
    assert (Hle : bs <= n).
    { destruct (Z.le_gt_cases bs n); [done|]. rewrite Z.mod_small in Hdiv; lia. }
    rewrite Hcat by done. rewrite Z2Nat.id, ceil_div_exact by lia.
    apply NoDup_count_occ'.
    + apply NoDup_ListNoDup, NoDup_fmap_2_strong; [|apply range_NoDup].
      intros a b Ha Hb Hab. apply range_elem in Ha, Hb.
      assert (Hd : (a - b) `mod` n = 0).
      { rewrite Zminus_mod.
        assert (Ha' : a `mod` n = ((state s1 + a) - state s1) `mod` n) by (f_equal; lia).
        assert (Hb' : b `mod` n = ((state s1 + b) - state s1) `mod` n) by (f_equal; lia).
        rewrite Ha', Hb', (Zminus_mod (state s1 + a)), (Zminus_mod (state s1 + b)), Hab.
        rewrite Z.sub_diag. apply Z.mod_0_l. lia. }
      apply Z.mod_divide in Hd; [|lia]. destruct Hd as [q Hq].
      assert (q = 0) by nia. lia.
    + apply list_elem_of_In, list_elem_of_fmap.
      exists ((j - state s1) `mod` n).
      pose proof (Z.mod_pos_bound (j - state s1) n ltac:(lia)).
      split.
      * rewrite Zplus_mod_idemp_r. replace (state s1 + (j - state s1)) with j by lia.
        rewrite Z.mod_small; lia.
      * apply range_elem. lia.
Qed.

End IdxSamplerFacts.

(** Claim C8 as stated fails when [batch_size] does not divide [n_mols]:
    with 5 geometries and batches of 2, the first cycle of 3 calls returns
    [0 1], [2 3], [4 0] and visits index 0 twice. *)
Lemma idx_sampler_revisits :
  exists s0 s1,
    MoleculeIdxSampler.__init__ (fun _ p => p) (PRNGKey 0) 5 2
      MoleculeIdxSampler.no_shuffle = Done s0 tt
    /\ MoleculeIdxSampler.samples (fun _ p => p) (fun v => v)
         (Z.to_nat (ceil_div 5 2)) s0 = Done s1 [[0; 1]; [2; 3]; [4; 0]]
    /\ count_occ Z.eq_dec (concat [[0; 1]; [2; 3]; [4; 0]]) 0 = 2%nat.
Proof.
  eexists _, _. split_and!; vm_compute; reflexivity.
Qed.

(** The amended C8 for 6 geometries in batches of 3, after one call. *)
Lemma idx_sampler_cycle_witness :
  exists s0 s1 s2 pre vs,
    MoleculeIdxSampler.__init__ (fun _ p => p) (PRNGKey 0) 6 3
      MoleculeIdxSampler.no_shuffle = Done s0 tt
    /\ MoleculeIdxSampler.samples (fun _ p => p) (fun v => v) 1 s0 = Done s1 pre
    /\ MoleculeIdxSampler.samples (fun _ p => p) (fun v => v)
         (Z.to_nat (ceil_div 6 3)) s1 = Done s2 (map (fun v => v) vs)
    /\ (forall j, 0 <= j < 6 -> count_occ Z.eq_dec (concat vs) j = 1%nat).
Proof.
  destruct (idx_sampler_cycle (fun _ p => p) (fun v : list Z => v) (PRNGKey 0) 6 3 1)
    as (s0 & s1 & s2 & pre & vs & H0 & H1 & H2 & _ & _ & H5); [lia | lia |].
  exists s0, s1, s2, pre, vs. split_and!; try done.
  apply H5. reflexivity.
Defined.

Tactic Notation "rsimpl" :=
  cbv [mbind mret result_bind result_ret rbind]; cbn [fst snd].
Tactic Notation "rsimpl" "in" hyp(H) :=
  cbv [mbind mret result_bind result_ret rbind] in H; cbn [fst snd] in H.

Section SamplerFacts.
Context {Params : Type}.
Variable mcmc_step :
  obj -> key -> State -> Params -> list vec3 -> result (State * Stats).
Variable mover_init :
  obj -> key -> Params -> nat -> list vec3 -> result State.
Variable multinomial_resampling : key -> list xreal -> list nat.

Local Abbreviation MS := (MetropolisSampler_sample mcmc_step).

Lemma scan_length {C X Y} (f : C -> X -> result (C * Y)) (xs : list X) :
  forall init c ys, scan f init xs = Ok (c, ys) -> length ys = length xs.
Proof.
  induction xs as [|x xs IH]; intros init c ys H; cbn in H.
  - by injection H as <- <-.
  - rsimpl in H. destruct (f init x) as [[c1 y]|e]; [|done].
    destruct (scan f c1 xs) as [[c2 ys']|e] eqn:Hs; [|done].
    injection H as <- <-. cbn. f_equal. by eapply IH.
Qed.

Lemma phys_conf_resolved (self : obj) (R : list vec3) (r r' : list (list vec3))
    (c : PhysicalConfiguration) :
  phys_conf self R r = Ok c ->
  phys_conf self R r' = Ok (mk_conf (repeat R (length r')) r' (repeat 0 (length r'))).
Proof.
  unfold phys_conf. rsimpl. by destruct (resolve (mro self) a_phys_conf).
Qed.

Lemma MS_conf (self : obj) k s p R s' c st :
  MS self k s p R = Ok (s', c, st) -> phys_conf self R (st_r s') = Ok c.
Proof.
  unfold MetropolisSampler_sample. rsimpl.
  destruct (mcmc_step self k s p R) as [[s1 st1]|e]; [|done].
  destruct (phys_conf self R (st_r s1)) as [c1|e] eqn:Hc; [|done].
  intros H. injection H as <- <- <-. done.
Qed.

(** The scan of [DecorrSampler.sample] against the iteration of the
    specification. *)
Lemma scan_iterate (self : obj) (params : Params) (R : list vec3)
    (keys : list key) : forall state last,
  iterate_mover mcmc_step self keys state params R last
  = match scan (fun state rng =>
                  '(state', _, stats) ← MS self rng state params R;
                  Ok (state', stats)) state keys with
    | Raise e => Raise e
    | Ok (sN, ys) =>
        match list.last ys with
        | None => Ok (sN, last)
        | Some st => conf ← phys_conf self R (st_r sN); Ok (sN, Some (conf, st))
        end
    end.
Proof.
  induction keys as [|k keys IH]; intros state last; [done|].
  cbn [iterate_mover scan]. rsimpl.
  destruct (MS self k state params R) as [[[s' c] st]|e] eqn:Hms; [|done].
  rewrite IH.
  destruct (scan _ s' keys) as [[sN ys]|e] eqn:Hscan; [|done].
  destruct ys as [|y ys'].
  - apply scan_length in Hscan as Hlen. destruct keys; [|done].
    cbn in Hscan. injection Hscan as <-. cbn [list.last].
    rsimpl. by rewrite (MS_conf _ _ _ _ _ _ _ _ Hms).
  - rewrite last_cons_cons.
    destruct (list.last (y :: ys')) eqn:E; [by rsimpl|].
    by apply last_None in E.
Qed.



Lemma resolve_phys_conf (m : list class) :
  In MetropolisSampler m -> resolve m a_phys_conf = Ok MetropolisSampler.
Proof.
  unfold resolve. induction m as [|c m IH]; [done|].
  intros [->|Hin]; [done|]. cbn [List.find].
  destruct c; cbn; try done; by apply IH.
Qed.

Lemma resolve_WALKER_STATE (self : obj) :
  In MetropolisSampler (mro self) ->
  WALKER_STATE self = Ok ["r"; "psi"; "age"]
  \/ WALKER_STATE self = Ok ["r"; "psi"; "age"; "force"].
Proof.
  unfold WALKER_STATE, resolve. induction (mro self) as [|c m IH]; [done|].
  intros [->|Hin]; [by left|]. cbn [List.find].
  destruct c; cbn; try (by apply IH); (by left) || (by right).
Qed.

Lemma xsum_repeat (c : R) (n : nat) : forall a,
  fold_left xadd (repeat (Fin c) n) (Fin a) = Fin (a + INR n * c)%R.
Proof.
  induction n as [|n IH]; intros a.
  - cbn. f_equal. lra.
  - cbn [repeat fold_left xadd]. rewrite IH, S_INR. f_equal. lra.
Qed.

(** The effective sample size of uniform weights is the number of
    walkers. *)
Lemma ess_zeros (lw : list xreal) :
  lw <> [] -> ess_of (map (fun _ => Fin 0) lw) = Fin (INR (length lw)).
Proof.
  intros Hne. unfold ess_of. rewrite !map_map. cbn [xexp xsqr xmul].
  rewrite !map_const. unfold xsum. rewrite !xsum_repeat.
  rewrite exp_0. cbn [xsqr xmul xdiv].
  assert (Hn : (0 < INR (length lw))%R).
  { apply lt_0_INR. destruct lw; [done|cbn; lia]. }
  unfold Rzero. destruct (Req_dec_T _ 0) as [E|_]; [lra|].
  f_equal. field. lra.
Qed.


End SamplerFacts.





Local Open Scope R_scope.

Lemma xadd_fin (a b : R) : xadd (Fin a) (Fin b) = Fin (a + b).
Proof. done. Qed.

Lemma xmul_fin (a b : R) : xmul (Fin a) (Fin b) = Fin (a * b).
Proof. done. Qed.

Ltac xfin := repeat (rewrite xmul_fin || rewrite xadd_fin).

Lemma xdiv_fin (a b : R) : b <> 0 -> xdiv (Fin a) (Fin b) = Fin (a / b).
Proof. intros Hb. cbn. unfold Rzero. by destruct (Req_dec_T b 0). Qed.

Lemma xsqrt_fin (a : R) : 0 <= a -> xsqrt (Fin a) = Fin (sqrt a).
Proof. intros Ha. cbn. unfold Rneg. destruct (Rlt_dec a 0); [lra|done]. Qed.

Lemma xmax_fin (a b : R) : xmax (Fin a) (Fin b) = Fin (Rmax a b).
Proof.
  cbn. unfold Rltb, Rmax.
  destruct (Rlt_dec a b), (Rle_dec a b); first [done | lra | f_equal; lra].
Qed.

Lemma xmin_fin (a b : R) : xmin (Fin a) (Fin b) = Fin (Rmin a b).
Proof.
  cbn. unfold Rltb, Rmin.
  destruct (Rlt_dec b a), (Rle_dec a b); first [done | lra | f_equal; lra].
Qed.

Lemma sq_sum_nonneg (x y z : R) : 0 <= x * x + y * y + z * z.
Proof.
  pose proof (Rle_0_sqr x) as H1. pose proof (Rle_0_sqr y) as H2.
  pose proof (Rle_0_sqr z) as H3. unfold Rsqr in H1, H2, H3. lra.
Qed.

Lemma Rnorm_nonneg (x y z : R) : 0 <= Rnorm x y z.
Proof. apply sqrt_pos. Qed.

Lemma Rnorm_scale (c x y z : R) :
  Rnorm (c * x) (c * y) (c * z) = Rabs c * Rnorm x y z.
Proof.
  unfold Rnorm.
  replace (c * x * (c * x) + c * y * (c * y) + c * z * (c * z))
    with (Rsqr c * (x * x + y * y + z * z)) by (unfold Rsqr; ring).
  rewrite sqrt_mult; [|apply Rle_0_sqr|apply sq_sum_nonneg].
  by rewrite sqrt_Rsqr_abs.
Qed.

(** Cauchy-Schwarz in three dimensions *)
Lemma dot_le_norms (fx fy fz zx zy zz : R) :
  Rabs (fx * zx + fy * zy + fz * zz) <= Rnorm fx fy fz * Rnorm zx zy zz.
Proof.
  unfold Rnorm. rewrite <- sqrt_mult by apply sq_sum_nonneg.
  rewrite <- sqrt_Rsqr_abs. apply sqrt_le_1_alt. unfold Rsqr.
  set (X := (fx * zy - fy * zx) * (fx * zy - fy * zx)
            + (fx * zz - fz * zx) * (fx * zz - fz * zx)
            + (fy * zz - fz * zy) * (fy * zz - fz * zy)).
  assert (H : 0 <= X).
  { pose proof (Rle_0_sqr (fx * zy - fy * zx)) as H1.
    pose proof (Rle_0_sqr (fx * zz - fz * zx)) as H2.
    pose proof (Rle_0_sqr (fy * zz - fz * zy)) as H3.
    unfold Rsqr in H1, H2, H3. unfold X. lra. }
  replace ((fx * fx + fy * fy + fz * fz) * (zx * zx + zy * zy + zz * zz))
    with ((fx * zx + fy * zy + fz * zz) * (fx * zx + fy * zy + fz * zz) + X)
    by (unfold X; ring).
  lra.
Qed.

Section CleanForceFacts.
Variable eps : R.
Hypothesis eps_pos : 0 < eps.

(** The crossover parameter of a particle away from its nucleus is a
    non-negative real number. *)
Lemma crossover_fin (fx fy fz zx zy zz Zc : R) :
  0 < zx * zx + zy * zy + zz * zz ->
  exists a,
    crossover_parameter eps (Rvec zx zy zz, Fin (zx * zx + zy * zy + zz * zz))
      (Rvec fx fy fz) (Fin Zc) = Fin a
    /\ 0 <= a.
Proof.
  intros Hz. unfold crossover_parameter, Rvec, vnorm, clip_min.
  cbn [vmul vsum xmul xadd xsqr].
  rewrite !xsqrt_fin by apply sq_sum_nonneg. rewrite xmax_fin.
  fold (Rnorm zx zy zz). fold (Rnorm fx fy fz).
  set (zn := Rnorm zx zy zz). set (fc := Rmax (Rnorm fx fy fz) eps).
  assert (Hzn : 0 < zn).
  { unfold zn, Rnorm. apply sqrt_lt_R0. done. }
  assert (Hfc : 0 < fc).
  { unfold fc. pose proof (Rmax_r (Rnorm fx fy fz) eps). lra. }
  assert (Hfn : Rnorm fx fy fz <= fc) by apply Rmax_l.
  cbn [vdiv]. rewrite !xdiv_fin by lra.
  cbn [vmul vsum xmul xadd].
  set (Z2z2 := Zc * Zc * (zx * zx + zy * zy + zz * zz)).
  assert (HZ : 0 <= Z2z2) by (unfold Z2z2; nra).
  rewrite !xdiv_fin by lra. cbn [xadd].
  eexists. split; [reflexivity|].
  set (c := fx / fc * (zx / zn) + fy / fc * (zy / zn) + fz / fc * (zz / zn)).
  assert (Hc : -1 <= c).
  { replace c with ((fx * zx + fy * zy + fz * zz) / (fc * zn))
      by (unfold c; field; lra).
    pose proof (dot_le_norms fx fy fz zx zy zz) as Hcs. fold zn in Hcs.
    pose proof (Rabs_def2 (fx * zx + fy * zy + fz * zz)
                  (Rnorm fx fy fz * zn + 1)) as Hab.
    assert (Hlow : - (fc * zn) <= fx * zx + fy * zy + fz * zz).
    { assert (Rnorm fx fy fz * zn <= fc * zn) by nra.
      pose proof (Rle_abs (- (fx * zx + fy * zy + fz * zz))) as H1.
      rewrite Rabs_Ropp in H1. lra. }
    apply Rle_trans with (- (fc * zn) / (fc * zn)).
    - right. field. lra.
    - apply Rmult_le_compat_r; [|done].
      left. apply Rinv_0_lt_compat. nra. }
  assert (0 <= Z2z2 / (10 * (4 + Z2z2))).
  { unfold Rdiv. apply Rmult_le_pos; [lra|].
    left. apply Rinv_0_lt_compat. lra. }
  lra.
Qed.

(** One particle away from its nearest nucleus: the stabilised force is
    finite and its drift stays within the distance to that nucleus. *)
Lemma clean_force_at_bound (t fx fy fz zx zy zz Zc : R) :
  0 < t -> 0 < zx * zx + zy * zy + zz * zz ->
  exists ox oy oz,
    clean_force_at eps (Fin t) (Fin Zc) (Rvec fx fy fz)
      (Rvec zx zy zz, Fin (zx * zx + zy * zy + zz * zz)) = Rvec ox oy oz
    /\ t * Rnorm ox oy oz <= Rnorm zx zy zz.
Proof.
  intros Ht Hz. unfold clean_force_at.
  destruct (crossover_fin fx fy fz zx zy zz Zc Hz) as (a & -> & Ha).
  cbv zeta. unfold Rvec, vnorm, clip_min. cbn [vmul vsum vscale snd].
  xfin.
  set (f2 := fx * fx + fy * fy + fz * fz).
  assert (Hf2 : 0 <= f2) by apply sq_sum_nonneg.
  assert (Hav : 0 <= a * f2 * t).
  { apply Rmult_le_pos; [apply Rmult_le_pos|]; lra. }
  rewrite (xsqrt_fin (1 + 2 * (a * f2 * t))) by lra.
  set (s := sqrt (1 + 2 * (a * f2 * t))).
  assert (Hs : 0 <= s) by apply sqrt_pos.
  xfin. rewrite (xdiv_fin 2 (s + 1)) by lra.
  set (factor := 2 / (s + 1)).
  xfin.
  rewrite (xsqrt_fin (factor * fx * (factor * fx) + factor * fy * (factor * fy)
                      + factor * fz * (factor * fz))) by apply sq_sum_nonneg.
  fold (Rnorm (factor * fx) (factor * fy) (factor * fz)).
  set (n' := Rnorm (factor * fx) (factor * fy) (factor * fz)).
  assert (Hn' : 0 <= n') by apply Rnorm_nonneg.
  rewrite xmax_fin. xfin.
  assert (Hm : 0 < Rmax n' eps).
  { pose proof (Rmax_r n' eps). lra. }
  assert (Hm' : n' <= Rmax n' eps) by apply Rmax_l.
  rewrite xsqrt_fin by lra.
  fold (Rnorm zx zy zz). set (d := Rnorm zx zy zz).
  assert (Hd : 0 <= d) by apply Rnorm_nonneg.
  assert (Htm : 0 < t * Rmax n' eps) by (apply Rmult_lt_0_compat; lra).
  rewrite xdiv_fin by lra. rewrite xmin_fin. xfin.
  set (q := d / (t * Rmax n' eps)).
  assert (Hq : 0 <= q).
  { unfold q, Rdiv. apply Rmult_le_pos; [done|].
    left. by apply Rinv_0_lt_compat. }
  set (nf := Rmin 1 q).
  assert (Hnf : 0 <= nf) by (unfold nf; apply Rmin_glb; lra).
  assert (Hnfq : nf <= q) by apply Rmin_r.
  exists (nf * (factor * fx)), (nf * (factor * fy)), (nf * (factor * fz)).
  split; [reflexivity|].
  rewrite Rnorm_scale, (Rabs_right nf) by lra. fold n'.
  apply Rle_trans with (t * (q * Rmax n' eps)).
  - apply Rmult_le_compat_l; [lra|].
    apply Rmult_le_compat; lra.
  - right. unfold q. field. split; lra.
Qed.

End CleanForceFacts.

Lemma argmin_from_spec (all : list R) (ds : list R) :
  forall bi b i,
    drop i all = ds -> all !! bi = Some b ->
    (forall k x, (k < i)%nat -> all !! k = Some x -> b <= x) ->
    exists v, all !! argmin_from bi (Fin b) i (map Fin ds) = Some v
              /\ forall x, x ∈ all -> v <= x.
Proof.
  induction ds as [|d ds IH]; intros bi b i Hdrop Hb Hmin.
  - exists b. split; [done|]. intros x Hx.
    apply list_elem_of_lookup in Hx as [k Hk].
    apply (Hmin k); [|done].
    apply drop_nil_inv in Hdrop. apply lookup_lt_Some in Hk. lia.
  - assert (Hi : all !! i = Some d).
    { rewrite <- (Nat.add_0_r i), <- lookup_drop, Hdrop. done. }
    assert (Hdrop' : drop (S i) all = ds).
    { assert (E : drop (S i) all = drop 1 (drop i all))
        by (rewrite drop_drop; f_equal; lia).
      by rewrite E, Hdrop. }
    cbn [map argmin_from isnan negb andb orb xltb]. unfold Rltb.
    destruct (Rlt_dec d b) as [Hlt|Hge].
    + apply IH; [done|done|]. intros k x Hk Hx.
      destruct (decide (k = i)) as [->|Hne]; [rewrite Hi in Hx; injection Hx; lra|].
      assert (b <= x) by (apply (Hmin k); [lia|done]). lra.
    + apply IH; [done|done|]. intros k x Hk Hx.
      destruct (decide (k = i)) as [->|Hne]; [rewrite Hi in Hx; injection Hx; lra|].
      apply (Hmin k); [lia|done].
Qed.

Lemma argmin_spec (ds : list R) :
  ds <> [] ->
  exists idx v, argmin (map Fin ds) = Ok idx /\ ds !! idx = Some v
                /\ forall x, x ∈ ds -> v <= x.
Proof.
  destruct ds as [|d ds]; [done|]. intros _. cbn [map argmin].
  destruct (argmin_from_spec (d :: ds) ds 0%nat d 1%nat) as (v & Hv & Hmin);
    [done|done| |].
  - intros k x Hk Hx. assert (k = 0%nat) by lia. subst. cbn in Hx.
    injection Hx. lra.
  - eexists _, v. split_and!; done.
Qed.

Lemma finite_vecs (l : list vec3) :
  Forall finite_vec l -> exists cs, l = map Rv cs.
Proof.
  induction 1 as [|v l (x & y & z & ->) _ (cs & ->)].
  - by exists [].
  - by exists ((x, y, z) :: cs).
Qed.

Lemma Rvec_inj (a b c a' b' c' : R) :
  Rvec a b c = Rvec a' b' c' -> a = a' /\ b = b' /\ c = c'.
Proof. unfold Rvec. intros H. by injection H. Qed.

Lemma sq_sum_zero (x y z : R) : x * x + y * y + z * z = 0 -> x = 0 /\ y = 0 /\ z = 0.
Proof.
  intros H.
  pose proof (Rle_0_sqr x) as H1. pose proof (Rle_0_sqr y) as H2.
  pose proof (Rle_0_sqr z) as H3. unfold Rsqr in H1, H2, H3.
  assert (x * x = 0) by lra. assert (y * y = 0) by lra. assert (z * z = 0) by lra.
  split_and!; by apply Rsqr_0_uniq.
Qed.

(** The row of [diffs_to_nearest_nuc] for one particle. *)
Lemma nearest_particle (rx ry rz : R) (cs : list (R * R * R)) :
  cs <> [] -> (forall c, c ∈ cs -> Rvec rx ry rz <> Rv c) ->
  let zi := map (fun Rj => let d := vsub (Rvec rx ry rz) Rj in
                           (d, vsum (vmul d d))) (map Rv cs) in
  exists idx zx zy zz,
    (idx' ← argmin (map snd zi);
     match zi !! idx' with
     | Some row => Ok (row, idx')
     | None => Raise IndexError
     end) = Ok ((Rvec zx zy zz, Fin (zx * zx + zy * zy + zz * zz)), idx)
    /\ 0 < zx * zx + zy * zy + zz * zz
    /\ forall Rj d, Rj ∈ map Rv cs -> dist (Rvec rx ry rz) Rj d ->
                    Rnorm zx zy zz <= d.
Proof.
  intros Hne Hoff zi.
  set (d2 := fun c : R * R * R =>
               (rx + - c.1.1) * (rx + - c.1.1) + (ry + - c.1.2) * (ry + - c.1.2)
               + (rz + - c.2) * (rz + - c.2)).
  set (g := fun c : R * R * R =>
              (Rvec (rx + - c.1.1) (ry + - c.1.2) (rz + - c.2), Fin (d2 c))).
  assert (Hzi : zi = map g cs).
  { unfold zi. rewrite map_map. apply map_ext. by intros [[cx cy] cz]. }
  assert (Hsnd : map snd zi = map Fin (map d2 cs)).
  { rewrite Hzi, !map_map. done. }
  destruct (argmin_spec (map d2 cs)) as (idx & v & Harg & Hv & Hmin).
  { by destruct cs. }
  rewrite Hsnd, Harg. cbv [mbind result_bind rbind].
  change (map d2 cs) with (d2 <$> cs) in Hv.
  rewrite list_lookup_fmap in Hv.
  destruct (cs !! idx) as [c|] eqn:Hc; [|done]. cbn in Hv. injection Hv as <-.
  rewrite Hzi. change (map g cs) with (g <$> cs).
  rewrite list_lookup_fmap, Hc. cbn [fmap option_fmap option_map].
  exists idx, (rx + - c.1.1), (ry + - c.1.2), (rz + - c.2).
  split; [reflexivity|]. split.
  - destruct (Rle_lt_or_eq_dec 0 (d2 c) (sq_sum_nonneg _ _ _)) as [?|Hz]; [done|].
    exfalso. symmetry in Hz. apply sq_sum_zero in Hz as (? & ? & ?).
    apply (Hoff c); [by eapply list_elem_of_lookup_2|].
    unfold Rv. f_equal; lra.
  - intros Rj d HRj (ax & ay & az & bx & by_ & bz & Ha & Hb & ->).
    apply Rvec_inj in Ha as (<- & <- & <-).
    change (map Rv cs) with (Rv <$> cs) in HRj.
    apply list_elem_of_fmap in HRj as (c' & -> & Hc').
    apply Rvec_inj in Hb as (<- & <- & <-).
    unfold Rnorm. apply sqrt_le_1_alt.
    assert (Hle : d2 c <= d2 c').
    { apply Hmin. change (map d2 cs) with (d2 <$> cs). by apply list_elem_of_fmap_2. }
    unfold d2 in Hle. unfold Rminus. exact Hle.
Qed.

Section CleanForceArray.
Variable eps : R.
Hypothesis eps_pos : 0 < eps.

Lemma charge_at_finite (charges : list xreal) (idx : nat) :
  charges <> [] -> Forall finite charges ->
  exists c, charge_at charges idx = Ok (Fin c).
Proof.
  intros Hne Hfin. unfold charge_at.
  destruct (lookup_lt_is_Some_2 charges (Nat.min idx (length charges - 1)))
    as [x Hx].
  { destruct charges; [done|]. cbn [length]. lia. }
  rewrite Hx. rewrite Forall_forall in Hfin.
  destruct (Hfin x) as [c ->]; [by eapply list_elem_of_lookup_2|]. by exists c.
Qed.

Lemma walker_ok (t : R) (charges : list xreal) (Rw : list vec3)
    (fw rw : list vec3) :
  0 < t -> charges <> [] -> Forall finite charges ->
  Rw <> [] -> Forall finite_vec Rw ->
  Forall2 (fun f r => finite_vec f /\ finite_vec r
                      /\ Forall (fun Rj => r <> Rj) Rw) fw rw ->
  exists nw ow,
    diffs_to_nearest_nuc rw Rw = Ok nw
    /\ zip_with_r (fun f zi =>
                     charge ← charge_at charges zi.2;
                     Ok (clean_force_at eps (Fin t) charge f zi.1)) fw nw
       = Ok ow
    /\ Forall2 (bounded_drift t Rw) ow rw.
Proof.
  intros Ht Hcne Hcfin HRne HRfin.
  destruct (finite_vecs Rw HRfin) as (cs & ->).
  assert (Hcs : cs <> []) by (by destruct cs).
  induction 1 as [|f r fw rw (Hf & Hr & Hoff) _ (nw & ow & Hn & Ho & Hall)].
  - exists [], []. done.
  - destruct Hf as (fx & fy & fz & ->). destruct Hr as (rx & ry & rz & ->).
    destruct (nearest_particle rx ry rz cs Hcs)
      as (idx & zx & zy & zz & Hrow & Hpos & Hnear).
    { intros c Hc. rewrite Forall_forall in Hoff. apply Hoff.
      change (map Rv cs) with (Rv <$> cs). by apply list_elem_of_fmap_2. }
    destruct (charge_at_finite charges idx Hcne Hcfin) as (Zc & HZc).
    destruct (clean_force_at_bound eps eps_pos t fx fy fz zx zy zz Zc Ht Hpos)
      as (ox & oy & oz & Hout & Hbound).
    exists (((Rvec zx zy zz, Fin (zx * zx + zy * zy + zz * zz)), idx) :: nw),
           (Rvec ox oy oz :: ow).
    split_and!.
    + unfold diffs_to_nearest_nuc in *. cbn [pairwise_diffs map map_r].
      unfold pairwise_diffs in Hn. cbv zeta in Hrow.
      cbv [mbind result_bind rbind] in *. by rewrite Hrow, Hn.
    + cbn [zip_with_r snd fst]. rewrite HZc.
      cbv [mbind result_bind rbind] in *. by rewrite Hout, Ho.
    + constructor; [|done]. exists ox, oy, oz. split; [done|].
      intros Rj d HRj Hd. specialize (Hnear Rj d HRj Hd). lra.
Qed.


End CleanForceArray.

Lemma xmul_NaN_r (a : xreal) : xmul a NaN = NaN.
Proof. by destruct a. Qed.
Lemma xmul_NaN_l (a : xreal) : xmul NaN a = NaN.
Proof. by destruct a. Qed.
Lemma xadd_NaN_r (a : xreal) : xadd a NaN = NaN.
Proof. by destruct a. Qed.
Lemma xadd_NaN_l (a : xreal) : xadd NaN a = NaN.
Proof. by destruct a. Qed.
Lemma xdiv_NaN_r (a : xreal) : xdiv a NaN = NaN.
Proof. by destruct a. Qed.
Lemma xdiv_NaN_l (a : xreal) : xdiv NaN a = NaN.
Proof. by destruct a. Qed.
Lemma xmin_NaN_r (a : xreal) : xmin a NaN = NaN.
Proof. by destruct a. Qed.

(** A particle on its nucleus: every component of the result is [NaN]. *)
Lemma clean_force_at_on_nucleus (eps : R) (tau charge : xreal) (f : vec3)
    (z2 : xreal) :
  clean_force_at eps tau charge f (Rvec (0 + - 0) (0 + - 0) (0 + - 0), z2)
  = (NaN, NaN, NaN).
Proof.
  assert (Hz : vdiv (Rvec (0 + - 0) (0 + - 0) (0 + - 0))
                    (vnorm (Rvec (0 + - 0) (0 + - 0) (0 + - 0)))
               = (NaN, NaN, NaN)).
  { unfold vnorm, Rvec. cbn [vmul vsum]. xfin.
    rewrite xsqrt_fin by apply sq_sum_nonneg.
    replace ((0 + - 0) * (0 + - 0) + (0 + - 0) * (0 + - 0) + (0 + - 0) * (0 + - 0))
      with 0 by ring.
    rewrite sqrt_0. cbn [vdiv xdiv]. unfold Rzero.
    destruct (Req_dec_T 0 0) as [_|?]; [|done].
    destruct (Req_dec_T (0 + - 0) 0) as [_|?]; [done|lra]. }
  assert (Ha : crossover_parameter eps
                 (Rvec (0 + - 0) (0 + - 0) (0 + - 0), z2) f charge = NaN).
  { unfold crossover_parameter. rewrite Hz.
    destruct (vdiv f _) as [[ux uy] uz]. cbn [vmul vsum].
    rewrite !xmul_NaN_r. reflexivity. }
  unfold clean_force_at. rewrite Ha. cbv zeta.
  rewrite !xmul_NaN_l. cbn [xmul xadd xsqrt xdiv].
  destruct f as [[fx fy] fz]. cbn [vscale]. rewrite !xmul_NaN_l.
  unfold vnorm, clip_min. cbn [vmul vsum xmul xadd xsqrt xmax].
  by rewrite !xmul_NaN_r.
Qed.



Local Close Scope R_scope.

(** * [CheckpointStore]: retention, and [train] around it *)

Lemma string_app_nil_l (s : string) : "" +:+ s = s.
Proof. reflexivity. Qed.

Lemma string_app_cons (c : Ascii.ascii) (a b : string) :
  String c a +:+ b = String c (a +:+ b).
Proof. reflexivity. Qed.

Lemma string_app_assoc (a b c : string) : (a +:+ b) +:+ c = a +:+ b +:+ c.
Proof.
  induction a as [|x a IH]; [reflexivity|]. by rewrite !string_app_cons, IH.
Qed.

Lemma string_app_nil_r (s : string) : s +:+ "" = s.
Proof. induction s as [|x s IH]; [reflexivity|]. by rewrite string_app_cons, IH. Qed.

Lemma prefix_app (a b : string) : String.prefix a (a +:+ b) = true.
Proof.
  induction a as [|c a IH]; [by destruct b|].
  rewrite string_app_cons. cbn [String.prefix].
  destruct (Ascii.ascii_dec c c); [done|congruence].
Qed.

Lemma substring_app_mid (a b c : string) :
  substring (String.length a) (String.length b) (a +:+ b +:+ c) = b.
Proof.
  induction a as [|x a IH]; [|by rewrite string_app_cons].
  rewrite string_app_nil_l. cbn [String.length].
  induction b as [|y b IHb]; [by destruct c|].
  rewrite string_app_cons. cbn [String.length substring]. by rewrite IHb.
Qed.

Lemma no_slash_cons (c : Ascii.ascii) (s : string) :
  String c "" <> "/"%string ->
  CheckpointStore.no_slash (String c s) = CheckpointStore.no_slash s.
Proof.
  intros Hc. unfold CheckpointStore.no_slash. cbn [index String.prefix].
  destruct (Ascii.ascii_dec _ c) as [E|_]; [by rewrite <- E in Hc|].
  by destruct (index 0 "/" s).
Qed.

Lemma no_slash_pretty_N_go (x : N) : forall s,
  CheckpointStore.no_slash s = true ->
  CheckpointStore.no_slash (pretty_N_go x s) = true.
Proof.
  induction (N.lt_wf_0 x) as [x _ IH]; intros s Hs.
  assert (x = 0 \/ 0 < x)%N as [->|Hx] by lia.
  - by rewrite pretty_N_go_0.
  - rewrite pretty_N_go_step by done. apply IH; [by apply N.div_lt|].
    rewrite no_slash_cons; [done|].
    unfold pretty_N_char. by repeat case_match.
Qed.

Lemma no_slash_pretty_Z (n : Z) : CheckpointStore.no_slash (pretty n) = true.
Proof.
  assert (HN : forall x : N, CheckpointStore.no_slash (pretty x) = true).
  { intros x. unfold pretty, pretty_N. case_decide; [done|].
    by apply no_slash_pretty_N_go. }
  destruct n as [|p|p]; unfold pretty, pretty_Z; [done|apply HN|].
  rewrite string_app_cons, string_app_nil_l.
  rewrite no_slash_cons; [apply HN|done].
Qed.

Lemma glob_match_path_of (wd : string) (n : Z) :
  CheckpointStore.glob_match wd (path_of wd n) = true.
Proof.
  unfold CheckpointStore.glob_match, path_of, CheckpointStore.joinpath,
    CheckpointStore.PATTERN.
  set (pre := wd +:+ "/" +:+ "chkpt-").
  assert (Hp : wd +:+ "/" +:+ "chkpt-" +:+ pretty n +:+ ".pt"
               = pre +:+ pretty n +:+ ".pt").
  { subst pre. by rewrite !string_app_assoc. }
  rewrite Hp. cbv zeta.
  rewrite prefix_app. rewrite !string_length_app.
  change (String.length ".pt") with 3%nat.
  replace (String.length pre + (String.length (pretty n) + 3) - 3)%nat
    with (String.length pre + String.length (pretty n))%nat by lia.
  replace (String.length pre + String.length (pretty n) - String.length pre)%nat
    with (String.length (pretty n)) by lia.
  rewrite substring_app_mid, no_slash_pretty_Z.
  assert (Hsuf : substring (String.length pre + String.length (pretty n)) 3
                   (pre +:+ pretty n +:+ ".pt") = ".pt").
  { rewrite <- string_length_app.
    assert (Ha : pre +:+ pretty n +:+ ".pt" = (pre +:+ pretty n) +:+ ".pt" +:+ "").
    { by rewrite string_app_assoc. }
    rewrite Ha. apply (substring_app_mid (pre +:+ pretty n) ".pt" ""). }
  rewrite Hsuf. cbn [String.eqb Ascii.eqb Bool.eqb andb].
  rewrite !andb_true_r. apply Nat.leb_le. lia.
Qed.

Section StoreRetention.
Context {State : Type}.
Implicit Types (d : gmap string State) (self : CheckpointStore.t State).
Implicit Types (w : gmap string State * CheckpointStore.t State).

(** The eviction loop removes the files of the oldest checkpoints and
    nothing else. *)
Lemma evict_files (cs : list Checkpoint.t) : forall d self,
  CheckpointStore.chkpts self = cs ->
  0 <= CheckpointStore.size self ->
  Forall (fun c => is_Some (d !! Checkpoint.path c)) cs ->
  NoDup (Checkpoint.path <$> cs) ->
  exists d',
    let k := (length cs - Z.to_nat (CheckpointStore.size self))%nat in
    CheckpointStore.evict cs (d, self)
      = Done (d', CheckpointStore.set_chkpts self (drop k cs)) tt
    /\ (forall p, p ∉ (Checkpoint.path <$> take k cs) -> d' !! p = d !! p)
    /\ (forall p, p ∈ (Checkpoint.path <$> take k cs) -> d' !! p = None).
Proof.
  induction cs as [|c rest IH]; intros d self Hcs Hsz Hfiles Hnd.
  - exists d. simpl. msimpl.
    destruct (Z.ltb_spec (CheckpointStore.size self) (Z.of_nat 0)); [lia|].
    split_and!; [by rewrite <- Hcs, set_chkpts_id | done |].
    intros p Hp. cbn in Hp. by apply elem_of_nil in Hp.
  - cbn [CheckpointStore.evict]. msimpl.
    destruct (Z.ltb_spec (CheckpointStore.size self) (Z.of_nat (length (c :: rest))))
      as [Hlt|Hge].
    + unfold CheckpointStore.unlink. msimpl.
      apply Forall_cons in Hfiles as [[x Hx] Hfiles].
      rewrite fmap_cons in Hnd. apply NoDup_cons in Hnd as [Hc Hnd].
      rewrite Hx.
      destruct (IH (delete (Checkpoint.path c) d) (CheckpointStore.set_chkpts self rest))
        as (d' & Hev & Hd' & Hgone); [by destruct self | by destruct self | | done |].
      { apply Forall_forall. intros c' Hc'.
        rewrite Forall_forall in Hfiles.
        rewrite lookup_delete_ne; [by apply Hfiles|].
        intros Heq. apply Hc. rewrite Heq. by apply list_elem_of_fmap_2. }
      exists d'. cbn zeta in *.
      assert (Hsz' : CheckpointStore.size (CheckpointStore.set_chkpts self rest)
                     = CheckpointStore.size self) by by destruct self.
      rewrite Hsz' in *.
      simpl length in *.
      replace (S (length rest) - Z.to_nat (CheckpointStore.size self))%nat
        with (S (length rest - Z.to_nat (CheckpointStore.size self))) in * by lia.
      cbn [drop take]. split_and!.
      * rewrite Hev. by destruct self.
      * intros p Hp. rewrite fmap_cons in Hp.
        apply not_elem_of_cons in Hp as [Hne Hp].
        rewrite Hd' by done. by rewrite lookup_delete_ne.
      * intros p Hp. rewrite fmap_cons in Hp.
        destruct (decide (p ∈ Checkpoint.path <$>
                    take (length rest - Z.to_nat (CheckpointStore.size self)) rest))
          as [Hin|Hout]; [by apply Hgone|].
        apply elem_of_cons in Hp as [->|Hp]; [|done].
        rewrite Hd' by done. apply lookup_delete_eq.
    + exists d. cbn zeta. simpl length in *.
      replace (S (length rest) - Z.to_nat (CheckpointStore.size self))%nat with 0%nat by lia.
      cbn [drop take]. split_and!; [by rewrite <- Hcs, set_chkpts_id | done |].
      intros p Hp. by apply elem_of_nil in Hp.
Qed.

Lemma improving_snoc (mi : Z) (th : xreal) (cs : list Checkpoint.t)
    (new : Checkpoint.t) :
  improving mi th cs ->
  (forall c, list.last cs = Some c ->
     Checkpoint.step c < Checkpoint.step new
     /\ mi <= Checkpoint.step new - Checkpoint.step c
     /\ xgtb (Checkpoint.loss new) (xmul th (Checkpoint.loss c)) = false) ->
  improving mi th (cs ++ [new]).
Proof.
  induction cs as [|c1 rest IH]; intros Himp Hlast; [done|].
  destruct rest as [|c2 rest'].
  - cbn. split; [|done]. by apply Hlast.
  - cbn [app improving] in *. destruct Himp as [H12 Hrest].
    split; [done|]. apply IH; [done|].
    intros c Hc. apply Hlast. by rewrite last_cons_cons.
Qed.

Lemma improving_drop (mi : Z) (th : xreal) (k : nat) : forall cs,
  improving mi th cs -> improving mi th (drop k cs).
Proof.
  induction k as [|k IH]; intros cs Himp; [by rewrite drop_0|].
  destruct cs as [|c rest]; [done|]. cbn [drop]. apply IH.
  by destruct Himp.
Qed.

(** A call of [update] that passes the gate, in full. *)
Lemma update_persist_eq (wd : string) w (loss : xreal) (state : State) :
  store_inv wd w -> 0 <= CheckpointStore.size w.2 ->
  gate w.2 (CheckpointStore.step w.2 + 1) loss = true ->
  let new := Checkpoint.mk (CheckpointStore.step w.2 + 1) loss
               (path_of wd (CheckpointStore.step w.2 + 1)) in
  let cs := CheckpointStore.chkpts w.2 ++ [new] in
  let k := (length cs - Z.to_nat (CheckpointStore.size w.2))%nat in
  exists d',
    CheckpointStore.update loss state w
    = Done (d', CheckpointStore.mk wd (CheckpointStore.size w.2)
                  (CheckpointStore.min_interval w.2) (CheckpointStore.threshold w.2)
                  (drop k cs) (CheckpointStore.step w.2 + 1) (Some state)) tt
    /\ (forall p, p ∉ (Checkpoint.path <$> take k cs) ->
          d' !! p = <[path_of wd (CheckpointStore.step w.2 + 1) := state]> w.1 !! p)
    /\ (forall p, p ∈ (Checkpoint.path <$> take k cs) -> d' !! p = None).
Proof.
  destruct w as [d self]. intros (Hwd & Hall & Hnd) Hsz Hg new cs k.
  cbn [fst snd] in *.
  unfold CheckpointStore.update. msimpl. rewrite skips_gate, Hg. cbn [negb].
  unfold CheckpointStore.dump. msimpl.
  set (self1 := CheckpointStore.set_buffer
                  (CheckpointStore.set_step self (CheckpointStore.step self + 1))
                  (Some state)).
  set (p := CheckpointStore.joinpath (CheckpointStore.workdir self1)
              (CheckpointStore.PATTERN (pretty (CheckpointStore.step self1)))).
  assert (Hp : p = path_of wd (CheckpointStore.step self + 1)).
  { subst p self1. unfold path_of. rewrite <- Hwd. by destruct self. }
  assert (Hst1 : CheckpointStore.step self1 = CheckpointStore.step self + 1)
    by by destruct self.
  assert (Hcs1 : CheckpointStore.chkpts self1 = CheckpointStore.chkpts self)
    by by destruct self.
  rewrite Hst1, Hcs1, Hp. fold new. fold cs.
  set (self2 := CheckpointStore.set_chkpts self1 cs).
  assert (Hcs2 : CheckpointStore.chkpts self2 = cs) by by destruct self.
  assert (Hpaths : Forall (fun c => Checkpoint.path c = path_of wd (Checkpoint.step c)) cs).
  { subst cs. apply Forall_app. split.
    - eapply Forall_impl; [exact Hall|]. by intros c (? & _).
    - constructor; [|constructor]. done. }
  assert (Hsteps : NoDup (Checkpoint.step <$> cs)).
  { subst cs. rewrite fmap_app. apply NoDup_app. split; [done|]. split.
    - intros x Hx Hx'. apply list_elem_of_fmap in Hx as (c & -> & Hc).
      rewrite Forall_forall in Hall. destruct (Hall c Hc) as (_ & _ & Hle).
      cbn [fmap list_fmap] in Hx'. apply list_elem_of_singleton in Hx'.
      subst new. cbn [Checkpoint.step] in Hx'. lia.
    - cbn. apply NoDup_singleton. }
  assert (Hfiles : Forall (fun c => is_Some
            (<[path_of wd (CheckpointStore.step self + 1):=state]> d
               !! Checkpoint.path c)) cs).
  { subst cs. apply Forall_app. split.
    - eapply Forall_impl; [exact Hall|]. intros c (_ & Hc & _).
      apply lookup_insert_is_Some'. by right.
    - constructor; [|constructor]. subst new. cbn [Checkpoint.path].
      rewrite lookup_insert_eq. by eexists. }
  destruct (evict_files cs
              (<[path_of wd (CheckpointStore.step self + 1):=state]> d)
              self2 Hcs2)
    as (d' & Hev & Hkeep & Hgone);
    [by destruct self | done | by eapply paths_nodup |].
  cbn zeta in Hev.
  replace (CheckpointStore.size self2) with (CheckpointStore.size self) in *
    by by destruct self.
  fold k in Hev, Hkeep, Hgone.
  exists d'. rewrite Hcs2, Hev. split_and!; [|done|done].
  f_equal. f_equal. subst self2 self1. destruct self. cbn in *. by subst.
Qed.

(** [update] keeps the files and the list of the store in agreement. *)
Lemma update_retained (wd : string) (d0 : gmap string State) w
    (loss : xreal) (state : State) :
  store_inv wd w -> 0 <= CheckpointStore.size w.2 -> retained_ok wd d0 w ->
  exists w',
    CheckpointStore.update loss state w = Done w' tt
    /\ store_inv wd w'
    /\ retained_ok wd d0 w'
    /\ CheckpointStore.step w'.2 = CheckpointStore.step w.2 + 1
    /\ CheckpointStore.buffer w'.2 = Some state
    /\ CheckpointStore.size w'.2 = CheckpointStore.size w.2
    /\ CheckpointStore.min_interval w'.2 = CheckpointStore.min_interval w.2
    /\ CheckpointStore.threshold w'.2 = CheckpointStore.threshold w.2.
Proof.
  intros Hinv Hsz (Hlen & Hdisk & Hother & Hmin & Himp).
  destruct (update_spec wd w loss state Hinv Hsz)
    as (w' & Hup & Hinv' & Hst' & Hb' & Hsz' & Hmi' & Hth' & Hskip & _).
  exists w'. split_and!; try done.
  destruct (gate w.2 (CheckpointStore.step w.2 + 1) loss) eqn:Hg.
  - destruct (update_persist_eq wd w loss state Hinv Hsz Hg)
      as (d' & Heq & Hkeep & Hgone).
    rewrite Heq in Hup. injection Hup as <-.
    set (new := Checkpoint.mk (CheckpointStore.step w.2 + 1) loss
                  (path_of wd (CheckpointStore.step w.2 + 1))) in *.
    set (cs := CheckpointStore.chkpts w.2 ++ [new]) in *.
    set (k := (length cs - Z.to_nat (CheckpointStore.size w.2))%nat) in *.
    destruct Hinv as (Hwd & Hall & Hnd).
    assert (Hpaths : forall c, c ∈ cs -> Checkpoint.path c = path_of wd (Checkpoint.step c)).
    { intros c Hc. subst cs. apply elem_of_app in Hc as [Hc|Hc].
      - rewrite Forall_forall in Hall. by destruct (Hall c Hc).
      - apply list_elem_of_singleton in Hc. by subst c. }
    assert (Hsteps : NoDup (Checkpoint.step <$> cs)).
    { subst cs. rewrite fmap_app. apply NoDup_app. split; [done|]. split.
      - intros x Hx Hx'. apply list_elem_of_fmap in Hx as (c & -> & Hc).
        rewrite Forall_forall in Hall. destruct (Hall c Hc) as (_ & _ & Hle).
        cbn [fmap list_fmap] in Hx'. apply list_elem_of_singleton in Hx'.
        subst new. cbn [Checkpoint.step] in Hx'. lia.
      - cbn. apply NoDup_singleton. }
    assert (Hsplit : cs = take k cs ++ drop k cs) by by rewrite take_drop.
    assert (Htaken : forall n, path_of wd n ∈ Checkpoint.path <$> take k cs
                               <-> n ∈ Checkpoint.step <$> take k cs).
    { intros n. split; intros Hin.
      - apply list_elem_of_fmap in Hin as (c & Hc & Hin).
        rewrite Hpaths in Hc.
        + apply path_of_inj in Hc. subst n. by apply list_elem_of_fmap_2.
        + rewrite Hsplit. apply elem_of_app. by left.
      - apply list_elem_of_fmap in Hin as (c & -> & Hin).
        rewrite <- Hpaths.
        + by apply list_elem_of_fmap_2.
        + rewrite Hsplit. apply elem_of_app. by left. }
    unfold retained_ok.
    cbn [fst snd CheckpointStore.chkpts CheckpointStore.size
         CheckpointStore.min_interval CheckpointStore.threshold].
    split_and!.
    + rewrite length_drop. subst k. lia.
    + intros n. destruct (decide (n ∈ Checkpoint.step <$> take k cs)) as [Hin|Hout].
      * rewrite Hgone by by apply Htaken.
        split; [by intros [? ?]|]. intros Hd. exfalso.
        rewrite Hsplit, fmap_app in Hsteps.
        apply NoDup_app in Hsteps as (_ & Hdisj & _). by apply (Hdisj n).
      * rewrite Hkeep by by rewrite Htaken.
        assert (Hcsn : n ∈ Checkpoint.step <$> cs
                       <-> n ∈ Checkpoint.step <$> drop k cs).
        { rewrite Hsplit at 1. rewrite fmap_app, elem_of_app. tauto. }
        rewrite <- Hcsn. subst cs. rewrite fmap_app, elem_of_app.
        cbn [fmap list_fmap]. rewrite list_elem_of_singleton.
        subst new. cbn [Checkpoint.step].
        destruct (decide (n = CheckpointStore.step w.2 + 1)) as [->|Hne].
        -- rewrite lookup_insert_eq. split; [by right|by eexists].
        -- rewrite lookup_insert_ne by (intros E; by apply path_of_inj in E).
           rewrite Hdisk. tauto.
    + intros p Hp. rewrite Hkeep.
      * rewrite lookup_insert_ne by (intros E; exact (Hp _ (eq_sym E))).
        by apply Hother.
      * intros Hin. apply list_elem_of_fmap in Hin as (c & Hc & Hin).
        rewrite Hpaths in Hc; [exact (Hp _ Hc)|].
        rewrite Hsplit. apply elem_of_app. by left.
    + apply Forall_drop. subst cs. apply Forall_app. split; [done|].
      constructor; [|constructor]. subst new. cbn [Checkpoint.step].
      unfold gate in Hg. apply andb_true_iff in Hg as [Hg _]. lia.
    + apply improving_drop. subst cs. apply improving_snoc; [done|].
      intros c Hc. subst new. cbn [Checkpoint.step Checkpoint.loss].
      unfold gate in Hg. rewrite Hc in Hg.
      apply andb_true_iff in Hg as [_ Hg]. apply andb_true_iff in Hg as [Hg1 Hg2].
      rewrite Forall_forall in Hall.
      destruct (Hall c (last_Some_elem_of _ _ Hc)) as (_ & _ & Hle).
      split_and!; [lia | lia | by apply negb_true_iff].
  - destruct (Hskip eq_refl) as [Hd Hcs].
    unfold retained_ok. rewrite Hd, Hcs, Hsz', Hmi', Hth'. done.
Qed.

(** Any sequence of [update] calls keeps them in agreement. *)
Lemma updates_retained (wd : string) (d0 : gmap string State)
    (calls : list (xreal * State)) : forall w,
  store_inv wd w -> 0 <= CheckpointStore.size w.2 -> retained_ok wd d0 w ->
  exists w',
    updates calls w = Done w' tt
    /\ store_inv wd w'
    /\ retained_ok wd d0 w'
    /\ CheckpointStore.step w'.2 = CheckpointStore.step w.2 + Z.of_nat (length calls)
    /\ CheckpointStore.size w'.2 = CheckpointStore.size w.2
    /\ CheckpointStore.min_interval w'.2 = CheckpointStore.min_interval w.2
    /\ CheckpointStore.threshold w'.2 = CheckpointStore.threshold w.2.
Proof.
  induction calls as [|[loss state] rest IH]; intros w Hinv Hsz Hok.
  - exists w. cbn. msimpl. split_and!; try done. lia.
  - destruct (update_retained wd d0 w loss state Hinv Hsz Hok)
      as (w1 & Hup & Hinv1 & Hok1 & Hst1 & _ & Hsz1 & Hmi1 & Hth1).
    destruct (IH w1 Hinv1) as (w' & Hrun & Hinv' & Hok' & Hst' & Hsz' & Hmi' & Hth');
      [lia | done |].
    exists w'. cbn [updates]. msimpl. rewrite Hup, Hrun.
    split_and!; try done; try congruence.
    rewrite Hst', Hst1. cbn [length]. lia.
Qed.

Lemma fresh_retained (wd : string) (size mi : Z) (th : xreal) d :
  0 <= size ->
  retained_ok wd (fresh wd size mi th d).1 (fresh wd size mi th d).
Proof.
  intros Hsz. unfold fresh, CheckpointStore.__init__. msimpl.
  unfold retained_ok. cbn. split_and!; try done.
  intros n. rewrite map_lookup_filter_None_2; [split|].
  - by intros [? ?].
  - intros H. by apply elem_of_nil in H.
  - right. intros x _. cbn. rewrite glob_match_path_of. cbn. tauto.
Qed.

End StoreRetention.

Section StoreRetentionTheorems.
Context {State : Type}.

(** Constructing a store on a directory deletes every checkpoint file a
    previous store left there ([chkpt-<n>.pt] for every integer [n]) and
    leaves every path that does not match the pattern as it was. *)
Theorem init_removes_old_checkpoints (wd : string) (size mi : Z) (th : xreal)
    (d : gmap string State) :
  exists d',
    CheckpointStore.__init__ wd size mi th d
    = Done d' (CheckpointStore.mk wd size mi th [] 0 None)
    /\ (forall n, d' !! path_of wd n = None)
    /\ (forall p, CheckpointStore.glob_match wd p = false -> d' !! p = d !! p)
    /\ d' ⊆ d.
Proof.
  unfold CheckpointStore.__init__. msimpl. eexists. split; [reflexivity|].
  split_and!.
  - intros n. apply map_lookup_filter_None_2. right. intros x _. cbn.
    rewrite glob_match_path_of. cbn. tauto.
  - intros p Hp. destruct (d !! p) as [x|] eqn:E.
    + apply map_lookup_filter_Some_2; [done|]. cbn. by rewrite Hp.
    + apply map_lookup_filter_None_2. by left.
  - apply map_filter_subseteq.
Qed.

(** After any sequence of [update] calls on a freshly constructed store
    that retains [size >= 0] checkpoints, at most [size] checkpoints are
    listed, a checkpoint file [chkpt-<n>.pt] exists in the directory exactly
    when [n] is the step of a listed checkpoint, and every path outside the
    store's pattern holds what it held before the store was constructed. *)
Theorem store_retains_at_most_size (wd : string) (size mi : Z) (th : xreal)
    (d : gmap string State) (calls : list (xreal * State)) :
  0 <= size ->
  exists w,
    updates calls (fresh wd size mi th d) = Done w tt
    /\ Z.of_nat (length (CheckpointStore.chkpts w.2)) <= size
    /\ (forall n, is_Some (w.1 !! path_of wd n)
                  <-> n ∈ Checkpoint.step <$> CheckpointStore.chkpts w.2)
    /\ (forall p, CheckpointStore.glob_match wd p = false -> w.1 !! p = d !! p).
Proof.
  intros Hsz.
  destruct (fresh_spec wd size mi th d) as [Hinv0 Hw0].
  destruct (updates_retained wd (fresh wd size mi th d).1 calls _ Hinv0)
    as (w & Hrun & Hinv & (Hlen & Hdisk & Hother & _) & _ & Hsz' & _).
  { rewrite Hw0. cbn. lia. }
  { by apply fresh_retained. }
  rewrite Hw0 in Hsz'. cbn in Hsz'.
  exists w. split_and!; [done | lia | done |].
  intros p Hp. rewrite Hother.
  - unfold fresh, CheckpointStore.__init__. msimpl. cbn [fst].
    destruct (d !! p) as [x|] eqn:E.
    + apply map_lookup_filter_Some_2; [done|]. cbn. by rewrite Hp.
    + apply map_lookup_filter_None_2. by left.
  - intros n ->. by rewrite glob_match_path_of in Hp.
Qed.


End StoreRetentionTheorems.

(** The retention bound on a store of size 1 after three calls that all
    pass the gate. *)
Lemma store_retains_at_most_size_witness :
  exists w,
    updates [(Fin 1, 0%nat); (Fin 0, 1%nat); (Fin 0, 2%nat)]
      (fresh "w" 1 1 CheckpointStore.default_threshold ∅) = Done w tt
    /\ Z.of_nat (length (CheckpointStore.chkpts w.2)) <= 1.
Proof.
  destruct (store_retains_at_most_size "w" 1 1 CheckpointStore.default_threshold
              ∅ [(Fin 1, 0%nat); (Fin 0, 1%nat); (Fin 0, 2%nat)])
    as (w & H1 & H2 & _); [lia|].
  exists w. split; done.
Defined.


Section TrainRuns.
Context {TrainState Optimizer : Type}.
Variable psi_log : TrainState -> list xreal.
Variable fit_wf : Z * Z -> TrainState -> list (fit_item TrainState).

(** With [max_restarts <= 0] the restart loop has no iteration: [train]
    returns [None] without calling [fit_wf] once; a store is still
    constructed when [workdir] is given, which deletes the checkpoints of an
    earlier run. *)
Theorem train_without_attempts (opt : option Optimizer)
    (workdir : option string) (steps max_restarts : Z) (init_state : TrainState)
    (d : gmap string TrainState) :
  max_restarts <= 0 ->
  exists w,
    train psi_log fit_wf opt workdir steps max_restarts init_state d = Done w None
    /\ trace w = []
    /\ disk w = if truthy workdir
                then (fresh (default "" workdir +:+ "/" +:+
                               mode_name (match opt with
                                          | None => evaluate
                                          | Some _ => train_mode
                                          end))
                        CheckpointStore.default_size
                        CheckpointStore.default_min_interval
                        CheckpointStore.default_threshold d).1
                else d.
Proof.
  intros Hm. unfold train, finally. rewrite (range_nil 0 max_restarts) by lia.
  destruct (truthy workdir) eqn:Hwd.
  - unfold CheckpointStore.__init__, fresh, on_chkpts, CheckpointStore.close.
    msimpl. cbn. eexists. split_and!; reflexivity.
  - msimpl. cbn. eexists. split_and!; reflexivity.
Qed.

(** One iteration in evaluation mode changes neither the files nor the
    store, whether it continues or raises. *)
Lemma fit_body_evaluate_frame (workdir : option string) (steps : Z)
    (it : fit_item TrainState) (l : locals TrainState) (w : world TrainState) :
  let o := fit_body psi_log workdir evaluate steps it l w in
  disk (state_of o) = disk w /\ chkpts (state_of o) = chkpts w.
Proof.
  unfold fit_body, log_event. msimpl. cbn [train_state].
  destruct (any_isnan _).
  - unfold on_chkpts, CheckpointStore.last. cbn [chkpts disk trace].
    destruct (chkpts w) as [self|]; [|done]. msimpl.
    destruct (list.last _) as [c|]; [|done].
    destruct (disk w !! _); done.
  - destruct (truthy workdir); done.
Qed.

Lemma for_each_evaluate_frame (workdir : option string) (steps : Z)
    (items : list (fit_item TrainState)) : forall l w,
  let o := for_each (fit_body psi_log workdir evaluate steps) items l w in
  disk (state_of o) = disk w /\ chkpts (state_of o) = chkpts w.
Proof.
  induction items as [|it items IH]; intros l w; [done|].
  cbv zeta. rewrite for_each_cons.
  pose proof (fit_body_evaluate_frame workdir steps it l w) as Hb.
  cbv zeta in Hb.
  destruct (fit_body _ _ _ _ _ _ _) as [s' [l'|l'|a]|s' e]; cbn [state_of] in *;
    try done.
  destruct (IH l' s') as [H1 H2]. destruct Hb as [H3 H4]. split; congruence.
Qed.

Lemma finally_state {S A} (m : M S A) (fin : M S unit) (s : S) :
  state_of (finally m fin s) = state_of (fin (state_of (m s))).
Proof.
  unfold finally. destruct (m s) as [s' a|s' e]; cbn [state_of];
    by destruct (fin s').
Qed.

Lemma close_unused_frame (workdir : option string) (w : world TrainState) :
  (chkpts w = None \/ exists self, chkpts w = Some self
                        /\ CheckpointStore.buffer self = None) ->
  disk (state_of ((if truthy workdir
                   then on_chkpts CheckpointStore.close
                   else ret tt) w)) = disk w.
Proof.
  intros Hw. destruct (truthy workdir); [|done].
  unfold on_chkpts, CheckpointStore.close.
  destruct Hw as [->|(self & -> & Hb)]; [done|]. msimpl. by rewrite Hb.
Qed.

Lemma restart_loop_evaluate_frame (workdir : option string)
    (steps max_restarts : Z) (init_state : TrainState) (w : world TrainState) :
  let o := (r ← for_each (restart_body psi_log fit_wf workdir evaluate steps)
                  (range 0 max_restarts) (mk_locals (0, steps) init_state);
            match r with
            | inl _ => ret (@None TrainState)
            | inr v => ret v
            end) w in
  disk (state_of o) = disk w /\ chkpts (state_of o) = chkpts w.
Proof.
  cbv zeta. msimpl. destruct (range 0 max_restarts) as [|x xs]; [done|].
  rewrite for_each_cons. unfold restart_body, log_event. msimpl.
  cbn [pbar train_state].
  match goal with |- context [for_each ?b ?its ?l ?w'] =>
    pose proof (for_each_evaluate_frame workdir steps its l w') as Hf;
    cbv zeta in Hf;
    destruct (for_each b its l w') as [s' [l'|v]|s' e]
  end; cbn [state_of disk chkpts] in *; done.
Qed.

(** In evaluation mode ([opt] is [None]) [train] writes no file: however it
    ends, the file system is the one left by the construction of the store
    (or the initial one when no [workdir] is given). *)
Theorem evaluation_writes_no_file (workdir : option string)
    (steps max_restarts : Z) (init_state : TrainState)
    (d : gmap string TrainState) :
  disk (state_of (train psi_log fit_wf (@None Optimizer) workdir steps
                    max_restarts init_state d))
  = if truthy workdir
    then (fresh (default "" workdir +:+ "/" +:+ "evaluate")
            CheckpointStore.default_size CheckpointStore.default_min_interval
            CheckpointStore.default_threshold d).1
    else d.
Proof.
  unfold train. cbv zeta. cbn [mode_name].
  pose proof (close_unused_frame workdir) as Hcl.
  match goal with |- context [finally ?m ?f] => set (body := m); set (fin := f) end.
  destruct (truthy workdir) eqn:Hwd.
  - unfold CheckpointStore.__init__, fresh. msimpl. cbn [disk chkpts trace fst].
    rewrite finally_state.
    match goal with |- context [body ?w] => set (w0 := w) end.
    subst fin body.
    destruct (restart_loop_evaluate_frame workdir steps max_restarts init_state w0)
      as [Hd Hc].
    rewrite Hcl; [by rewrite Hd|].
    rewrite Hc. right. eexists. split; done.
  - msimpl. rewrite finally_state. subst fin body.
    destruct (restart_loop_evaluate_frame workdir steps max_restarts init_state
                (mk_world d None [])) as [Hd Hc].
    rewrite Hcl; [by rewrite Hd|].
    rewrite Hc. by left.
Qed.

(** A run of clean items in training mode feeds every item to
    [chkpts.update], in order. *)
Lemma for_each_clean_train (workdir : option string) (wd : string) (steps : Z)
    (items : list (fit_item TrainState)) :
  truthy workdir = true -> Forall (clean psi_log) items ->
  forall l w self,
    chkpts w = Some self ->
    store_inv wd (disk w, self) ->
    0 <= CheckpointStore.size self ->
  exists d' self',
    updates (map (fun it => (it_loss it, it_train_state it)) items) (disk w, self)
    = Done (d', self') tt
    /\ for_each (fit_body psi_log workdir train_mode steps) items l w
       = Done (mk_world d' (Some self')
                 (trace w ++ map (fun it => Step (it_step it)) items))
              (inl (mk_locals (pbar l)
                      (default (train_state l)
                         (it_train_state <$> list.last items)))).
Proof.
  intros Hwd. induction 1 as [|it items Hit Hitems IH]; intros l w self Hw Hinv Hsz.
  - exists (disk w), self. split; [done|]. cbn. msimpl.
    rewrite app_nil_r. destruct w, l. cbn in *. by subst.
  - destruct (update_spec wd (disk w, self) (it_loss it) (it_train_state it) Hinv Hsz)
      as ([d1 self1] & Hup & Hinv1 & _ & _ & Hsz1 & _).
    cbn [fst snd] in *.
    destruct (IH (mk_locals (pbar l) (it_train_state it))
                (mk_world d1 (Some self1) (trace w ++ [Step (it_step it)])) self1)
      as (d' & self' & Hrun & Hloop); [done | done | lia |].
    exists d', self'. split.
    + cbn [map updates]. msimpl. by rewrite Hup.
    + rewrite for_each_cons, fit_body_clean by done. rewrite Hwd.
      unfold on_chkpts, stepped. cbn [chkpts disk trace]. rewrite Hw, Hup.
      rewrite Hloop. cbn [trace pbar train_state map].
      rewrite <- app_assoc. cbn [app]. do 3 f_equal.
      destruct items as [|it' items']; [reflexivity|].
      rewrite (last_cons_cons it).
      destruct (list.last (it' :: items')) eqn:E; [done|].
      by apply last_None in E.
Qed.

(** A training run ([opt] given, [workdir] given, at least one attempt)
    whose states are all free of NaN returns the state of the last step,
    and that state is on disk when [train] returns: the file
    [workdir/train/chkpt-<N>.pt], [N] the number of steps made, holds it,
    whether or not the last step passed the gate of the store. *)
Theorem clean_run_persists_final_state (o : Optimizer) (wd : string)
    (steps max_restarts : Z) (init_state : TrainState)
    (d : gmap string TrainState)
    (items : list (fit_item TrainState)) (it : fit_item TrainState) :
  wd <> "" ->
  0 < max_restarts ->
  fit_wf (0, steps) init_state = items ++ [it] ->
  Forall (clean psi_log) (items ++ [it]) ->
  exists w,
    train psi_log fit_wf (Some o) (Some wd) steps max_restarts init_state d
    = Done w (Some (it_train_state it))
    /\ disk w !! path_of (wd +:+ "/" +:+ "train") (Z.of_nat (length items) + 1)
       = Some (it_train_state it)
    /\ trace w = CallFit (0, steps)
                 :: map (fun it => Step (it_step it)) (items ++ [it]).
Proof.
  intros Hne Hmax Hfit Hclean.
  assert (Hwd : truthy (Some wd) = true).
  { cbn. apply negb_true_iff. by apply String.eqb_neq. }
  destruct (range_pos max_restarts Hmax) as [rs Hrs].
  unfold train, finally. rewrite Hwd, Hrs.
  unfold CheckpointStore.__init__. msimpl.
  rewrite for_each_cons. unfold restart_body, log_event. msimpl.
  cbn [pbar train_state disk trace chkpts mode_name default]. rewrite Hfit.
  unfold Datatypes.id.
  set (wdir := wd +:+ "/" +:+ "train").
  match goal with |- context [for_each _ _ ?l ?w] =>
    set (l0 := l); set (w0 := w) end.
  assert (Hinv0 : store_inv wdir (disk w0, CheckpointStore.mk wdir
                     CheckpointStore.default_size
                     CheckpointStore.default_min_interval
                     CheckpointStore.default_threshold [] 0 None)).
  { unfold store_inv. cbn. split_and!; [done|constructor|constructor]. }
  destruct (for_each_clean_train (Some wd) wdir steps (items ++ [it]) Hwd Hclean
              l0 w0 _ eq_refl Hinv0)
    as (d' & self' & Hrun & Hloop).
  { cbn. unfold CheckpointStore.default_size. lia. }
  rewrite Hloop.
  destruct (updates_spec wdir
              (map (fun it => (it_loss it, it_train_state it)) (items ++ [it]))
              _ Hinv0)
    as (w' & Hrun' & Hinv' & Hst' & _ & _ & _ & Hb').
  { cbn. unfold CheckpointStore.default_size. lia. }
  rewrite Hrun in Hrun'. injection Hrun' as <-.
  cbn [fst snd CheckpointStore.step] in *.
  rewrite map_app in Hb'. cbn [map] in Hb'.
  specialize (Hb' _ (last_snoc _ _)). cbn [snd] in Hb'.
  unfold on_chkpts, CheckpointStore.close, CheckpointStore.dump.
  cbn [chkpts disk trace]. msimpl. rewrite Hb'.
  rewrite last_snoc. cbn [fmap option_fmap option_map default].
  eexists. split_and!; [reflexivity | | ].
  - cbn [disk]. destruct Hinv' as (Hwd' & _). cbn [snd] in Hwd'.
    rewrite Hwd', Hst'. rewrite length_map, length_app. cbn [length].
    unfold path_of.
    replace (0 + Z.of_nat (length items + 1)) with (Z.of_nat (length items) + 1) by lia.
    apply lookup_insert_eq.
  - cbn [trace]. subst w0. cbn [trace]. done.
Qed.

End TrainRuns.

Lemma train_without_attempts_witness :
  exists w, demo_train 100 (Some "out") 200 0 = Done w None /\ trace w = [].
Proof.
  destruct (train_without_attempts (Optimizer := unit) demo_psi_log
              (demo_fit_wf 100) (Some tt) (Some "out") 200 0 0 ∅)
    as (w & H1 & H2 & _); [lia|].
  exists w. split; done.
Defined.

(** The test run without a NaN: 150 steps, the last one not passing the
    gate (the checkpoint of step 100 is 50 calls old). *)
Lemma clean_run_persists_final_state_witness :
  exists w,
    demo_train (-1) (Some "out") 150 3 = Done w (Some 149)
    /\ disk w !! path_of "out/train" 150 = Some 149.
Proof.
  destruct (clean_run_persists_final_state (Optimizer := unit) demo_psi_log
              (demo_fit_wf (-1)) tt "out" 150 3 0 ∅
              (firstn 149 (demo_fit_wf (-1) (0, 150) 0))
              (mk_item 149 149 (Fin 1)))
    as (w & H1 & H2 & _).
  { done. }
  { lia. }
  { vm_compute. reflexivity. }
  { vm_compute. repeat constructor. }
  exists w. split; [exact H1|exact H2].
Defined.

(** * [MoleculeIdxSampler] with shuffling *)

Section IdxSamplerShuffle.
Import MoleculeIdxSampler.
Context {Devices : Type}.
Variable random_permutation : key -> list Z -> list Z.
Variable replicate_on_devices : list Z -> Devices.
Hypothesis permutes : forall k l, random_permutation k l ≡ₚ l.

Lemma new_permutation_spec (n : Z) (self : MoleculeIdxSampler.t) :
  n_mols self = n ->
  exists self' p,
    new_permutation random_permutation self = Done self' p
    /\ p ≡ₚ range 0 n
    /\ n_mols self' = n /\ batch_size self' = batch_size self
    /\ state self' = state self /\ shuffle self' = shuffle self
    /\ permutation self' = permutation self.
Proof.
  intros Hn. unfold new_permutation. msimpl. rewrite Hn.
  destruct (shuffle self) eqn:Hsh.
  - exists self, (range 0 n). split_and!; done.
  - exists self. eexists. split_and!; [reflexivity| |done..]. apply permutes.
  - eexists. eexists. split_and!; [reflexivity| |by destruct self..].
    apply permutes.
Qed.

Lemma clamp_index_lt (len i : Z) :
  1 <= len -> Z.of_nat (clamp_index len i) < len.
Proof. intros H. unfold clamp_index. destruct (i <? 0); lia. Qed.

Lemma getitem_perm (n : Z) (p idx : list Z) :
  1 <= n -> p ≡ₚ range 0 n -> idx <> [] ->
  exists v, getitem p idx = Ok v
            /\ length v = length idx
            /\ Forall (fun x => 0 <= x < n) v.
Proof.
  intros Hn Hp Hidx. unfold getitem. destruct idx as [|i0 idx']; [done|].
  eexists. split; [reflexivity|]. split; [by rewrite length_map|].
  apply Forall_forall. intros x Hx.
  apply list_elem_of_fmap in Hx as (i & -> & _).
  assert (Hlen : length p = Z.to_nat n).
  { rewrite Hp, range_length. f_equal. lia. }
  pose proof (clamp_index_lt (Z.of_nat (length p)) i ltac:(lia)) as Hc.
  destruct (lookup_lt_is_Some_2 p (clamp_index (Z.of_nat (length p)) i))
    as [x Hx]; [lia|].
  rewrite (nth_lookup_Some _ _ _ _ Hx).
  apply list_elem_of_lookup_2 in Hx. rewrite Hp in Hx. by apply range_elem in Hx.
Qed.

(** One call on a valid sampler, in any shuffling mode. *)
Lemma sample_valid (n bs : Z) (self : MoleculeIdxSampler.t) :
  1 <= n -> 1 <= bs -> valid_sampler n bs self ->
  exists self' v,
    sample random_permutation replicate_on_devices self
    = Done self' (replicate_on_devices v)
    /\ valid_sampler n bs self'
    /\ shuffle self' = shuffle self
    /\ state self' = (state self + bs) `mod` n
    /\ Z.of_nat (length v) = bs
    /\ Forall (fun x => 0 <= x < n) v.
Proof.
  intros Hn Hbs (Hnm & Hb & Hp & Hs).
  unfold sample. msimpl.
  set (idx := range (state self) (Z.min (state self + batch_size self) (n_mols self))).
  assert (Hlen : Z.of_nat (length idx) = Z.min bs (n - state self)).
  { subst idx. rewrite range_length, Hnm, Hb. lia. }
  destruct (getitem_perm n (permutation self) idx Hn Hp) as (v1 & Hv1 & Hl1 & Hr1).
  { intros E. rewrite E in Hlen. cbn in Hlen. lia. }
  rewrite Hv1. unfold lift_result at 1.
  destruct (Z.ltb_spec (Z.of_nat (length idx)) (batch_size self)) as [Hw|Hw].
  - destruct (new_permutation_spec n self Hnm)
      as (self1 & p & Hnew & Hp' & Hnm1 & Hb1 & Hs1 & Hsh1 & _).
    rewrite Hnew.
    replace (batch_size (set_permutation self1 p)) with (batch_size self)
      by by destruct self1.
    replace (permutation (set_permutation self1 p)) with p by by destruct self1.
    set (idx2 := range 0 (batch_size self - Z.of_nat (length idx))).
    destruct (getitem_perm n p idx2 Hn Hp') as (v2 & Hv2 & Hl2 & Hr2).
    { intros E. apply (f_equal length) in E. subst idx2.
      rewrite range_length in E. cbn in E. lia. }
    rewrite Hv2. unfold lift_result.
    replace (n_mols (set_permutation self1 p)) with n by by destruct self1.
    destruct (Z.eqb_spec n 0); [lia|].
    eexists. exists (v1 ++ v2). split_and!.
    + cbn [concat]. by rewrite app_nil_r.
    + unfold valid_sampler. destruct self1. cbn in *. subst.
      split_and!; try done; apply Z.mod_pos_bound; lia.
    + destruct self1. cbn in *. congruence.
    + destruct self1. cbn in *. congruence.
    + rewrite length_app, Hl1, Hl2. subst idx2. rewrite range_length. lia.
    + by apply Forall_app.
  - rewrite Hnm. destruct (Z.eqb_spec n 0); [lia|].
    eexists. exists v1. split_and!.
    + cbn [concat]. by rewrite app_nil_r.
    + unfold valid_sampler. destruct self. cbn in *. subst.
      split_and!; try done; apply Z.mod_pos_bound; lia.
    + by destruct self.
    + destruct self. cbn in *. congruence.
    + lia.
    + done.
Qed.

Lemma init_valid (k : key) (n bs : Z) (sh : shuffle_t) :
  1 <= n ->
  exists s0, __init__ random_permutation k n bs sh = Done s0 tt
             /\ valid_sampler n bs s0 /\ shuffle s0 = sh.
Proof.
  intros Hn. unfold __init__. msimpl.
  destruct (new_permutation_spec n (mk k n bs 0 sh []) eq_refl)
    as (self1 & p & Hnew & Hp & Hnm1 & Hb1 & Hs1 & Hsh1 & _).
  rewrite Hnew. eexists. split; [reflexivity|].
  unfold valid_sampler. destruct self1. cbn in *. subst. split_and!; (done || lia).
Qed.

Lemma samples_valid (n bs : Z) (k : nat) : forall self,
  1 <= n -> 1 <= bs -> valid_sampler n bs self ->
  exists self' vs,
    samples random_permutation replicate_on_devices k self
    = Done self' (map replicate_on_devices vs)
    /\ valid_sampler n bs self'
    /\ shuffle self' = shuffle self
    /\ state self' = (state self + Z.of_nat k * bs) `mod` n
    /\ length vs = k
    /\ Forall (fun v => Z.of_nat (length v) = bs
                        /\ Forall (fun x => 0 <= x < n) v) vs.
Proof.
  induction k as [|k IH]; intros self Hn Hbs Hv.
  - exists self, []. cbn. split_and!; try done.
    destruct Hv as (_ & _ & _ & ?). rewrite Z.add_0_r, Z.mod_small; lia.
  - cbn [samples]. msimpl.
    destruct (sample_valid n bs self Hn Hbs Hv)
      as (self1 & v & -> & Hv1 & Hsh1 & Hs1 & Hl & Hr).
    destruct (IH self1 Hn Hbs Hv1) as (self' & vs & -> & Hv' & Hsh' & Hs' & Hlen & Hall).
    exists self', (v :: vs). split_and!; try done.
    + congruence.
    + rewrite Hs', Hs1, Zplus_mod_idemp_l. f_equal. lia.
    + cbn. by rewrite Hlen.
    + by constructor.
Qed.

(** In every shuffling mode, for [n_mols >= 1] and [batch_size >= 1] and a
    [jax.random.permutation] that returns a permutation of its argument:
    after any number of earlier calls, [sample] returns normally exactly
    [batch_size] indices, every one of them a geometry index in
    [0 .. n_mols - 1], and the position of the sampler after [k] calls is
    [k * batch_size mod n_mols]. *)
Theorem sample_returns_valid_indices (k0 : key) (n bs : Z) (sh : shuffle_t)
    (before : nat) :
  1 <= n -> 1 <= bs ->
  exists s0 s1 pre s2 v,
    __init__ random_permutation k0 n bs sh = Done s0 tt
    /\ samples random_permutation replicate_on_devices before s0 = Done s1 pre
    /\ state s1 = (Z.of_nat before * bs) `mod` n
    /\ sample random_permutation replicate_on_devices s1
       = Done s2 (replicate_on_devices v)
    /\ Z.of_nat (length v) = bs
    /\ Forall (fun x => 0 <= x < n) v.
Proof.
  intros Hn Hbs.
  destruct (init_valid k0 n bs sh Hn) as (s0 & Hinit & Hv0 & _).
  destruct (samples_valid n bs before s0 Hn Hbs Hv0)
    as (s1 & pre & Hpre & Hv1 & _ & Hs1 & _).
  destruct (sample_valid n bs s1 Hn Hbs Hv1)
    as (s2 & v & Hrun & _ & _ & _ & Hl & Hr).
  exists s0, s1, (map replicate_on_devices pre), s2, v.
  split_and!; try done.
  rewrite Hs1. f_equal.
  assert (state s0 = 0); [|lia].
  unfold __init__ in Hinit. revert Hinit. msimpl.
  destruct (new_permutation_spec n (mk k0 n bs 0 sh []) eq_refl)
    as (self1 & p & Hnew & _ & _ & _ & Hs & _).
  rewrite Hnew. intros [= <-]. by destruct self1.
Qed.

End IdxSamplerShuffle.

(** Seven geometries in batches of three, reshuffled by reversal at every
    wrap-around, after two calls. *)
Lemma sample_returns_valid_indices_witness :
  exists s0 s1 pre s2 v,
    MoleculeIdxSampler.__init__ (fun _ p => rev p) (PRNGKey 0) 7 3
      MoleculeIdxSampler.always = Done s0 tt
    /\ MoleculeIdxSampler.samples (fun _ p => rev p) (fun v => v) 2 s0 = Done s1 pre
    /\ MoleculeIdxSampler.sample (fun _ p => rev p) (fun v => v) s1 = Done s2 v
    /\ Z.of_nat (length v) = 3.
Proof.
  destruct (sample_returns_valid_indices (fun _ p => rev p) (fun v : list Z => v)
              (fun _ l => Permutation_sym (Permutation_rev l))
              (PRNGKey 0) 7 3 MoleculeIdxSampler.always 2)
    as (s0 & s1 & pre & s2 & v & H0 & H1 & _ & H2 & H3 & _); [lia | lia |].
  exists s0, s1, pre, s2, v. split_and!; done.
Defined.

Section IdxSamplerOnce.
Import MoleculeIdxSampler.
Context {Devices : Type}.
Variable random_permutation : key -> list Z -> list Z.
Variable replicate_on_devices : list Z -> Devices.

Lemma sample_once (k : key) (n bs : Z) (self : MoleculeIdxSampler.t) :
  1 <= n -> 1 <= bs -> shuffled_once random_permutation k n bs self ->
  exists self' v,
    sample random_permutation replicate_on_devices self = Done self' v
    /\ shuffled_once random_permutation k n bs self'.
Proof.
  intros Hn Hbs (Hnm & Hb & Hs & Hsh & Hk & Hp).
  destruct self as [k' nm b s sh p]. cbn in Hnm, Hb, Hs, Hsh, Hk, Hp. subst.
  unfold sample, new_permutation. msimpl.
  cbn [state batch_size n_mols permutation shuffle rng].
  set (idx := range s (Z.min (s + bs) n)).
  assert (Hlen : Z.of_nat (length idx) = Z.min bs (n - s)).
  { subst idx. rewrite range_length. lia. }
  unfold getitem at 1. destruct idx as [|i0 idx'] eqn:Hidx.
  { cbn in Hlen. lia. }
  unfold lift_result at 1.
  destruct (Z.ltb_spec (Z.of_nat (length (i0 :: idx'))) bs) as [Hw|Hw].
  - unfold set_permutation.
    cbn [state batch_size n_mols permutation shuffle rng].
    unfold getitem.
    destruct (range 0 (bs - Z.of_nat (length (i0 :: idx')))) as [|j0 idx2] eqn:Hidx2.
    { apply (f_equal length) in Hidx2. rewrite range_length in Hidx2.
      cbn [length] in Hidx2, Hw. lia. }
    unfold lift_result. cbn [state batch_size n_mols permutation shuffle rng].
    destruct (Z.eqb_spec n 0); [lia|].
    eexists. eexists. split; [reflexivity|].
    unfold shuffled_once, set_state. cbn. split_and!; try done;
      apply Z.mod_pos_bound; lia.
  - cbn [state batch_size n_mols permutation shuffle rng].
    destruct (Z.eqb_spec n 0); [lia|].
    eexists. eexists. split; [reflexivity|].
    unfold shuffled_once, set_state. cbn. split_and!; try done;
      apply Z.mod_pos_bound; lia.
Qed.

(** With [shuffle='once'] the key of the sampler is never advanced, so
    every wrap-around draws the permutation of the construction again: after
    any number of calls the sampler holds the key it was constructed with
    and the permutation drawn from it at construction. *)
Theorem shuffle_once_keeps_permutation (k0 : key) (n bs : Z) (calls : nat) :
  1 <= n -> 1 <= bs ->
  exists s0 s1 vs,
    __init__ random_permutation k0 n bs once = Done s0 tt
    /\ samples random_permutation replicate_on_devices calls s0 = Done s1 vs
    /\ length vs = calls
    /\ rng s1 = k0
    /\ permutation s1 = permutation s0
    /\ permutation s0 = random_permutation (Split k0 2 1) (range 0 n).
Proof.
  intros Hn Hbs.
  assert (Hrun : forall c self,
            shuffled_once random_permutation k0 n bs self ->
            exists self' vs,
              samples random_permutation replicate_on_devices c self
              = Done self' vs
              /\ length vs = c
              /\ shuffled_once random_permutation k0 n bs self').
  { induction c as [|c IH]; intros self Hself.
    - exists self, []. done.
    - cbn [samples]. msimpl.
      destruct (sample_once k0 n bs self Hn Hbs Hself) as (self1 & v & -> & H1).
      destruct (IH self1 H1) as (self' & vs & -> & Hl & H').
      exists self', (v :: vs). cbn. by rewrite Hl. }
  eexists. 
  destruct (Hrun calls (mk k0 n bs 0 once (random_permutation (Split k0 2 1) (range 0 n))))
    as (s1 & vs & Hs & Hl & (_ & _ & _ & _ & Hk & Hp)).
  { unfold shuffled_once. cbn. split_and!; (done || lia). }
  exists s1, vs. split_and!; [reflexivity | exact Hs | done | done | done | done].
Qed.

End IdxSamplerOnce.

(** Five geometries in batches of two, shuffled once by reversal, after
    seven calls. *)
Lemma shuffle_once_keeps_permutation_witness :
  exists s0 s1 vs,
    MoleculeIdxSampler.__init__ (fun _ p => rev p) (PRNGKey 0) 5 2
      MoleculeIdxSampler.once = Done s0 tt
    /\ MoleculeIdxSampler.samples (fun _ p => rev p) (fun v => v) 7 s0 = Done s1 vs
    /\ MoleculeIdxSampler.permutation s1 = [4; 3; 2; 1; 0].
Proof.
  destruct (shuffle_once_keeps_permutation (fun _ p => rev p) (fun v : list Z => v)
              (PRNGKey 0) 5 2 7)
    as (s0 & s1 & vs & H0 & H1 & _ & _ & H2 & H3); [lia | lia |].
  exists s0, s1, vs. split_and!; [done | done |].
  rewrite H2, H3. reflexivity.
Defined.

(** * [crossover_parameter], [clean_force], [diffs_to_nearest_nuc] *)

Local Open Scope R_scope.

Section CleanForceShape.
Variable eps : R.
Hypothesis eps_pos : 0 < eps.


(** One particle away from its nearest nucleus, [tau > 0]: the stabilised
    force is the given one scaled by a factor between 0 and 1. *)
Lemma clean_force_at_shrinks (t fx fy fz zx zy zz Zc : R) :
  0 < t -> 0 < zx * zx + zy * zy + zz * zz ->
  exists c,
    0 <= c <= 1
    /\ clean_force_at eps (Fin t) (Fin Zc) (Rvec fx fy fz)
         (Rvec zx zy zz, Fin (zx * zx + zy * zy + zz * zz))
       = Rvec (c * fx) (c * fy) (c * fz).
Proof.
  intros Ht Hz. unfold clean_force_at.
  destruct (crossover_fin eps eps_pos fx fy fz zx zy zz Zc Hz) as (a & -> & Ha).
  cbv zeta. unfold Rvec, vnorm, clip_min. cbn [vmul vsum vscale snd].
  xfin.
  set (f2 := fx * fx + fy * fy + fz * fz).
  assert (Hf2 : 0 <= f2) by apply sq_sum_nonneg.
  assert (Hav : 0 <= a * f2 * t).
  { apply Rmult_le_pos; [apply Rmult_le_pos|]; lra. }
  rewrite (xsqrt_fin (1 + 2 * (a * f2 * t))) by lra.
  set (s := sqrt (1 + 2 * (a * f2 * t))).
  assert (Hs : 1 <= s).
  { unfold s. rewrite <- sqrt_1 at 1. apply sqrt_le_1_alt. lra. }
  xfin. rewrite (xdiv_fin 2 (s + 1)) by lra.
  set (factor := 2 / (s + 1)).
  assert (Hfac : 0 < factor <= 1).
  { unfold factor. split.
    - apply Rdiv_lt_0_compat; lra.
    - apply Rmult_le_reg_r with (s + 1); [lra|].
      replace (2 / (s + 1) * (s + 1)) with 2 by (field; lra). lra. }
  xfin.
  rewrite (xsqrt_fin (factor * fx * (factor * fx) + factor * fy * (factor * fy)
                      + factor * fz * (factor * fz))) by apply sq_sum_nonneg.
  fold (Rnorm (factor * fx) (factor * fy) (factor * fz)).
  set (n' := Rnorm (factor * fx) (factor * fy) (factor * fz)).
  assert (Hn' : 0 <= n') by apply Rnorm_nonneg.
  rewrite xmax_fin. xfin.
  assert (Hm : 0 < Rmax n' eps).
  { pose proof (Rmax_r n' eps). lra. }
  rewrite xsqrt_fin by lra.
  fold (Rnorm zx zy zz). set (d := Rnorm zx zy zz).
  assert (Hd : 0 <= d) by apply Rnorm_nonneg.
  assert (Htm : 0 < t * Rmax n' eps) by (apply Rmult_lt_0_compat; lra).
  rewrite xdiv_fin by lra. rewrite xmin_fin. xfin.
  set (q := d / (t * Rmax n' eps)).
  assert (Hq : 0 <= q).
  { unfold q, Rdiv. apply Rmult_le_pos; [done|].
    left. by apply Rinv_0_lt_compat. }
  set (nf := Rmin 1 q).
  assert (Hnf : 0 <= nf <= 1).
  { unfold nf. split; [apply Rmin_glb; lra|apply Rmin_l]. }
  exists (nf * factor). split.
  - split; [apply Rmult_le_pos; lra|].
    replace 1 with (1 * 1) by ring. apply Rmult_le_compat; lra.
  - unfold Rvec.
    replace (nf * factor * fx) with (nf * (factor * fx)) by ring.
    replace (nf * factor * fy) with (nf * (factor * fy)) by ring.
    replace (nf * factor * fz) with (nf * (factor * fz)) by ring.
    reflexivity.
Qed.

(** One particle away from its nearest nucleus, [tau = 0]: the force is
    returned as it is; the division by [tau * |force|] yields [+inf], which
    the minimum with 1 discards. *)
Lemma clean_force_at_tau_zero (fx fy fz zx zy zz Zc : R) :
  0 < zx * zx + zy * zy + zz * zz ->
  clean_force_at eps (Fin 0) (Fin Zc) (Rvec fx fy fz)
    (Rvec zx zy zz, Fin (zx * zx + zy * zy + zz * zz))
  = Rvec fx fy fz.
Proof.
  intros Hz. unfold clean_force_at.
  destruct (crossover_fin eps eps_pos fx fy fz zx zy zz Zc Hz) as (a & -> & Ha).
  cbv zeta. unfold Rvec, vnorm, clip_min. cbn [vmul vsum vscale snd].
  xfin.
  replace (1 + 2 * (a * (fx * fx + fy * fy + fz * fz) * 0)) with 1 by ring.
  rewrite (xsqrt_fin 1) by lra. rewrite sqrt_1. xfin.
  rewrite (xdiv_fin 2 (1 + 1)) by lra.
  replace (2 / (1 + 1)) with 1 by field.
  xfin.
  rewrite (xsqrt_fin (1 * fx * (1 * fx) + 1 * fy * (1 * fy) + 1 * fz * (1 * fz)))
    by apply sq_sum_nonneg.
  rewrite xmax_fin. xfin. rewrite Rmult_0_l.
  rewrite (xsqrt_fin (zx * zx + zy * zy + zz * zz)) by lra.
  assert (Hd : 0 < sqrt (zx * zx + zy * zy + zz * zz)) by by apply sqrt_lt_R0.
  cbn [xdiv]. unfold Rzero, Rneg.
  destruct (Req_dec_T 0 0) as [_|?]; [|done].
  destruct (Req_dec_T (sqrt (zx * zx + zy * zy + zz * zz)) 0) as [E|_]; [lra|].
  destruct (Rlt_dec (sqrt (zx * zx + zy * zy + zz * zz)) 0) as [?|_]; [lra|].
  cbn [xinf xmin xltb]. xfin.
  replace (1 * (1 * fx)) with fx by ring.
  replace (1 * (1 * fy)) with fy by ring.
  replace (1 * (1 * fz)) with fz by ring.
  reflexivity.
Qed.

(** [clean_force] on a well-posed input applies the body to every particle
    with a row of positive squared distance. *)
Lemma clean_force_pointwise (t : R) (Q : vec3 -> vec3 -> Prop)
    (force : list (list vec3)) (conf : PhysicalConfiguration)
    (charges : list xreal) :
  (forall fx fy fz zx zy zz Zc,
     0 < zx * zx + zy * zy + zz * zz ->
     Q (Rvec fx fy fz)
       (clean_force_at eps (Fin t) (Fin Zc) (Rvec fx fy fz)
          (Rvec zx zy zz, Fin (zx * zx + zy * zy + zz * zz)))) ->
  charges <> [] -> Forall finite charges ->
  well_posed force conf ->
  exists out,
    clean_force eps force conf charges (Fin t) = Ok out
    /\ Forall2 (Forall2 Q) force out.
Proof.
  intros HQ Hcne Hcfin Hwp. unfold clean_force, well_posed in *.
  cbv [mbind result_bind rbind].
  induction Hwp as [|fw rw Rw force rs Rs (HRne & HRfin & Hrow) _ IH].
  - exists []. split; [done|constructor].
  - destruct IH as (out & Hout & Hall').
    destruct (finite_vecs Rw HRfin) as (cs & ->).
    assert (Hcs : cs <> []) by (by destruct cs).
    assert (Hw : exists nw ow,
               diffs_to_nearest_nuc rw (map Rv cs) = Ok nw
               /\ zip_with_r (fun f zi =>
                     charge ← charge_at charges zi.2;
                     Ok (clean_force_at eps (Fin t) charge f zi.1)) fw nw
                  = Ok ow
               /\ Forall2 Q fw ow).
    { clear Hout Hall' out. 
      induction Hrow as [|f r fw rw (Hf & Hr & Hoff) _ (nw & ow & Hn & Ho & Hall)].
      - exists [], []. done.
      - destruct Hf as (fx & fy & fz & ->). destruct Hr as (rx & ry & rz & ->).
        destruct (nearest_particle rx ry rz cs Hcs)
          as (idx & zx & zy & zz & Hrow' & Hpos & _).
        { intros c Hc. rewrite Forall_forall in Hoff. apply Hoff.
          change (map Rv cs) with (Rv <$> cs). by apply list_elem_of_fmap_2. }
        destruct (charge_at_finite charges idx Hcne Hcfin) as (Zc & HZc).
        eexists (_ :: nw), (_ :: ow).
        split_and!.
        + unfold diffs_to_nearest_nuc in *. cbn [pairwise_diffs map map_r].
          unfold pairwise_diffs in Hn. cbv zeta in Hrow'.
          cbv [mbind result_bind rbind] in *. rewrite Hrow', Hn. reflexivity.
        + cbn [zip_with_r snd fst]. rewrite HZc.
          cbv [mbind result_bind rbind] in *. rewrite Ho. reflexivity.
        + constructor; [|done]. by apply HQ. }
    destruct Hw as (nw & ow & Hn & Ho & Hall).
    cbv [mbind result_bind rbind] in Ho.
    cbn [zip_with_r]. cbv [mbind result_bind rbind]. rewrite Hn.
    destruct (zip_with_r diffs_to_nearest_nuc rs Rs) as [nearest|e]; [|done].
    cbn [zip_with_r]. cbv [mbind result_bind rbind]. rewrite Ho, Hout.
    exists (ow :: out). split; [done|]. by constructor.
Qed.


(** For [tau = 0] and a well-posed input [clean_force] returns the forces
    unchanged. *)
Theorem clean_force_tau_zero (force : list (list vec3))
    (conf : PhysicalConfiguration) (charges : list xreal) :
  charges <> [] -> Forall finite charges ->
  well_posed force conf ->
  clean_force eps force conf charges (Fin 0) = Ok force.
Proof.
  intros Hcne Hcfin Hwp.
  destruct (clean_force_pointwise 0 (fun f o => o = f) force conf charges)
    as (out & -> & Hall); try done.
  { intros. by apply clean_force_at_tau_zero. }
  f_equal. symmetry. clear Hwp.
  induction Hall as [|fw ow force out Hrow _ IH]; [done|]. f_equal; [|done].
  clear IH. induction Hrow as [|f o fw ow -> _ IH]; [done|]. by f_equal.
Qed.

End CleanForceShape.

(** [diffs_to_nearest_nuc] on finite positions: with at least one nucleus
    it returns, for every particle, the difference vector to a nucleus that
    no other nucleus is nearer than, the square of that distance, and the
    index of that nucleus; without nuclei the [argmin] over an empty axis
    raises [ValueError]. *)
Theorem diffs_to_nearest_nuc_nearest (rs cs : list (R * R * R)) :
  (cs <> [] ->
   exists out,
     diffs_to_nearest_nuc (map Rv rs) (map Rv cs) = Ok out
     /\ Forall2 (nearest_row cs) rs out)
  /\ (rs <> [] -> diffs_to_nearest_nuc (map Rv rs) [] = Raise ValueError).
Proof.
  split.
  - intros Hcs. unfold diffs_to_nearest_nuc, pairwise_diffs.
    induction rs as [|[[rx ry] rz] rs (out & IH & Hall)].
    + exists []. split; [done|constructor].
    + cbn [map map_r]. cbv [mbind result_bind rbind] in *.
      set (d2 := fun c : R * R * R =>
                   (rx + - c.1.1) * (rx + - c.1.1) + (ry + - c.1.2) * (ry + - c.1.2)
                   + (rz + - c.2) * (rz + - c.2)).
      set (g := fun c : R * R * R =>
                  (Rvec (rx + - c.1.1) (ry + - c.1.2) (rz + - c.2), Fin (d2 c))).
      set (zi := map _ (map Rv cs)).
      assert (Hzi : zi = map g cs).
      { unfold zi. rewrite map_map. apply map_ext. by intros [[cx cy] cz]. }
      assert (Hsnd : map snd zi = map Fin (map d2 cs)).
      { rewrite Hzi, !map_map. done. }
      destruct (argmin_spec (map d2 cs)) as (idx & v & Harg & Hv & Hmin).
      { by destruct cs. }
      rewrite Hsnd, Harg.
      change (map d2 cs) with (d2 <$> cs) in Hv.
      rewrite list_lookup_fmap in Hv.
      destruct (cs !! idx) as [c|] eqn:Hc; [|done]. cbn in Hv. injection Hv as <-.
      rewrite Hzi. change (map g cs) with (g <$> cs).
      rewrite list_lookup_fmap, Hc. cbn [fmap option_fmap option_map].
      rewrite IH. eexists. split; [reflexivity|]. constructor; [|done].
      exists c. cbn [fst snd]. split_and!; [done|reflexivity|].
      intros c' Hc'. unfold Rnorm. apply sqrt_le_1_alt.
      assert (Hle : d2 c <= d2 c').
      { apply Hmin. change (map d2 cs) with (d2 <$> cs). by apply list_elem_of_fmap_2. }
      unfold d2 in Hle. unfold Rminus. exact Hle.
  - intros Hrs. destruct rs as [|r rs]; [done|]. reflexivity.
Qed.

(** Two nuclei on the first axis and a particle between them, nearer to
    the second. *)
Lemma diffs_to_nearest_nuc_nearest_witness :
  exists out,
    diffs_to_nearest_nuc (map Rv [(3, 0, 0)]) (map Rv [(0, 0, 0); (4, 0, 0)])
    = Ok out
    /\ Forall2 (nearest_row [(0, 0, 0); (4, 0, 0)]) [(3, 0, 0)] out.
Proof.
  destruct (diffs_to_nearest_nuc_nearest [(3, 0, 0)] [(0, 0, 0); (4, 0, 0)])
    as [H _].
  apply H. done.
Defined.



(** The same particle with [tau = 0]. *)
Lemma clean_force_tau_zero_witness :
  clean_force (/ 8388608) [[Rvec 1 0 0]]
    (mk_conf [[Rvec 0 0 0]] [[Rvec 2 0 0]] [0%Z]) [Fin 1] (Fin 0)
  = Ok [[Rvec 1 0 0]].
Proof.
  apply (clean_force_tau_zero (/ 8388608) ltac:(lra) [[Rvec 1 0 0]]
           (mk_conf [[Rvec 0 0 0]] [[Rvec 2 0 0]] [0%Z]) [Fin 1]).
  - done.
  - repeat constructor. by exists 1.
  - unfold well_posed. cbn [pc_r pc_R].
    repeat constructor; try done; try (by eexists _, _, _).
    intros H. apply Rvec_inj in H. lra.
Defined.

Local Close Scope R_scope.

(** * The Metropolis and Langevin movers *)

Lemma zip_with_r_ok {A B C} (f : A -> B -> result C) (la : list A) :
  forall lb, length la = length lb ->
             (forall a b, a ∈ la -> b ∈ lb -> exists c, f a b = Ok c) ->
             exists lc, zip_with_r f la lb = Ok lc.
Proof.
  induction la as [|a la IH]; intros [|b lb] Hlen Hf; cbn in Hlen; try done.
  - by exists [].
  - destruct (Hf a b) as [c Hc]; [left|left|].
    destruct (IH lb) as [cs Hcs]; [lia| |].
    { intros a' b' Ha Hb. apply Hf; by right. }
    exists (c :: cs). cbn. rsimpl. by rewrite Hc, Hcs.
Qed.

Lemma where_rows_lookup {A} (accepted : list bool) :
  forall (xp x out : list A),
    where_rows accepted xp x = Ok out ->
    length out = length accepted
    /\ length xp = length accepted
    /\ length x = length accepted
    /\ forall i o, out !! i = Some o ->
         exists (a : bool) p y, accepted !! i = Some a /\ xp !! i = Some p
                       /\ x !! i = Some y /\ o = (if a then p else y).
Proof.
  induction accepted as [|a accepted IH]; intros [|p xp] [|y x] out H;
    cbn in H; try done.
  - injection H as <-. split_and!; try done.
  - rsimpl in H. destruct (where_rows accepted xp x) as [rest|] eqn:Hr; [|done].
    injection H as <-. destruct (IH _ _ _ Hr) as (H1 & H2 & H3 & H4).
    cbn [length]. split_and!; try lia.
    intros [|i] o Hi; cbn in Hi.
    + injection Hi as <-. by exists a, p, y.
    + by apply H4.
Qed.

Lemma where_rows_ok {A} (accepted : list bool) :
  forall (xp x : list A),
    length xp = length accepted -> length x = length accepted ->
    exists out, where_rows accepted xp x = Ok out.
Proof.
  induction accepted as [|a accepted IH]; intros [|p xp] [|y x] H1 H2;
    cbn in H1, H2; try done.
  - by exists [].
  - destruct (IH xp x) as [out Hout]; [lia|lia|].
    eexists. cbn. rsimpl. rewrite Hout. reflexivity.
Qed.

Lemma zip_with_r_lookup {A B C} (f : A -> B -> result C) (la : list A) :
  forall lb lc, zip_with_r f la lb = Ok lc ->
    length lb = length la /\ length lc = length la
    /\ forall i a, la !! i = Some a ->
         exists b c, lb !! i = Some b /\ lc !! i = Some c /\ f a b = Ok c.
Proof.
  induction la as [|a la IH]; intros [|b lb] lc H; cbn in H; try done.
  - injection H as <-. split_and!; try done.
  - rsimpl in H. destruct (f a b) as [c|] eqn:Hc; [|done].
    destruct (zip_with_r f la lb) as [cs|] eqn:Hcs; [|done].
    injection H as <-. destruct (IH _ _ Hcs) as (H1 & H2 & H3).
    cbn [length]. split_and!; try lia.
    intros [|i] a' Hi; cbn in Hi.
    + injection Hi as <-. by exists b, c.
    + by apply H3.
Qed.

Section MoverFacts.
Context {Params : Type}.
Variable wf : string -> Params -> list vec3 -> list vec3 -> Z -> xreal * xreal.
Variable grad_log_wf : string -> Params -> list vec3 -> list vec3 -> list vec3.
Variable random_normal : key -> nat * nat -> nat -> nat -> vec3.
Variable random_uniform : key -> nat -> nat -> xreal.
Variable mean_self_distance : list (list vec3) -> xreal.
Variable init_sample : string -> key -> list vec3 -> nat -> list (list vec3).
Variable mol_charges : string -> list xreal.
Variable eps : R.

Local Abbreviation update := (_update wf grad_log_wf mol_charges eps).
Local Abbreviation body :=
  (MetropolisSampler_sample_body wf grad_log_wf random_normal random_uniform
     mean_self_distance mol_charges eps).

(** [_update] replaces ['psi'] (and ['force'] for the Langevin mover) and
    nothing else. *)
Lemma update_frame (self : obj) (state state' : State) (params : Params)
    (R : list vec3) :
  update self state params R = Ok state' ->
  st_r state' = st_r state /\ st_age state' = st_age state
  /\ st_tau state' = st_tau state /\ st_step state' = st_step state
  /\ st_log_weight state' = st_log_weight state
  /\ length (psi_log (st_psi state')) = length (st_r state)
  /\ length (psi_sign (st_psi state')) = length (st_r state)
  /\ (resolve_mover (mro self) = Ok LangevinSampler \/
      st_force state' = st_force state).
Proof.
  unfold _update. rsimpl.
  destruct (resolve_mover (mro self)) as [kind|] eqn:Hk; [|done].
  assert (HM : MetropolisSampler__update wf self state params R = Ok state' ->
               st_r state' = st_r state /\ st_age state' = st_age state
               /\ st_tau state' = st_tau state /\ st_step state' = st_step state
               /\ st_log_weight state' = st_log_weight state
               /\ length (psi_log (st_psi state')) = length (st_r state)
               /\ length (psi_sign (st_psi state')) = length (st_r state)
               /\ st_force state' = st_force state).
  { unfold MetropolisSampler__update, phys_conf. rsimpl.
    destruct (attr_ref self "wf"); [|done].
    destruct (resolve (mro self) a_phys_conf); [|done].
    intros [= <-]. cbn.
    rewrite !length_map, length_zip_with, length_zip, !repeat_length.
    split_and!; (done || lia). }
  destruct kind; try (intros H; destruct (HM H) as (?&?&?&?&?&?&?&?);
                      split_and!; try done; by right).
  unfold LangevinSampler__update, phys_conf. rsimpl.
  destruct (attr_ref self "wf"); [|done].
  destruct (resolve (mro self) a_phys_conf); [|done].
  destruct (attr_ref self "hamil"); [|done].
  destruct (clean_force _ _ _ _ _); [|done].
  intros [= <-]. cbn. rewrite !length_map. split_and!; try done. by left.
Qed.

(** The acceptance flags before the age override:
    [log_prob > jnp.log(jax.random.uniform(rng_acc, log_prob.shape))] *)
Local Abbreviation draw rng log_prob :=
  (imap (fun i lp => xgtb lp (xlog (random_uniform (Split rng 2 1)
                                      (length log_prob) i))) log_prob).

(** What a successful [MetropolisSampler.sample] computed on the way. *)
Lemma body_inv (self : obj) (rng : key) (state state' : State)
    (params : Params) (R : list vec3) (stats : Stats) :
  body self rng state params R = Ok (state', stats) ->
  exists kind prop log_prob max_age accepted target,
    resolve_mover (mro self) = Ok kind
    /\ st_age prop = map (fun _ => 0) (st_age state)
    /\ st_tau prop = st_tau state
    /\ length (psi_log (st_psi prop)) = length (st_r prop)
    /\ match kind with
       | LangevinSampler => LangevinSampler__acc_log_prob state prop
       | _ => MetropolisSampler__acc_log_prob state prop
       end = Ok log_prob
    /\ getattr self "max_age" = Ok max_age
    /\ (if truthy_val max_age
        then zip_with_r (fun a age => old ← age_ge age max_age; Ok (a || old))
               (draw rng log_prob) (st_age state)
        else Ok (draw rng log_prob)) = Ok accepted
    /\ getattr self "target_acceptance" = Ok target
    /\ (if truthy_val target
        then t ← as_float target;
             Ok (xdiv (st_tau state)
                   (xdiv t (xmax (xdiv (Fin (INR (length (List.filter
                                                  (fun a : bool => a) accepted))))
                                       (Fin (INR (length accepted))))
                                 (Fin (5 / 100)))))
        else Ok (st_tau state)) = Ok (st_tau state')
    /\ where_rows accepted (st_r prop) (st_r state) = Ok (st_r state')
    /\ where_rows accepted (psi_sign (st_psi prop)) (psi_sign (st_psi state))
       = Ok (psi_sign (st_psi state'))
    /\ where_rows accepted (psi_log (st_psi prop)) (psi_log (st_psi state))
       = Ok (psi_log (st_psi state'))
    /\ where_rows accepted (map (fun _ => 0) (st_age state))
         (map (fun a => a + 1) (st_age state)) = Ok (st_age state')
    /\ st_step state' = st_step state
    /\ st_log_weight state' = st_log_weight state
    /\ stats !! "sampling/tau" = Some (st_tau state')
    /\ stats !! "sampling/acceptance"
       = Some (xdiv (Fin (INR (length (List.filter (fun a : bool => a) accepted))))
                    (Fin (INR (length accepted)))).
Proof.
  unfold MetropolisSampler_sample_body. cbv zeta. rsimpl. intros H.
  repeat match type of H with
  | match ?x with Ok _ => _ | Raise _ => _ end = Ok _ =>
      let E := fresh "E" in destruct x eqn:E; [|discriminate H]
  end.
  injection H as <- <-.
  destruct (update_frame _ _ _ _ _ E2) as (Hr & Hage & Htau & Hstep & Hlw & Hl & _).
  cbn [st_r st_psi st_age st_tau st_force st_step st_log_weight psi_sign psi_log] in *.
  rewrite Htau in E7. rewrite Hage in E11.
  eexists _, _, _, _, _, _. split_and!; try eassumption; try done.
  congruence.
Qed.

(** A proposal whose log-amplitude is NaN has a NaN acceptance
    log-probability, for both movers. *)
Lemma acc_log_prob_nan (kind : class) (state prop : State) (log_prob : list xreal) :
  match kind with
  | LangevinSampler => LangevinSampler__acc_log_prob state prop
  | _ => MetropolisSampler__acc_log_prob state prop
  end = Ok log_prob ->
  length log_prob = length (psi_log (st_psi prop))
  /\ length (psi_log (st_psi state)) = length (psi_log (st_psi prop))
  /\ forall i p, psi_log (st_psi prop) !! i = Some p -> isnan p = true ->
                 log_prob !! i = Some NaN.
Proof.
  assert (HM : forall lp, MetropolisSampler__acc_log_prob state prop = Ok lp ->
            length lp = length (psi_log (st_psi prop))
            /\ length (psi_log (st_psi state)) = length (psi_log (st_psi prop))
            /\ forall i p, psi_log (st_psi prop) !! i = Some p -> isnan p = true ->
                           lp !! i = Some NaN).
  { unfold MetropolisSampler__acc_log_prob. intros lp H.
    apply zip_with_r_lookup in H as (H1 & H2 & H3).
    split_and!; [done|done|].
    intros i p Hi Hp. destruct (H3 i p Hi) as (s & l & Hs & Hl & Heq).
    rewrite Hl. f_equal. injection Heq as <-. by destruct p. }
  destruct kind; try apply HM.
  unfold LangevinSampler__acc_log_prob. rsimpl. intros H.
  destruct (getkey (st_force state)) as [f|]; [|done].
  destruct (getkey (st_force prop)) as [f'|]; [|done].
  destruct (zip_with_r _ f f') as [fs|]; [|done].
  destruct (zip_with_r _ (st_r state) (st_r prop)) as [rs|]; [|done].
  destruct (zip_with_r _ fs rs) as [g|]; [|done].
  destruct (MetropolisSampler__acc_log_prob state prop) as [lp|] eqn:E; [|done].
  destruct (HM lp eq_refl) as (Hlen & Hlen' & Hnan).
  apply zip_with_r_lookup in H as (H1 & H2 & H3).
  split_and!; [lia | done |].
  intros i p Hi Hp. specialize (Hnan i p Hi Hp).
  destruct (lookup_lt_is_Some_2 g i) as [gi Hgi].
  { apply lookup_lt_Some in Hnan. lia. }
  destruct (H3 i gi Hgi) as (b & c & Hb & Hc & Heq).
  rewrite Hc. f_equal. rewrite Hnan in Hb. injection Hb as <-.
  injection Heq as <-. by destruct gi.
Qed.

Lemma any_isnan_false (l : list xreal) :
  any_isnan l = false <-> forall i x, l !! i = Some x -> isnan x = false.
Proof.
  unfold any_isnan. split.
  - intros H i x Hi. destruct (isnan x) eqn:Hx; [|done].
    assert (existsb isnan l = true); [|congruence].
    apply existsb_exists. exists x. split; [|done].
    apply list_elem_of_In. by eapply list_elem_of_lookup_2.
  - intros H. destruct (existsb isnan l) eqn:E; [|done].
    apply existsb_exists in E as (x & Hx & Hn).
    apply list_elem_of_In, list_elem_of_lookup in Hx as [i Hi].
    by rewrite (H i x Hi) in Hn.
Qed.

Lemma xgtb_NaN_l (b : xreal) : xgtb NaN b = false.
Proof. by destruct b. Qed.

(** A step of either mover on a sampler without [max_age] lets no NaN
    log-amplitude into the walker state. *)
Lemma body_keeps_nan_free (self : obj) (rng : key)
    (state state' : State) (params : Params) (R : list vec3) (stats : Stats)
    (max_age : pyval) :
  getattr self "max_age" = Ok max_age ->
  truthy_val max_age = false ->
  any_isnan (psi_log (st_psi state)) = false ->
  body self rng state params R = Ok (state', stats) ->
  any_isnan (psi_log (st_psi state')) = false.
Proof.
  intros Hattr Hfalsy Hclean Hrun.
  destruct (body_inv _ _ _ _ _ _ _ Hrun)
    as (kind & prop & log_prob & max_age' & accepted & target & _ & _ & _ & _
        & Hlp & Hattr' & Hacc & _ & _ & _ & _ & Hlog & _).
  rewrite Hattr in Hattr'. injection Hattr' as <-. rewrite Hfalsy in Hacc.
  injection Hacc as <-.
  destruct (acc_log_prob_nan _ _ _ _ Hlp) as (_ & _ & Hnan).
  apply where_rows_lookup in Hlog as (_ & _ & _ & Hsel).
  rewrite any_isnan_false in Hclean. apply any_isnan_false.
  intros i o Ho. destruct (Hsel i o Ho) as (a & p & y & Ha & Hp & Hy & ->).
  destruct a; [|by eapply Hclean].
  destruct (isnan p) eqn:Hnp; [|done].
  rewrite list_lookup_imap, (Hnan i p Hp Hnp) in Ha. cbn in Ha.
  by rewrite xgtb_NaN_l in Ha.
Qed.

(** With [max_age = m > 0] no walker is older than [m] after a step of
    either mover. *)
Lemma body_bounds_age (self : obj) (rng : key)
    (state state' : State) (params : Params) (R : list vec3) (stats : Stats)
    (m : Z) :
  getattr self "max_age" = Ok (PyInt m) ->
  0 < m ->
  body self rng state params R = Ok (state', stats) ->
  length (st_age state') = length (st_age state)
  /\ Forall (fun a => a <= m) (st_age state').
Proof.
  intros Hattr Hm Hrun.
  destruct (body_inv _ _ _ _ _ _ _ Hrun)
    as (kind & prop & log_prob & max_age' & accepted & target & _ & _ & _ & _
        & _ & Hattr' & Hacc & _ & _ & _ & _ & _ & Hage & _).
  rewrite Hattr in Hattr'. injection Hattr' as <-.
  cbn [truthy_val] in Hacc.
  destruct (Z.eqb_spec m 0) as [->|_]; [lia|]. cbn [negb] in Hacc.
  apply zip_with_r_lookup in Hacc as (Hl1 & Hl2 & Hflag).
  apply where_rows_lookup in Hage as (Hl3 & Hl4 & _ & Hsel).
  split; [by rewrite Hl3, <- Hl4, length_map|].
  apply Forall_forall. intros o Ho.
  apply list_elem_of_lookup in Ho as [i Ho].
  destruct (Hsel i o Ho) as (a & p & y & Ha & Hp & Hy & ->).
  rewrite list_lookup_fmap in Hp, Hy.
  destruct (st_age state !! i) as [age|] eqn:Hagei; [|done].
  cbn in Hp, Hy. injection Hp as <-. injection Hy as <-.
  destruct a; [lia|].
  destruct (lookup_lt_is_Some_2 (draw rng log_prob) i) as [d Hd].
  { apply lookup_lt_Some in Hagei. lia. }
  destruct (Hflag i d Hd) as (age' & c & Hage' & Hc & Heq).
  rewrite Hagei in Hage'. injection Hage' as <-.
  rewrite Ha in Hc. injection Hc as <-.
  cbn in Heq. injection Heq as Heq.
  apply orb_false_iff in Heq as [_ Heq]. apply Z.leb_gt in Heq. lia.
Qed.

Lemma length_normal_like (rng : key) (r : list (list vec3)) :
  length (normal_like random_normal rng r) = length r.
Proof. unfold normal_like. by rewrite length_imap. Qed.

(** [MetropolisSampler.sample] returns normally on a non-empty batch of
    walkers whose arrays agree in their leading axis. *)
Lemma metropolis_step_returns (self : obj) (rng : key) (state : State)
    (params : Params) (R : list vec3) (w : string) (c : class)
    (max_age target : pyval) :
  resolve_mover (mro self) = Ok MetropolisSampler ->
  WALKER_STATE self = Ok ["r"; "psi"; "age"]%string ->
  resolve (mro self) a_phys_conf = Ok c ->
  attr_ref self "wf" = Ok w ->
  getattr self "max_age" = Ok max_age ->
  (max_age = PyNone \/ exists m, max_age = PyInt m) ->
  getattr self "target_acceptance" = Ok target ->
  (target = PyNone \/ exists x, target = PyFloat x) ->
  st_r state <> [] ->
  length (psi_sign (st_psi state)) = length (st_r state) ->
  length (psi_log (st_psi state)) = length (st_r state) ->
  length (st_age state) = length (st_r state) ->
  exists state' stats, body self rng state params R = Ok (state', stats).
Proof.
  intros Hk Hws Hpc Hwf Hma Hma' Hta Hta' Hne Hl1 Hl2 Hl3.
  unfold MetropolisSampler_sample_body. cbv zeta. rsimpl.
  rewrite Hk, Hws, Hma, Hta. unfold MetropolisSampler__proposal.
  change (in_list "force" ["r"; "psi"; "age"]) with false. cbv iota.
  set (r' := zip_with _ (st_r state) _).
  assert (Hr' : length r' = length (st_r state)).
  { subst r'. rewrite length_zip_with, length_normal_like. lia. }
  set (prop0 := mk_state r' _ _ _ _ _ _).
  destruct (update self prop0 params R) as [prop|e] eqn:Hup.
  2:{ exfalso. revert Hup. unfold _update, MetropolisSampler__update, phys_conf.
      rsimpl. by rewrite Hk, Hwf, Hpc. }
  destruct (update_frame _ _ _ _ _ Hup) as (Hpr & Hpage & Hptau & _ & _ & Hpl & Hps & _).
  subst prop0. cbn [st_r st_age st_tau] in Hpr, Hpage, Hptau, Hpl, Hps.
  destruct (zip_with_r_ok (fun p s => Ok (xmul (Fin 2) (xsub p s)))
              (psi_log (st_psi prop)) (psi_log (st_psi state))) as [lp Hlp].
  { lia. }
  { intros. by eexists. }
  unfold MetropolisSampler__acc_log_prob. rewrite Hlp.
  apply zip_with_r_lookup in Hlp as (_ & Hlplen & _).
  assert (Hacc : exists accepted,
            (if truthy_val max_age
             then zip_with_r (fun a age => match age_ge age max_age with
                                           | Ok a2 => Ok (a || a2)
                                           | Raise e0 => Raise e0
                                           end)
                    (draw rng lp) (st_age state)
             else Ok (draw rng lp)) = Ok accepted
            /\ length accepted = length (st_r state)).
  { destruct Hma' as [->|[m ->]].
    - cbn. eexists. split; [reflexivity|]. rewrite length_imap. lia.
    - cbn [truthy_val]. destruct (negb (m =? 0)).
      + destruct (zip_with_r_ok (fun a age => match age_ge age (PyInt m) with
                                              | Ok a2 => Ok (a || a2)
                                              | Raise e0 => Raise e0
                                              end)
                    (draw rng lp) (st_age state)) as [acc Hacc].
        { rewrite length_imap. lia. }
        { intros. cbn. by eexists. }
        exists acc. split; [done|].
        apply zip_with_r_lookup in Hacc as (_ & -> & _).
        rewrite length_imap. lia.
      + eexists. split; [reflexivity|]. rewrite length_imap. lia. }
  destruct Hacc as (accepted & -> & Hacclen).
  assert (Htau : exists tau,
            (if truthy_val target
             then match as_float target with
                  | Ok a2 =>
                      Ok (xdiv (st_tau prop)
                            (xdiv a2
                               (xmax (xdiv (Fin (INR (length (List.filter
                                                       (fun a3 : bool => a3) accepted))))
                                           (Fin (INR (length accepted))))
                                     (Fin (5 / 100)))))
                  | Raise e0 => Raise e0
                  end
             else Ok (st_tau prop)) = Ok tau).
  { destruct Hta' as [->|[x ->]]; [by eexists|].
    cbn [as_float]. destruct (truthy_val _); by eexists. }
  destruct Htau as (tau & ->).
  destruct (where_rows_ok accepted (st_r prop) (st_r state)) as [o1 ->];
    [rewrite Hpr; lia | lia |].
  destruct (where_rows_ok accepted (psi_sign (st_psi prop))
              (psi_sign (st_psi state))) as [o2 ->]; [lia | lia |].
  destruct (where_rows_ok accepted (psi_log (st_psi prop))
              (psi_log (st_psi state))) as [o3 ->]; [lia | lia |].
  destruct (where_rows_ok accepted (st_age prop)
              (map (fun a => a + 1) (st_age state))) as [o4 Ho4].
  { rewrite Hpage, length_map. lia. }
  { rewrite length_map. lia. }
  rewrite Ho4. cbn [st_age zmax].
  apply where_rows_lookup in Ho4 as (Ho4len & _).
  destruct o4 as [|a o4].
  { cbn in Ho4len. destruct (st_r state); [done|]. cbn in Hacclen. lia. }
  cbn [zmax]. eexists _, _. reflexivity.
Qed.

(** On a non-empty batch whose arrays agree in their leading axis,
    [MetropolisSampler.sample] returns normally; the state it returns has
    the same number of walkers in every array, and the keys ['step'] and
    ['log_weight'] of the resampling wrapper pass through unchanged. *)
Theorem metropolis_step_preserves_walkers (self : obj) (rng : key)
    (state : State) (params : Params) (R : list vec3) (w : string) (c : class)
    (max_age target : pyval) :
  resolve_mover (mro self) = Ok MetropolisSampler ->
  WALKER_STATE self = Ok ["r"; "psi"; "age"]%string ->
  resolve (mro self) a_phys_conf = Ok c ->
  attr_ref self "wf" = Ok w ->
  getattr self "max_age" = Ok max_age ->
  (max_age = PyNone \/ exists m, max_age = PyInt m) ->
  getattr self "target_acceptance" = Ok target ->
  (target = PyNone \/ exists x, target = PyFloat x) ->
  st_r state <> [] ->
  length (psi_sign (st_psi state)) = length (st_r state) ->
  length (psi_log (st_psi state)) = length (st_r state) ->
  length (st_age state) = length (st_r state) ->
  exists state' stats,
    body self rng state params R = Ok (state', stats)
    /\ length (st_r state') = length (st_r state)
    /\ length (psi_sign (st_psi state')) = length (st_r state)
    /\ length (psi_log (st_psi state')) = length (st_r state)
    /\ length (st_age state') = length (st_r state)
    /\ st_step state' = st_step state
    /\ st_log_weight state' = st_log_weight state.
Proof.
  intros Hk Hws Hpc Hwf Hma Hma' Hta Hta' Hne Hl1 Hl2 Hl3.
  destruct (metropolis_step_returns self rng state params R w c max_age target)
    as (state' & stats & Hrun); try done.
  exists state', stats. split; [done|].
  destruct (body_inv _ _ _ _ _ _ _ Hrun)
    as (kind & prop & log_prob & max_age' & accepted & target' & _ & _ & _ & _
        & _ & _ & _ & _ & _ & Hr & Hsign & Hlog & Hage & Hstep & Hlw & _).
  apply where_rows_lookup in Hr as (Hr1 & _ & Hr2 & _).
  apply where_rows_lookup in Hsign as (Hs1 & _ & Hs2 & _).
  apply where_rows_lookup in Hlog as (Hg1 & _ & Hg2 & _).
  apply where_rows_lookup in Hage as (Ha1 & _ & Ha2 & _).
  split_and!; (done || lia).
Qed.

(** On an empty batch [MetropolisSampler.sample] raises: the statistics
    take [jnp.max] of the empty array of ages. *)
Theorem metropolis_step_empty_batch_raises (self : obj) (rng : key)
    (tau : xreal) (params : Params) (R : list vec3) (w : string) (c : class)
    (max_age target : pyval) :
  resolve_mover (mro self) = Ok MetropolisSampler ->
  WALKER_STATE self = Ok ["r"; "psi"; "age"]%string ->
  resolve (mro self) a_phys_conf = Ok c ->
  attr_ref self "wf" = Ok w ->
  getattr self "max_age" = Ok max_age ->
  (max_age = PyNone \/ exists m, max_age = PyInt m) ->
  getattr self "target_acceptance" = Ok target ->
  (target = PyNone \/ exists x, target = PyFloat x) ->
  body self rng (mk_state [] (mk_psi [] []) [] tau None None None) params R
  = Raise ValueError.
Proof.
  intros Hk Hws Hpc Hwf Hma Hma' Hta Hta'.
  unfold MetropolisSampler_sample_body. cbv zeta. rsimpl.
  rewrite Hk, Hws, Hma, Hta. unfold MetropolisSampler__proposal.
  change (in_list "force" ["r"; "psi"; "age"]) with false. cbv iota.
  unfold _update, MetropolisSampler__update, phys_conf. rsimpl.
  rewrite Hk, Hwf, Hpc. cbn.
  destruct Hma' as [->|[m ->]], Hta' as [->|[x ->]]; cbn;
    repeat (match goal with |- context [if ?b then _ else _] => destruct b end;
            cbn); reflexivity.
Qed.

End MoverFacts.

Section MoverTau.
Context {Params : Type}.
Variable wf : string -> Params -> list vec3 -> list vec3 -> Z -> xreal * xreal.
Variable grad_log_wf : string -> Params -> list vec3 -> list vec3 -> list vec3.
Variable random_normal : key -> nat * nat -> nat -> nat -> vec3.
Variable random_uniform : key -> nat -> nat -> xreal.
Variable mean_self_distance : list (list vec3) -> xreal.
Variable mol_charges : string -> list xreal.
Variable eps : R.
Local Open Scope R_scope.

Local Abbreviation body :=
  (MetropolisSampler_sample_body wf grad_log_wf random_normal random_uniform
     mean_self_distance mol_charges eps).

(** The step size after a step of either mover with a target acceptance
    [t > 0]: the previous step size times [max(acceptance, 0.05) / t], where
    the acceptance is the fraction of accepted walkers.  The step size is
    therefore never scaled by less than [0.05 / t] or by more than [1 / t],
    and it is what the stats report as [sampling/tau]. *)
Theorem mover_step_adapts_tau (self : obj) (rng : key)
    (state state' : State) (params : Params) (Rnuc : list vec3)
    (stats : Stats) (t tau : R) :
  getattr self "target_acceptance" = Ok (PyFloat (Fin t)) ->
  0 < t -> st_tau state = Fin tau -> 0 <= tau -> st_r state <> [] ->
  body self rng state params Rnuc = Ok (state', stats) ->
  exists acc,
    0 <= acc <= 1
    /\ stats !! "sampling/acceptance"%string = Some (Fin acc)
    /\ st_tau state' = Fin (tau * Rmax acc (5 / 100) / t)
    /\ stats !! "sampling/tau"%string = Some (st_tau state')
    /\ tau * (5 / 100) / t <= tau * Rmax acc (5 / 100) / t <= tau / t.
Proof.
  intros Hattr Ht Htau Htau0 Hne Hrun.
  destruct (body_inv _ _ _ _ _ _ _ _ _ _ _ _ _ _ Hrun)
    as (kind & prop & log_prob & max_age' & accepted & target & _ & _ & _ & _
        & _ & _ & _ & Hattr' & Hnew & Hr & _ & _ & _ & _ & _ & Hst & Hsa).
  rewrite Hattr in Hattr'. injection Hattr' as <-.
  apply where_rows_lookup in Hr as (_ & _ & Hlen & _).
  set (k := length (List.filter (fun a : bool => a) accepted)) in *.
  set (n := length accepted) in *.
  assert (Hn : (1 <= n)%nat).
  { destruct (st_r state); [done|]. cbn in Hlen. lia. }
  assert (Hk : (k <= n)%nat).
  { subst k n. clear. induction accepted as [|[] l IH]; cbn; lia. }
  assert (HnR : 0 < INR n) by (apply lt_0_INR; lia).
  assert (HkR : 0 <= INR k <= INR n).
  { split; [apply pos_INR|by apply le_INR]. }
  set (acc := INR k / INR n).
  assert (Hacc : 0 <= acc <= 1).
  { unfold acc. split.
    - apply Rmult_le_pos; [lra|]. left. by apply Rinv_0_lt_compat.
    - apply Rmult_le_reg_r with (INR n); [done|].
      replace (INR k / INR n * INR n) with (INR k) by (field; lra). lra. }
  rewrite xdiv_fin in Hnew, Hsa by lra. fold acc in Hnew, Hsa.
  rewrite xmax_fin in Hnew.
  set (m := Rmax acc (5 / 100)) in *.
  assert (Hm : 5 / 100 <= m <= 1).
  { unfold m. split; [apply Rmax_r|apply Rmax_lub; lra]. }
  assert (Htr : truthy_val (PyFloat (Fin t)) = true).
  { cbn. unfold Rzero. destruct (Req_dec_T t 0); [lra|done]. }
  rewrite Htr in Hnew. cbn [as_float] in Hnew. rsimpl in Hnew.
  rewrite Htau in Hnew.
  rewrite (xdiv_fin t m) in Hnew by lra.
  assert (Htm : 0 < t / m) by (apply Rdiv_lt_0_compat; lra).
  rewrite xdiv_fin in Hnew by lra. injection Hnew as Hnew.
  exists acc. split; [done|]. split; [done|]. split; [|split; [done|split]].
  - rewrite <- Hnew. apply (f_equal Fin). fold m. field. lra.
  - fold m. apply Rmult_le_compat_r; [left; by apply Rinv_0_lt_compat|].
    apply Rmult_le_compat_l; lra.
  - fold m. unfold Rdiv at 2. rewrite <- (Rmult_1_r tau) at 2.
    apply Rmult_le_compat_r; [left; by apply Rinv_0_lt_compat|].
    apply Rmult_le_compat_l; lra.
Qed.

End MoverTau.

Lemma scan_invariant {C X Y} (P : C -> Prop) (f : C -> X -> result (C * Y)) :
  (forall c x c' y, P c -> f c x = Ok (c', y) -> P c') ->
  forall xs c c' ys, P c -> scan f c xs = Ok (c', ys) -> P c'.
Proof.
  intros Hf. induction xs as [|x xs IH]; intros c c' ys Hc H; cbn in H.
  - by injection H as <- <-.
  - rsimpl in H. destruct (f c x) as [[c1 y]|] eqn:E; [|done].
    destruct (scan f c1 xs) as [[c2 ys']|] eqn:E2; [|done].
    injection H as <- <-. eapply IH; [|exact E2]. by eapply Hf.
Qed.

Lemma scan_establishes {C X Y} (Q : C -> Prop) (f : C -> X -> result (C * Y)) :
  (forall c x c' y, f c x = Ok (c', y) -> Q c') ->
  forall xs c c' ys, scan f c xs = Ok (c', ys) -> ys <> [] -> Q c'.
Proof.
  intros Hf. induction xs as [|x xs IH]; intros c c' ys H Hne; cbn in H.
  - by injection H as <- <-.
  - rsimpl in H. destruct (f c x) as [[c1 y]|] eqn:E; [|done].
    destruct (scan f c1 xs) as [[c2 ys']|] eqn:E2; [|done].
    injection H as <- <-. destruct xs as [|x' xs'].
    + cbn in E2. injection E2 as <- <-. by eapply Hf.
    + eapply IH; [exact E2|]. cbn in E2. rsimpl in E2.
      destruct (f c1 x') as [[? ?]|]; [|done].
      destruct (scan f _ xs') as [[? ?]|]; [|done]. by injection E2 as <- <-.
Qed.

Lemma take_rows_elem {A} (x : list A) (idx : list nat) (a : A) :
  a ∈ take_rows x idx -> a ∈ x.
Proof.
  unfold take_rows. intros H. apply list_elem_of_omap in H as (i & _ & Hi).
  by eapply list_elem_of_lookup_2.
Qed.

Section SamplerInvariants.
Context {Params : Type}.
Variable wf : string -> Params -> list vec3 -> list vec3 -> Z -> xreal * xreal.
Variable grad_log_wf : string -> Params -> list vec3 -> list vec3 -> list vec3.
Variable random_normal : key -> nat * nat -> nat -> nat -> vec3.
Variable random_uniform : key -> nat -> nat -> xreal.
Variable mean_self_distance : list (list vec3) -> xreal.
Variable mol_charges : string -> list xreal.
Variable eps : R.
Variable multinomial_resampling : key -> list xreal -> list nat.

Local Abbreviation body :=
  (MetropolisSampler_sample_body wf grad_log_wf random_normal random_uniform
     mean_self_distance mol_charges eps).

(** A property of the walker state that one mover step establishes and
    that selecting rows keeps holds after [sample] on every sampler. *)
Lemma sample_at_establishes (Q : State -> Prop) (self : obj)
    (params : Params) (R : list vec3) :
  (forall rng state state' stats,
     body self rng state params R = Ok (state', stats) -> Q state') ->
  (forall rng state state',
     Q state -> resample_walkers multinomial_resampling self rng state = Ok state'
     -> Q state') ->
  (forall state step, Q state ->
     Q (mk_state (st_r state) (st_psi state) (st_age state) (st_tau state)
          (st_force state) step (st_log_weight state))) ->
  forall tail rng state state' conf stats,
    sample_at body multinomial_resampling tail self rng state params R
    = Ok (state', conf, stats) ->
    Q state'.
Proof.
  intros Hbody Hres Hstep.
  induction tail as [|c rest IH]; intros rng state state' conf stats H; [done|].
  cbn [sample_at] in H. destruct c; try done; try (by eapply IH).
  - (* MetropolisSampler *)
    unfold MetropolisSampler_sample in H. rsimpl in H.
    destruct (body self rng state params R) as [[s1 st1]|] eqn:E; [|done].
    destruct (phys_conf self R (st_r s1)); [|done].
    injection H as <- _ _. by eapply Hbody.
  - (* DecorrSampler *)
    unfold DecorrSampler_sample in H. rsimpl in H.
    destruct (getattr self "length"); [|done].
    destruct (as_length _); [|done].
    destruct (scan _ state _) as [[s1 sts]|] eqn:E; [|done].
    destruct (stacked_last sts) as [st|] eqn:El; [|done].
    destruct (phys_conf self R (st_r s1)); [|done].
    injection H as <- _ _.
    eapply (scan_establishes Q); [|exact E|].
    + intros c0 x c' y Hf. rsimpl in Hf.
      destruct (sample_at _ _ rest self x c0 params R) as [[[s2 cf2] st2]|] eqn:E2;
        [|done].
      injection Hf as <- _. by eapply IH.
    + intros ->. done.
  - (* ResampledSampler *)
    unfold ResampledSampler_sample in H. rsimpl in H.
    destruct (sample_at _ _ rest self _ state params R) as [[[s1 cf1] st1]|] eqn:E;
      [|done].
    destruct (getkey (st_step s1)); [|done].
    cbn [st_log_weight] in H.
    destruct (getkey (st_log_weight s1)); [|done].
    destruct (getattr self "period"); [|done].
    destruct (getattr self "treshold"); [|done].
    destruct (resample_due _ _ _ _ _) as [due|]; [|done].
    destruct due.
    + destruct (resample_walkers _ _ _ _) as [s2|] eqn:E2; [|done].
      destruct (phys_conf self R (st_r s2)); [|done].
      injection H as <- _ _. eapply Hres; [|exact E2]. apply Hstep. by eapply IH.
    + destruct (phys_conf self R _); [|done].
      injection H as <- _ _. apply Hstep. by eapply IH.
Qed.

(** A property of the walker state that one mover step, the selection of
    rows and the step counter keep holds after [sample] whenever it held
    before. *)
Lemma sample_at_preserves (P : State -> Prop) (self : obj)
    (params : Params) (R : list vec3) :
  (forall rng state state' stats,
     P state -> body self rng state params R = Ok (state', stats) -> P state') ->
  (forall rng state state',
     P state -> resample_walkers multinomial_resampling self rng state = Ok state'
     -> P state') ->
  (forall state step, P state ->
     P (mk_state (st_r state) (st_psi state) (st_age state) (st_tau state)
          (st_force state) step (st_log_weight state))) ->
  forall tail rng state state' conf stats,
    P state ->
    sample_at body multinomial_resampling tail self rng state params R
    = Ok (state', conf, stats) ->
    P state'.
Proof.
  intros Hbody Hres Hstep.
  induction tail as [|c rest IH]; intros rng state state' conf stats HP H; [done|].
  cbn [sample_at] in H. destruct c; try done; try (by eapply IH).
  - unfold MetropolisSampler_sample in H. rsimpl in H.
    destruct (body self rng state params R) as [[s1 st1]|] eqn:E; [|done].
    destruct (phys_conf self R (st_r s1)); [|done].
    injection H as <- _ _. by eapply Hbody.
  - unfold DecorrSampler_sample in H. rsimpl in H.
    destruct (getattr self "length"); [|done].
    destruct (as_length _); [|done].
    destruct (scan _ state _) as [[s1 sts]|] eqn:E; [|done].
    destruct (stacked_last sts) as [st|] eqn:El; [|done].
    destruct (phys_conf self R (st_r s1)); [|done].
    injection H as <- _ _.
    eapply (scan_invariant P); [|exact HP|exact E].
    intros c0 x c' y Hc Hf. rsimpl in Hf.
    destruct (sample_at _ _ rest self x c0 params R) as [[[s2 cf2] st2]|] eqn:E2;
      [|done].
    injection Hf as <- _. by eapply IH.
  - unfold ResampledSampler_sample in H. rsimpl in H.
    destruct (sample_at _ _ rest self _ state params R) as [[[s1 cf1] st1]|] eqn:E;
      [|done].
    destruct (getkey (st_step s1)); [|done].
    cbn [st_log_weight] in H.
    destruct (getkey (st_log_weight s1)); [|done].
    destruct (getattr self "period"); [|done].
    destruct (getattr self "treshold"); [|done].
    destruct (resample_due _ _ _ _ _) as [due|]; [|done].
    destruct due.
    + destruct (resample_walkers _ _ _ _) as [s2|] eqn:E2; [|done].
      destruct (phys_conf self R (st_r s2)); [|done].
      injection H as <- _ _. eapply Hres; [|exact E2]. apply Hstep. by eapply IH.
    + destruct (phys_conf self R _); [|done].
      injection H as <- _ _. apply Hstep. by eapply IH.
Qed.

Lemma resample_walkers_rows (self : obj) (rng : key) (state state' : State) :
  resample_walkers multinomial_resampling self rng state = Ok state' ->
  (forall x, x ∈ psi_log (st_psi state') -> x ∈ psi_log (st_psi state))
  /\ (forall a, a ∈ st_age state' -> a ∈ st_age state).
Proof.
  unfold resample_walkers. rsimpl.
  destruct (getkey (st_log_weight state)); [|done].
  destruct (WALKER_STATE self) as [ws|]; [|done].
  intros [= <-]. cbn [st_psi st_age psi_log]. split.
  - destruct (in_list "psi" ws); [|done]. cbn [psi_log]. apply take_rows_elem.
  - destruct (in_list "age" ws); [|done]. apply take_rows_elem.
Qed.

(** [sample] of any sampler (a mover, or a chain with [DecorrSampler] and
    [ResampledSampler] in front of it) without [max_age] never lets a NaN
    log-amplitude into the walker state: a proposal whose log-amplitude is
    NaN has a NaN acceptance log-probability, the comparison with the
    logarithm of the uniform draw is then false and the walker keeps its
    previous amplitude; decorrelation repeats such steps and resampling only
    selects walkers. *)
Theorem sample_keeps_log_psi_free_of_nan (self : obj) (rng : key)
    (state state' : State) (params : Params) (R : list vec3)
    (conf : PhysicalConfiguration) (stats : Stats) (max_age : pyval) :
  getattr self "max_age" = Ok max_age ->
  truthy_val max_age = false ->
  any_isnan (psi_log (st_psi state)) = false ->
  sample body multinomial_resampling self rng state params R
  = Ok (state', conf, stats) ->
  any_isnan (psi_log (st_psi state')) = false.
Proof.
  intros Hattr Hfalsy Hclean Hrun. unfold sample in Hrun.
  eapply (sample_at_preserves
            (fun s => any_isnan (psi_log (st_psi s)) = false));
    [| | |exact Hclean|exact Hrun].
  - intros k s s' st Hs Hb. by eapply body_keeps_nan_free.
  - intros k s s' Hs Hr. apply resample_walkers_rows in Hr as [Hr _].
    rewrite any_isnan_false in Hs. apply any_isnan_false.
    intros i x Hi. apply list_elem_of_lookup_2, Hr, list_elem_of_lookup in Hi as [j Hj].
    by eapply Hs.
  - done.
Qed.

(** With [max_age = m > 0] no walker is older than [m] after [sample] of
    any sampler, whatever the ages were before: in a step of the mover a
    walker whose age has reached [m] is accepted and restarts at age 0 and
    every other walker ages by one at most; decorrelation ends with such a
    step and resampling only selects walkers. *)
Theorem sample_bounds_age (self : obj) (rng : key)
    (state state' : State) (params : Params) (R : list vec3)
    (conf : PhysicalConfiguration) (stats : Stats) (m : Z) :
  getattr self "max_age" = Ok (PyInt m) ->
  0 < m ->
  sample body multinomial_resampling self rng state params R
  = Ok (state', conf, stats) ->
  Forall (fun a => a <= m) (st_age state').
Proof.
  intros Hattr Hm Hrun. unfold sample in Hrun.
  eapply (sample_at_establishes (fun s => Forall (fun a => a <= m) (st_age s)));
    [| | |exact Hrun].
  - intros k s s' st Hb. by eapply body_bounds_age.
  - intros k s s' Hs Hr. apply resample_walkers_rows in Hr as [_ Hr].
    rewrite Forall_forall in Hs. apply Forall_forall. intros a Ha. by apply Hs, Hr.
  - done.
Qed.

Lemma zeros_as_map (n : nat) :
  repeat (Fin 0) n = map (fun _ : xreal => Fin 0) (repeat (Fin 0) n).
Proof. by rewrite map_const, repeat_length. Qed.

Lemma length_take_rows {A} (x : list A) (idx : list nat) :
  x <> [] -> length (take_rows x idx) = length idx.
Proof.
  intros Hx. unfold take_rows. induction idx as [|i idx IH]; [done|].
  cbn [omap list_omap].
  destruct (lookup_lt_is_Some_2 x (i `min` (length x - 1))) as [a Ha].
  { destruct x; [done|]. cbn [length]. lia. }
  change (list_omap ?f ?l) with (omap f l) in *.
  unfold omap in *. cbn. rewrite Ha. cbn. by rewrite IH.
Qed.

Variable init_sample : string -> key -> list vec3 -> nat -> list (list vec3).

Local Abbreviation mover_init :=
  (MetropolisSampler_init wf grad_log_wf init_sample mol_charges eps).


End SamplerInvariants.

(** One step of the test mover on the two test walkers. *)
Lemma demo_step_returns (self : obj) :
  resolve_mover (mro self) = Ok MetropolisSampler ->
  WALKER_STATE self = Ok ["r"; "psi"; "age"]%string ->
  resolve (mro self) a_phys_conf = Ok MetropolisSampler ->
  attr_ref self "wf" = Ok "wf"%string ->
  (getattr self "max_age" = Ok PyNone
   \/ exists m, getattr self "max_age" = Ok (PyInt m)) ->
  getattr self "target_acceptance" = Ok (PyFloat (Fin (57 / 100))) ->
  mro self = [MetropolisSampler; Sampler; object] ->
  exists state' conf stats,
    demo_body self (PRNGKey 0) demo_walkers tt [] = Ok (state', stats)
    /\ sample demo_body demo_draw self (PRNGKey 0) demo_walkers tt []
       = Ok (state', conf, stats).
Proof.
  intros Hk Hws Hpc Hwf Hma Hta Hmro.
  assert (Hma' : exists v, getattr self "max_age" = Ok v
                           /\ (v = PyNone \/ exists m, v = PyInt m)).
  { destruct Hma as [H|[m H]]; eexists; (split; [exact H|]); eauto. }
  destruct Hma' as (v & Hv & Hv').
  destruct (metropolis_step_returns demo_wf demo_grad demo_normal demo_uniform
              demo_dist demo_charges (/ 8388608) self (PRNGKey 0) demo_walkers
              tt [] "wf" MetropolisSampler v (PyFloat (Fin (57 / 100))))
    as (s' & st & H); try done.
  { right. by eexists. }
  exists s'. eexists. exists st. split; [exact H|].
  unfold sample. rewrite Hmro. cbn [sample_at].
  unfold MetropolisSampler_sample. rsimpl. unfold demo_body. rewrite H.
  unfold phys_conf. rsimpl. rewrite Hpc. reflexivity.
Qed.

Lemma sample_keeps_log_psi_free_of_nan_witness :
  exists state' conf stats,
    sample demo_body demo_draw demo_mover (PRNGKey 0) demo_walkers tt []
    = Ok (state', conf, stats)
    /\ any_isnan (psi_log (st_psi state')) = false.
Proof.
  destruct (demo_step_returns demo_mover) as (s' & cf & st & _ & H);
    try reflexivity.
  { by left. }
  exists s', cf, st. split; [exact H|].
  apply (sample_keeps_log_psi_free_of_nan demo_wf demo_grad demo_normal
           demo_uniform demo_dist demo_charges (/ 8388608) demo_draw
           demo_mover (PRNGKey 0) demo_walkers s' tt [] cf st PyNone);
    [reflexivity | reflexivity | reflexivity | exact H].
Defined.

Lemma sample_bounds_age_witness :
  exists state' conf stats,
    sample demo_body demo_draw demo_aged_mover (PRNGKey 0) demo_walkers tt []
    = Ok (state', conf, stats)
    /\ Forall (fun a => a <= 2) (st_age state').
Proof.
  destruct (demo_step_returns demo_aged_mover) as (s' & cf & st & _ & H);
    try reflexivity.
  { right. by eexists. }
  exists s', cf, st. split; [exact H|].
  apply (sample_bounds_age demo_wf demo_grad demo_normal
           demo_uniform demo_dist demo_charges (/ 8388608) demo_draw
           demo_aged_mover (PRNGKey 0) demo_walkers s' tt [] cf st 2);
    [reflexivity | lia | exact H].
Defined.

Lemma metropolis_step_preserves_walkers_witness :
  exists state' stats,
    demo_body demo_mover (PRNGKey 0) demo_walkers tt [] = Ok (state', stats)
    /\ length (st_r state') = 2%nat
    /\ st_log_weight state' = Some [Fin 0; Fin 0].
Proof.
  destruct (metropolis_step_preserves_walkers demo_wf demo_grad demo_normal
              demo_uniform demo_dist demo_charges (/ 8388608) demo_mover
              (PRNGKey 0) demo_walkers tt [] "wf" MetropolisSampler PyNone
              (PyFloat (Fin (57 / 100))))
    as (s' & st & H & Hr & _ & _ & _ & _ & Hlw); try reflexivity.
  { by left. }
  { right. by eexists. }
  { done. }
  exists s', st. split_and!; done.
Defined.

Lemma metropolis_step_empty_batch_raises_witness :
  demo_body demo_mover (PRNGKey 0)
    (mk_state [] (mk_psi [] []) [] (Fin 1) None None None) tt []
  = Raise ValueError.
Proof.
  apply (metropolis_step_empty_batch_raises demo_wf demo_grad demo_normal
           demo_uniform demo_dist demo_charges (/ 8388608) demo_mover
           (PRNGKey 0) (Fin 1) tt [] "wf" MetropolisSampler PyNone
           (PyFloat (Fin (57 / 100)))); try reflexivity.
  - by left.
  - right. by eexists.
Defined.

Local Open Scope R_scope.

Lemma mover_step_adapts_tau_witness :
  exists state' stats acc,
    demo_body demo_mover (PRNGKey 0) demo_walkers tt [] = Ok (state', stats)
    /\ st_tau state' = Fin (1 * Rmax acc (5 / 100) / (57 / 100)).
Proof.
  destruct (demo_step_returns demo_mover) as (s' & cf & st & H & _);
    try reflexivity.
  { by left. }
  destruct (mover_step_adapts_tau demo_wf demo_grad demo_normal
              demo_uniform demo_dist demo_charges (/ 8388608) demo_mover
              (PRNGKey 0) demo_walkers s' tt [] st (57 / 100) 1)
    as (acc & _ & _ & Htau & _); [reflexivity | lra | reflexivity | lra | done
                                  | exact H |].
  exists s', st, acc. split; [exact H|exact Htau].
Defined.

Local Close Scope R_scope.

Local Open Scope R_scope.

(** The summand of [log_G_ratios] in [LangevinSampler._acc_log_prob] is
    the logarithm of the ratio of the proposal densities of
    [LangevinSampler._proposal]: for a particle moved from [r] to [r'] by
    the standard normal draw [xi], there is exactly one draw [xi'] that
    moves it back from [r'] to [r], and the summand is
    [(|xi|^2 - |xi'|^2) / 2], the log-density of [xi'] minus that of [xi]. *)
Theorem langevin_log_G_is_proposal_ratio (tau : R) (r f f' xi : R * R * R) :
  0 < tau ->
  exists r1 xi',
    langevin_move (Fin tau) (Rv r) (Rv f) (Rv xi) = Rv r1
    /\ langevin_move (Fin tau) (Rv r1) (Rv f') (Rv xi') = Rv r
    /\ log_G_term (Fin tau) (Rv r) (Rv r1) (Rv f) (Rv f')
       = Fin ((sq3 xi - sq3 xi') / 2).
Proof.
  intros Ht. destruct r as [[rx ry] rz], f as [[fx fy] fz],
    f' as [[gx gy] gz], xi as [[x y] z].
  set (s := sqrt tau).
  assert (Hs : s * s = tau) by (apply sqrt_sqrt; lra).
  assert (Hs0 : 0 < s) by (apply sqrt_lt_R0; lra).
  exists (rx + tau * fx + s * x, ry + tau * fy + s * y, rz + tau * fz + s * z).
  exists (- (s * (fx + gx) + x), - (s * (fy + gy) + y), - (s * (fz + gz) + z)).
  unfold langevin_move, log_G_term, Rv, Rvec, sq3.
  cbn [fst snd vadd vscale vsub vmul vsum xadd xmul xsub xneg].
  rewrite xsqrt_fin by lra. fold s. rewrite xdiv_fin by lra.
  cbn [fst snd vadd vscale vsub vmul vsum xadd xmul xsub xneg].
  split_and!.
  - reflexivity.
  - rewrite <- Hs. f_equal; [f_equal|]; f_equal; ring.
  - f_equal. rewrite <- Hs. field.
Qed.

Lemma langevin_log_G_is_proposal_ratio_witness :
  exists r1 xi',
    langevin_move (Fin 1) (Rv (0, 0, 0)) (Rv (1, 0, 0)) (Rv (0, 0, 0)) = Rv r1
    /\ langevin_move (Fin 1) (Rv r1) (Rv (0, 0, 0)) (Rv xi') = Rv (0, 0, 0)
    /\ log_G_term (Fin 1) (Rv (0, 0, 0)) (Rv r1) (Rv (1, 0, 0)) (Rv (0, 0, 0))
       = Fin ((sq3 (0, 0, 0) - sq3 xi') / 2).
Proof.
  apply (langevin_log_G_is_proposal_ratio 1 (0, 0, 0) (1, 0, 0) (0, 0, 0) (0, 0, 0)).
  lra.
Defined.

Local Close Scope R_scope.

Local Open Scope R_scope.

Lemma zip_with_r_fin (g : R -> R -> R) (f : xreal -> xreal -> result xreal) :
  (forall a b, f (Fin a) (Fin b) = Ok (Fin (g a b))) ->
  forall la lb, length la = length lb ->
    zip_with_r f (map Fin la) (map Fin lb) = Ok (map Fin (zip_with g la lb)).
Proof.
  intros Hf. induction la as [|a la IH]; intros [|b lb] Hlen; cbn in Hlen;
    try done.
  cbn [map zip_with_r zip_with]. rsimpl. rewrite Hf, IH by lia. done.
Qed.

Lemma fold_xmax_fin (l : list R) : forall x,
  exists m, fold_left xmax (map Fin l) (Fin x) = Fin m
            /\ (m = x \/ m ∈ l) /\ x <= m /\ forall y, y ∈ l -> y <= m.
Proof.
  induction l as [|a l IH]; intros x.
  - exists x. cbn. split_and!; [done|by left|lra|].
    intros y Hy. by apply elem_of_nil in Hy.
  - cbn [map fold_left]. rewrite xmax_fin.
    destruct (IH (Rmax x a)) as (m & -> & Hin & Hle & Hall).
    exists m. split_and!; [done| | |].
    + destruct Hin as [->|Hin]; [|right; by right].
      unfold Rmax. destruct (Rle_dec x a); [right; by left|by left].
    + pose proof (Rmax_l x a). lra.
    + intros y Hy. apply elem_of_cons in Hy as [->|Hy]; [|by apply Hall].
      pose proof (Rmax_r x a). lra.
Qed.

Lemma all_finite (l : list xreal) :
  (forall x, x ∈ l -> exists r, x = Fin r) -> exists rs, l = map Fin rs.
Proof.
  induction l as [|x l IH]; intros H; [by exists []|].
  destruct (H x) as [r ->]; [by left|].
  destruct IH as [rs ->]; [intros y Hy; apply H; by right|].
  by exists (r :: rs).
Qed.

Section ResampledUpdate.
Context {Params : Type}.
Variable wf : string -> Params -> list vec3 -> list vec3 -> Z -> xreal * xreal.
Variable grad_log_wf : string -> Params -> list vec3 -> list vec3 -> list vec3.
Variable mol_charges : string -> list xreal.
Variable eps : R.


End ResampledUpdate.

Local Close Scope R_scope.



(** * [MultiNuclearGeometrySampler] *)

Lemma scatter_rows_length {A} (idx : list nat) : forall (x y : list A),
  length (scatter_rows x idx y) = length x.
Proof.
  unfold scatter_rows. induction idx as [|i idx IH]; intros x [|b y]; cbn;
    try done.
  by rewrite IH, length_insert.
Qed.

Lemma scatter_rows_frame {A} (idx : list nat) (k : nat) : forall (x y : list A),
  k ∉ idx -> scatter_rows x idx y !! k = x !! k.
Proof.
  unfold scatter_rows. induction idx as [|i idx IH]; intros x [|b y] Hk; cbn;
    try done.
  apply not_elem_of_cons in Hk as [Hne Hk].
  rewrite IH by done. by apply list_lookup_insert_ne.
Qed.

Lemma scatter_rows_written {A} (idx : list nat) : forall (x y : list A) j i b,
  NoDup idx -> idx !! j = Some i -> y !! j = Some b -> (i < length x)%nat ->
  scatter_rows x idx y !! i = Some b.
Proof.
  unfold scatter_rows. induction idx as [|i0 idx IH]; intros x y j i b Hnd Hi Hb Hlt;
    [done|].
  apply NoDup_cons in Hnd as [Hn0 Hnd].
  destruct y as [|b0 y]; [by destruct j|]. cbn [zip zip_with foldl fst snd].
  destruct j as [|j]; cbn in Hi, Hb.
  - injection Hi as ->. injection Hb as ->.
    pose proof (scatter_rows_frame idx i (<[i:=b]> x) y Hn0) as Hf.
    unfold scatter_rows in Hf. rewrite Hf. by apply list_lookup_insert_eq.
  - eapply IH; try done. by rewrite length_insert.
Qed.

Lemma take_rows_lookup {A} (x : list A) (idx : list nat) (j i : nat) :
  Forall (fun i => (i < length x)%nat) idx ->
  idx !! j = Some i -> take_rows x idx !! j = x !! i.
Proof.
  unfold take_rows. revert j. induction idx as [|i0 idx IH]; intros j Hall Hj;
    [done|].
  apply Forall_cons in Hall as [H0 Hall].
  destruct (lookup_lt_is_Some_2 x (i0 `min` (length x - 1))) as [a Ha]; [lia|].
  cbn [omap list_omap]. rewrite Ha.
  destruct j as [|j]; cbn in Hj |- *.
  - injection Hj as <-. rewrite <- Ha. f_equal. lia.
  - by apply IH.
Qed.

Section MultiGeometryFacts.
Import MultiNuclearGeometrySampler.
Context {Params : Type}.
Variable sampler_init : key -> Params -> nat -> list vec3 -> result State.
Variable sampler_sample :
  key -> State -> Params -> list vec3
  -> result (State * PhysicalConfiguration * Stats).

(** [MultiNuclearGeometrySampler.sample] touches the selected geometries
    only: the state keeps its number of geometries and every geometry whose
    index is not in [mol_idxs] keeps its state.  For distinct indices within
    range, the geometry [mol_idxs[j]] is sampled from its own state and
    nuclear coordinates with the [j]-th key of the split, its new state is
    stored at its own index, its stats are row [j] of the stats, and every
    walker of row [j] of the returned configuration is tagged with
    [mol_idxs[j]]. *)
Theorem sample_touches_selected_geometries (self : t) (rng : key)
    (state : list State) (params : Params) (mol_idxs : list nat)
    (state' : list State) (confs : list PhysicalConfiguration)
    (stats : list Stats) :
  sample sampler_sample self rng state params mol_idxs
  = Ok (state', confs, stats) ->
  length state' = length state
  /\ (forall i, i ∉ mol_idxs -> state' !! i = state !! i)
  /\ length confs = length mol_idxs
  /\ length stats = length mol_idxs
  /\ (NoDup mol_idxs ->
      Forall (fun i => (i < length state)%nat
                       /\ (i < length (nuclear_coordinates self))%nat) mol_idxs ->
      forall j i, mol_idxs !! j = Some i ->
        exists s R s' c st n,
          state !! i = Some s
          /\ nuclear_coordinates self !! i = Some R
          /\ sampler_sample (Split rng (length mol_idxs) j) s params R
             = Ok (s', c, st)
          /\ state' !! i = Some s'
          /\ stats !! j = Some st
          /\ confs !! j
             = Some (mk_conf (pc_R c) (pc_r c) (repeat (Z.of_nat i) n))).
Proof.
  unfold sample. rsimpl. intros H.
  destruct (zip_with_r _ (random_split rng (length mol_idxs)) _) as [args|] eqn:Ea;
    [|done].
  destruct (zip_with_r _ args _) as [out|] eqn:Eo; [|done].
  injection H as <- <- <-.
  apply zip_with_r_lookup in Ea as (Ha1 & Ha2 & Ha3).
  apply zip_with_r_lookup in Eo as (Ho1 & Ho2 & Ho3).
  assert (Hk : length (random_split rng (length mol_idxs)) = length mol_idxs).
  { unfold random_split. by rewrite length_map, length_seq. }
  split_and!.
  - apply scatter_rows_length.
  - intros i Hi. by apply scatter_rows_frame.
  - rewrite length_zip_with, length_map. lia.
  - rewrite length_map. lia.
  - intros Hnd Hall j i Hj.
    assert (Hall1 : Forall (fun i => (i < length state)%nat) mol_idxs)
      by (eapply Forall_impl; [exact Hall|]; by intros ? [? ?]).
    assert (Hall2 : Forall (fun i => (i < length (nuclear_coordinates self))%nat)
                      mol_idxs)
      by (eapply Forall_impl; [exact Hall|]; by intros ? [? ?]).
    assert (Hjlt : (j < length mol_idxs)%nat) by by eapply lookup_lt_Some.
    assert (Hrng : random_split rng (length mol_idxs) !! j
                   = Some (Split rng (length mol_idxs) j)).
    { unfold random_split. change (map ?f ?l) with (f <$> l).
      rewrite list_lookup_fmap, lookup_seq_lt by done. done. }
    destruct (Ha3 j _ Hrng) as (s & a & Hs & Harg & Heq). injection Heq as <-.
    rewrite (take_rows_lookup state mol_idxs j i Hall1 Hj) in Hs.
    destruct (Ho3 j _ Harg) as (R & o & HR & Hout & Hrun).
    rewrite (take_rows_lookup _ mol_idxs j i Hall2 Hj) in HR.
    destruct o as [[s' c] st]. cbn [fst snd] in Hrun.
    exists s, R, s', c, st. eexists. split_and!; try done.
    + eapply scatter_rows_written; try done.
      * change (map ?f ?l) with (f <$> l). by rewrite list_lookup_fmap, Hout.
      * by eapply lookup_lt_Some.
    + change (map ?f ?l) with (f <$> l). by rewrite list_lookup_fmap, Hout.
    + apply lookup_zip_with_Some. exists c, i. split_and!; try done.
      change (map ?f ?l) with (f <$> l). by rewrite list_lookup_fmap, Hout.
Qed.

(** [MultiNuclearGeometrySampler.init] returns one state per geometry:
    geometry [i] is initialised by the wrapped sampler from its own nuclear
    coordinates with the [i]-th of [len(self)] keys split from [rng]. *)
Theorem init_one_state_per_geometry (self : t) (rng : key) (params : Params)
    (n : nat) (states : list State) :
  init sampler_init self rng params n = Ok states ->
  length states = __len__ self
  /\ forall i R, nuclear_coordinates self !! i = Some R ->
       exists s, sampler_init (Split rng (__len__ self) i) params n R = Ok s
                 /\ states !! i = Some s.
Proof.
  unfold init. intros H. apply zip_with_r_lookup in H as (H1 & H2 & H3).
  assert (Hk : length (random_split rng (__len__ self)) = __len__ self).
  { unfold random_split. by rewrite length_map, length_seq. }
  split; [lia|]. intros i R HR.
  assert (Hi : (i < __len__ self)%nat) by by eapply lookup_lt_Some.
  assert (Hrng : random_split rng (__len__ self) !! i
                 = Some (Split rng (__len__ self) i)).
  { unfold random_split. change (map ?f ?l) with (f <$> l).
    rewrite list_lookup_fmap, lookup_seq_lt by done. done. }
  destruct (H3 i _ Hrng) as (R' & s & HR' & Hs & Heq).
  rewrite HR in HR'. injection HR' as <-. by exists s.
Qed.

End MultiGeometryFacts.

(** Three geometries, of which the last and the first are sampled. *)
Lemma sample_touches_selected_geometries_witness :
  exists state' confs stats,
    MultiNuclearGeometrySampler.sample demo_inner_sample
      (MultiNuclearGeometrySampler.mk [[]; []; []]) (PRNGKey 0)
      [demo_walkers; demo_walkers; demo_walkers] tt [2; 0]%nat
    = Ok (state', confs, stats)
    /\ state' !! 1%nat = Some demo_walkers.
Proof.
  eexists _, _, _. split; [reflexivity|].
  eapply (sample_touches_selected_geometries demo_inner_sample
            (MultiNuclearGeometrySampler.mk [[]; []; []]) (PRNGKey 0)
            [demo_walkers; demo_walkers; demo_walkers] tt [2; 0]%nat).
  - reflexivity.
  - intros H. apply elem_of_cons in H as [?|H]; [done|].
    apply elem_of_cons in H as [?|H]; [done|]. by apply elem_of_nil in H.
Defined.

Lemma init_one_state_per_geometry_witness :
  length [demo_walkers; demo_walkers]
  = MultiNuclearGeometrySampler.__len__ (MultiNuclearGeometrySampler.mk [[]; []]).
Proof.
  apply (init_one_state_per_geometry (fun _ (_ : unit) _ _ => Ok demo_walkers)
           (MultiNuclearGeometrySampler.mk [[]; []]) (PRNGKey 0) tt 2
           [demo_walkers; demo_walkers]).
  reflexivity.
Defined.

(** * [equilibrate] *)

Lemma length_slice_from {A} (start : Z) (l : list A) :
  (length (slice_from start l) <= length l)%nat.
Proof. unfold slice_from. rewrite length_drop. lia. Qed.

Lemma slice_from_all {A} (start : Z) (l : list A) :
  Z.of_nat (length l) + start <= 0 -> slice_from start l = l.
Proof.
  intros H. unfold slice_from, slice_bound.
  destruct (start <? 0) eqn:E.
  - replace (Z.max _ 0) with 0 by lia. done.
  - apply Z.ltb_ge in E. replace (Z.min _ _) with 0 by lia. done.
Qed.

Lemma slice_from_repeat {A} (x : A) (start : Z) (n : nat) :
  exists m, slice_from start (repeat x n) = repeat x m.
Proof.
  unfold slice_from. generalize (slice_bound (Z.of_nat (length (repeat x n))) start).
  intros k. exists (n - k)%nat. revert k.
  induction n as [|n IH]; intros [|k]; cbn; done.
Qed.

Lemma slice_to_repeat {A} (x : A) (stop : Z) (n : nat) :
  exists m, slice_to stop (repeat x n) = repeat x m.
Proof.
  unfold slice_to. generalize (slice_bound (Z.of_nat (length (repeat x n))) stop).
  intros k. exists (Nat.min k n). revert k.
  induction n as [|n IH]; intros [|k]; cbn; try done. by rewrite IH.
Qed.

Lemma repeat_snoc {A} (x : A) (n : nat) : repeat x n ++ [x] = repeat x (S n).
Proof. induction n as [|n IH]; cbn; [done|by rewrite IH]. Qed.

Section EquilibrateFacts.
Context {Devices Idx Step SState Params Conf Stats : Type}.
Variable random_permutation : key -> list Z -> list Z.
Variable replicate_on_devices : list Z -> Devices.
Variable rng_iterator : key -> nat -> key.
Variable select_one_device : Devices -> Idx.
Variable mean : list xreal -> option xreal.
Variable stdev : list xreal -> option xreal.
Variable sample_wf : key -> SState -> Params -> Devices
                     -> result (SState * Conf * Stats).
Variable criterion : Conf -> xreal.
Variable rng : key.
Variable params : Params.
Variable block_size : Z.
Variable n_blocks : Z.

Local Notation run :=
  (equilibrate_from (Step := Step) random_permutation replicate_on_devices
     rng_iterator select_one_device mean stdev sample_wf criterion
     rng params block_size n_blocks).

(** One iteration, as an inversion principle on the drained run. *)
Lemma equilibrate_from_cons i step steps state buffer mis items exit mis' :
  run i (step :: steps) state buffer mis = (items, exit, mis') ->
  (exists e, exit = Error e /\ items = [])
  \/ exists mis1 mol_idxs state1 phys_conf stats,
       MoleculeIdxSampler.sample random_permutation replicate_on_devices mis
         = Done mis1 mol_idxs
       /\ sample_wf (rng_iterator rng i) state params mol_idxs
          = Ok (state1, phys_conf, stats)
       /\ let item := (step, state1, select_one_device mol_idxs, stats) in
          let buffer1 :=
            slice_from (- (block_size * n_blocks) + 1) buffer
              ++ [criterion phys_conf] in
          let test :=
            m1 ← mean (slice_to block_size buffer1);
            m2 ← mean (slice_from (- block_size) buffer1);
            s1 ← stdev (slice_to block_size buffer1);
            s2 ← stdev (slice_from (- block_size) buffer1);
            Some (xltb (xabs (xsub m1 m2)) (py_min s1 s2)) in
          ((Z.of_nat (length buffer1) <? block_size * n_blocks) = false
           /\ test = None /\ exit = StatisticsError /\ items = [item])
          \/ ((Z.of_nat (length buffer1) <? block_size * n_blocks) = false
              /\ test = Some true /\ exit = Converged /\ items = [item])
          \/ (((Z.of_nat (length buffer1) <? block_size * n_blocks) = true
               \/ test = Some false)
              /\ exists items',
                   items = item :: items'
                   /\ run (S i) steps state1 buffer1 mis1 = (items', exit, mis')).
Proof.
  cbn [equilibrate_from]. intros H.
  destruct (MoleculeIdxSampler.sample _ _ mis) as [mis1 mol_idxs|mis1 e] eqn:E1;
    [|left; exists e; by injection H as <- <- <-].
  destruct (sample_wf _ state params mol_idxs)
    as [[[state1 phys_conf] stats]|e] eqn:E2;
    [|left; exists e; by injection H as <- <- <-].
  right. exists mis1, mol_idxs, state1, phys_conf, stats.
  split; [done|]. split; [done|]. cbv zeta.
  destruct (_ <? _) eqn:Hlen.
  - right; right. split; [by left|].
    destruct (equilibrate_from _ _ _ _ _ _ _ _ _ _ _ _ _ _ _ _ _) as [[its ex] m].
    injection H as <- <- <-. by eexists.
  - match type of H with
    | match ?t with _ => _ end = _ => destruct t as [[|]|] eqn:Ht
    end.
    + right; left. by injection H as <- <- <-.
    + right; right. split; [by right|].
      destruct (equilibrate_from _ _ _ _ _ _ _ _ _ _ _ _ _ _ _ _ _) as [[its ex] m].
      injection H as <- <- <-. by eexists.
    + left. by injection H as <- <- <-.
Qed.

(** One iteration, forwards. *)
Lemma equilibrate_from_next i step steps state buffer mis mis1 mol_idxs state1
    phys_conf stats :
  MoleculeIdxSampler.sample random_permutation replicate_on_devices mis
    = Done mis1 mol_idxs ->
  sample_wf (rng_iterator rng i) state params mol_idxs
    = Ok (state1, phys_conf, stats) ->
  let item := (step, state1, select_one_device mol_idxs, stats) in
  let buffer1 :=
    slice_from (- (block_size * n_blocks) + 1) buffer ++ [criterion phys_conf] in
  let test :=
    m1 ← mean (slice_to block_size buffer1);
    m2 ← mean (slice_from (- block_size) buffer1);
    s1 ← stdev (slice_to block_size buffer1);
    s2 ← stdev (slice_from (- block_size) buffer1);
    Some (xltb (xabs (xsub m1 m2)) (py_min s1 s2)) in
  let continue :=
    let '(items, exit, mis') := run (S i) steps state1 buffer1 mis1 in
    (item :: items, exit, mis') in
  run i (step :: steps) state buffer mis =
    if Z.of_nat (length buffer1) <? block_size * n_blocks then continue
    else match test with
         | None => ([item], StatisticsError, mis1)
         | Some true => ([item], Converged, mis1)
         | Some false => continue
         end.
Proof. intros E1 E2. cbn [equilibrate_from]. by rewrite E1, E2. Qed.

Lemma equilibrate_from_steps : forall steps i state buffer mis items exit mis',
  run i steps state buffer mis = (items, exit, mis') ->
  (items.*1.*1.*1 = take (length items) steps)
  /\ (exit = Converged ->
      block_size * n_blocks <= Z.of_nat (length buffer + length items))
  /\ (exit = Exhausted -> length items = length steps).
Proof.
  induction steps as [|step steps IH]; intros i state buffer mis items exit mis' H.
  { cbn in H. injection H as <- <- <-. done. }
  apply equilibrate_from_cons in H
    as [(e & -> & ->)|(mis1 & mol_idxs & state1 & conf & stats & _ & _ & H)].
  { done. }
  cbv zeta in H.
  destruct H as [(Hlen & _ & -> & ->)|[(Hlen & _ & -> & ->)|(_ & its & -> & H)]].
  - done.
  - split_and!; try done. intros _. apply Z.ltb_ge in Hlen.
    rewrite length_app in Hlen. cbn [length] in Hlen |- *.
    pose proof (length_slice_from (- (block_size * n_blocks) + 1) buffer). lia.
  - apply IH in H as (H1 & H2 & H3). split_and!.
    + cbn. by rewrite H1.
    + intros Hc. specialize (H2 Hc). rewrite length_app in H2.
      cbn [length] in H2 |- *.
      pose proof (length_slice_from (- (block_size * n_blocks) + 1) buffer). lia.
    + intros Hc. cbn [length]. by rewrite H3.
Qed.

(** [equilibrate] yields one item per element of [steps], in order, and
    it leaves the loop by [break] only after at least
    [block_size * n_blocks] items; when it ends because [steps] ran out it
    has yielded an item for every step. *)
Theorem equilibrate_fills_buffer_first mis state (steps : list Step) items
    exit mis' :
  equilibrate random_permutation replicate_on_devices rng_iterator
    select_one_device mean stdev sample_wf criterion rng params block_size
    n_blocks mis state steps = (items, exit, mis') ->
  items.*1.*1.*1 = take (length items) steps
  /\ (exit = Converged -> block_size * n_blocks <= Z.of_nat (length items))
  /\ (exit = Exhausted -> length items = length steps).
Proof.
  unfold equilibrate. intros H. by apply equilibrate_from_steps in H.
Qed.

Lemma equilibrate_from_single_block :
  block_size = 1 ->
  (forall x, stdev [x] = None) ->
  forall steps i state buffer mis items exit mis',
  run i steps state buffer mis = (items, exit, mis') ->
  Z.of_nat (length buffer) < n_blocks ->
  (forall e, exit <> Error e) ->
  exit <> Converged
  /\ (n_blocks <= Z.of_nat (length buffer + length steps) ->
      exit = StatisticsError
      /\ Z.of_nat (length buffer + length items) = n_blocks).
Proof.
  intros Hb Hsd.
  induction steps as [|step steps IH]; intros i state buffer mis items exit mis'
    H Hbuf Hne.
  { cbn in H. injection H as <- <- <-. split; [done|].
    rewrite Nat.add_0_r. lia. }
  apply equilibrate_from_cons in H
    as [(e & -> & ->)|(mis1 & mol_idxs & state1 & conf & stats & _ & _ & H)].
  { by destruct (Hne e). }
  cbv zeta in H. rewrite Hb, Z.mul_1_l in H.
  rewrite (slice_from_all (- n_blocks + 1) buffer) in H by lia.
  assert (Hone : exists x, slice_to 1 (buffer ++ [criterion conf]) = [x]).
  { unfold slice_to, slice_bound. rewrite length_app. cbn [length].
    replace (Z.to_nat _) with 1%nat by (cbn; lia).
    destruct buffer; cbn; by eexists. }
  destruct Hone as [x Hx]. rewrite Hx, Hsd in H.
  assert (Htest : forall (m1 m2 : option xreal) (f : xreal -> xreal -> xreal -> xreal -> bool),
             (a ← m1; b ← m2; s1 ← (None : option xreal);
              s2 ← stdev (slice_from (-1) (buffer ++ [criterion conf]));
              Some (f a b s1 s2)) = None).
  { intros [a|] [b|] f; reflexivity. }
  rewrite length_app in H. cbn [length] in H.
  destruct H as [(Hlen & _ & -> & ->)|[(_ & Ht & _)|([Hlen|Ht] & its & -> & H)]].
  - split; [done|]. intros _. split; [done|]. apply Z.ltb_ge in Hlen.
    cbn [length]. lia.
  - by rewrite Htest in Ht.
  - apply Z.ltb_lt in Hlen. rewrite <- Hb in H.
    apply IH in H as [H1 H2]; [| rewrite length_app; cbn [length]; lia | done].
    split; [done|]. intros Hn. rewrite length_app in H2.
    cbn [length] in H2, Hn |- *.
    destruct H2 as [-> H2]; [lia|]. split; [done|lia].
  - by rewrite Htest in Ht.
Qed.

(** With [block_size=1] the convergence test cannot be evaluated,
    because [stdev] of a single value raises [StatisticsError]: a run over at
    least [n_blocks] steps in which sampling does not fail ends with that
    exception right after its [n_blocks]-th item, and no run ends by
    [break]. *)
Theorem equilibrate_single_value_blocks_raise mis state (steps : list Step)
    items exit mis' :
  block_size = 1 ->
  1 <= n_blocks ->
  (forall x, stdev [x] = None) ->
  equilibrate random_permutation replicate_on_devices rng_iterator
    select_one_device mean stdev sample_wf criterion rng params block_size
    n_blocks mis state steps = (items, exit, mis') ->
  (forall e, exit <> Error e) ->
  exit <> Converged
  /\ (n_blocks <= Z.of_nat (length steps) ->
      exit = StatisticsError /\ Z.of_nat (length items) = n_blocks).
Proof.
  unfold equilibrate. intros Hb Hn Hsd H Hne.
  destruct (equilibrate_from_single_block Hb Hsd steps 0%nat state [] mis
              items exit mis' H) as [H1 H2]; [cbn [length]; lia | done |].
  split; [done|]. intros Hs. by apply H2.
Qed.

Lemma equilibrate_from_constant (c : R) :
  (forall pc, criterion pc = Fin c) ->
  (forall n m, mean (repeat (Fin c) n) = Some m -> m = Fin c) ->
  (forall n s, stdev (repeat (Fin c) n) = Some s -> s = Fin 0%R) ->
  forall steps i state n mis items exit mis',
  run i steps state (repeat (Fin c) n) mis = (items, exit, mis') ->
  exit <> Converged.
Proof.
  intros Hc Hmean Hsd.
  induction steps as [|step steps IH]; intros i state n mis items exit mis' H.
  { cbn in H. by injection H as <- <- <-. }
  apply equilibrate_from_cons in H
    as [(e & -> & ->)|(mis1 & mol_idxs & state1 & conf & stats & _ & _ & H)].
  { done. }
  cbv zeta in H. rewrite Hc in H.
  destruct (slice_from_repeat (Fin c) (- (block_size * n_blocks) + 1) n)
    as [k Hk].
  rewrite Hk, repeat_snoc in H.
  destruct (slice_to_repeat (Fin c) block_size (S k)) as [k1 Hk1].
  destruct (slice_from_repeat (Fin c) (- block_size) (S k)) as [k2 Hk2].
  rewrite Hk1, Hk2 in H.
  destruct H as [(_ & _ & -> & _)|[(_ & Ht & _)|(_ & its & -> & H)]].
  - done.
  - exfalso.
    destruct (mean (repeat (Fin c) k1)) as [m1|] eqn:E1; [|done].
    destruct (mean (repeat (Fin c) k2)) as [m2|] eqn:E2; [|done].
    destruct (stdev (repeat (Fin c) k1)) as [s1|] eqn:E3; [|done].
    destruct (stdev (repeat (Fin c) k2)) as [s2|] eqn:E4; [|done].
    apply Hmean in E1 as ->. apply Hmean in E2 as ->.
    apply Hsd in E3 as ->. apply Hsd in E4 as ->.
    cbn in Ht. injection Ht as Ht. revert Ht.
    unfold py_min. cbn. unfold Rltb.
    destruct (Rlt_dec 0 0) as [?|_]; [lra|].
    destruct (Rlt_dec _ 0) as [Hlt|_]; [|done].
    pose proof (Rabs_pos (c + - c)). lra.
  - by eapply IH.
Qed.

(** A criterion that takes the same finite value on every batch never
    ends the equilibration: block means are then equal and block deviations
    zero, and the test is a strict [<], so the generator runs until [steps]
    is used up or a call raises. *)
Theorem equilibrate_constant_criterion_never_converges (c : R) mis state
    (steps : list Step) items exit mis' :
  (forall pc, criterion pc = Fin c) ->
  (forall n m, mean (repeat (Fin c) n) = Some m -> m = Fin c) ->
  (forall n s, stdev (repeat (Fin c) n) = Some s -> s = Fin 0%R) ->
  equilibrate random_permutation replicate_on_devices rng_iterator
    select_one_device mean stdev sample_wf criterion rng params block_size
    n_blocks mis state steps = (items, exit, mis') ->
  exit <> Converged.
Proof.
  unfold equilibrate. intros Hc Hm Hs H.
  by eapply (equilibrate_from_constant c Hc Hm Hs steps 0%nat state 0%nat) in H.
Qed.

End EquilibrateFacts.

Local Open Scope R_scope.

Lemma mean_exact_constant (c : R) (n : nat) (m : xreal) :
  mean_exact (repeat (Fin c) n) = Some m -> m = Fin c.
Proof.
  assert (Hm : forall l, l <> [] ->
            mean_exact l = Some (xdiv (xsum l) (Fin (INR (length l)))))
    by (by intros [|??]).
  intros H.
  assert (Hl : repeat (Fin c) n <> []) by (by destruct n).
  assert (Hn : 0 < INR n) by (apply lt_0_INR; destruct n; [done|lia]).
  rewrite (Hm _ Hl) in H. injection H as <-.
  unfold xsum. rewrite xsum_repeat, repeat_length.
  rewrite xdiv_fin by lra. f_equal. field. lra.
Qed.

Lemma stdev_exact_constant (c : R) (n : nat) (s : xreal) :
  stdev_exact (repeat (Fin c) n) = Some s -> s = Fin 0.
Proof.
  unfold stdev_exact. rewrite repeat_length.
  destruct (n <? 2)%nat eqn:Hn; [done|]. apply Nat.ltb_ge in Hn.
  destruct (mean_exact (repeat (Fin c) n)) as [m|] eqn:Hm; [|done].
  apply mean_exact_constant in Hm as ->. cbn [mbind option_bind].
  intros H. injection H as <-.
  rewrite map_repeat. cbn [xsub xneg xadd xsqr xmul].
  unfold xsum. rewrite xsum_repeat.
  assert (Hn1 : 0 < INR (n - 1)) by (apply lt_0_INR; lia).
  rewrite xdiv_fin by lra.
  replace ((0 + INR n * ((c + - c) * (c + - c))) / INR (n - 1)) with 0
    by (field; lra).
  rewrite xsqrt_fin by lra. by rewrite sqrt_0.
Qed.

Lemma one_molecule_sample :
  MoleculeIdxSampler.sample (fun _ l => l) (fun l => l) one_molecule
  = Done one_molecule [0%Z].
Proof. reflexivity. Qed.

Lemma equilibrate_fills_buffer_first_witness :
  let run :=
    equilibrate (fun _ l => l) (fun l => l) (fun k _ => k) (fun d => d)
      mean_exact stdev_exact counting_sample (fun n => Fin (INR n))
      (PRNGKey 0) tt 2%Z 1%Z one_molecule 0%nat [10%Z; 11%Z; 12%Z] in
  run.1.2 = Converged
  /\ run.1.1.*1.*1.*1 = [10%Z; 11%Z]
  /\ (2 * 1 <= Z.of_nat (length run.1.1))%Z.
Proof.
  intros run.
  assert (Hrun : run = (run.1.1, run.1.2, run.2)) by (by destruct run as [[??]?]).
  pose proof (equilibrate_fills_buffer_first _ _ _ _ _ _ _ _ _ _ _ _ _ _ _ _ _ _
                Hrun) as (H1 & H2 & _).
  assert (Hexit : run.1.2 = Converged /\ length run.1.1 = 2%nat).
  { subst run. unfold equilibrate.
    rewrite (equilibrate_from_next _ _ _ _ _ _ _ _ _ _ _ _ 0%nat 10%Z _ 0%nat []
               one_molecule one_molecule [0%Z] 1%nat 0%nat tt
               one_molecule_sample eq_refl).
    change (slice_from (- (2 * 1) + 1) [] ++ [Fin (INR 0)]) with [Fin 0].
    change (Z.of_nat (length [Fin 0]) <? 2 * 1)%Z with true. cbv iota.
    rewrite (equilibrate_from_next _ _ _ _ _ _ _ _ _ _ _ _ 1%nat 11%Z _ 1%nat
               [Fin 0] one_molecule one_molecule [0%Z] 2%nat 1%nat tt
               one_molecule_sample eq_refl).
    change (slice_from (- (2 * 1) + 1) [Fin 0] ++ [Fin (INR 1)])
      with [Fin 0; Fin 1].
    change (Z.of_nat (length [Fin 0; Fin 1]) <? 2 * 1)%Z with false. cbv iota.
    change (slice_to 2 [Fin 0; Fin 1]) with [Fin 0; Fin 1].
    change (slice_from (- (2)) [Fin 0; Fin 1]) with [Fin 0; Fin 1].
    assert (Hm : mean_exact [Fin 0; Fin 1] = Some (Fin (1 / 2))).
    { unfold mean_exact, xsum. cbn [fold_left xadd length INR].
      rewrite xdiv_fin by lra. do 2 f_equal. field. }
    assert (Hs : stdev_exact [Fin 0; Fin 1] = Some (Fin (sqrt (1 / 2)))).
    { unfold stdev_exact. rewrite Hm.
      cbn [length Nat.ltb Nat.leb mbind option_bind map xsub xneg xadd xsqr
           xmul Nat.sub INR]. unfold xsum. cbn [fold_left xadd].
      rewrite xdiv_fin by lra. rewrite xsqrt_fin by nra.
      do 3 f_equal. field. }
    rewrite Hm, Hs. cbn [mbind option_bind xsub xneg xadd xabs].
    assert (Hv : 0 < sqrt (1 / 2)) by (apply sqrt_lt_R0; lra).
    assert (Ht : xltb (Fin (Rabs (1 / 2 + - (1 / 2))))
                   (py_min (Fin (sqrt (1 / 2))) (Fin (sqrt (1 / 2)))) = true).
    { replace (1 / 2 + - (1 / 2)) with 0 by lra. rewrite Rabs_R0.
      unfold py_min. cbn [xltb]. unfold Rltb.
      destruct (Rlt_dec (sqrt (1 / 2)) (sqrt (1 / 2))) as [?|_]; [lra|].
      by destruct (Rlt_dec 0 (sqrt (1 / 2))). }
    rewrite Ht. done. }
  destruct Hexit as [He Hl]. split; [done|]. split.
  - rewrite H1, Hl. reflexivity.
  - by apply H2.
Defined.

Lemma equilibrate_single_value_blocks_raise_witness :
  let run :=
    equilibrate (fun _ l => l) (fun l => l) (fun k _ => k) (fun d => d)
      mean_exact stdev_exact counting_sample (fun n => Fin (INR n))
      (PRNGKey 0) tt 1%Z 2%Z one_molecule 0%nat [10%Z; 11%Z; 12%Z] in
  run.1.2 = StatisticsError /\ Z.of_nat (length run.1.1) = 2%Z.
Proof.
  intros run.
  assert (Hrun : run = (run.1.1, run.1.2, run.2)) by (by destruct run as [[??]?]).
  assert (Hexit : run.1.2 = StatisticsError).
  { subst run. unfold equilibrate.
    rewrite (equilibrate_from_next _ _ _ _ _ _ _ _ _ _ _ _ 0%nat 10%Z _ 0%nat []
               one_molecule one_molecule [0%Z] 1%nat 0%nat tt
               one_molecule_sample eq_refl).
    change (slice_from (- (1 * 2) + 1) [] ++ [Fin (INR 0)]) with [Fin 0].
    change (Z.of_nat (length [Fin 0]) <? 1 * 2)%Z with true. cbv iota.
    rewrite (equilibrate_from_next _ _ _ _ _ _ _ _ _ _ _ _ 1%nat 11%Z _ 1%nat
               [Fin 0] one_molecule one_molecule [0%Z] 2%nat 1%nat tt
               one_molecule_sample eq_refl).
    change (slice_from (- (1 * 2) + 1) [Fin 0] ++ [Fin (INR 1)])
      with [Fin 0; Fin 1].
    change (Z.of_nat (length [Fin 0; Fin 1]) <? 1 * 2)%Z with false. cbv iota.
    change (slice_to 1 [Fin 0; Fin 1]) with [Fin 0].
    change (slice_from (- (1)) [Fin 0; Fin 1]) with [Fin 1].
    reflexivity. }
  destruct (equilibrate_single_value_blocks_raise _ _ _ _ _ _ _ _ _ _ _ _ _ _ _
              _ _ _ eq_refl (ltac:(lia) : (1 <= 2)%Z) (fun x => eq_refl) Hrun)
    as [_ H].
  { intros e. rewrite Hexit. discriminate. }
  apply H. cbn [length]. lia.
Defined.

Lemma equilibrate_constant_criterion_never_converges_witness :
  let run :=
    equilibrate (fun _ l => l) (fun l => l) (fun k _ => k) (fun d => d)
      mean_exact stdev_exact counting_sample (fun _ => Fin 1)
      (PRNGKey 0) tt 2%Z 1%Z one_molecule 0%nat [10%Z; 11%Z; 12%Z] in
  run.1.2 <> Converged.
Proof.
  intros run.
  assert (Hrun : run = (run.1.1, run.1.2, run.2)) by (by destruct run as [[??]?]).
  exact (equilibrate_constant_criterion_never_converges _ _ _ _ _ _ _ _ _ _ _ _
           1 _ _ _ _ _ _ (fun _ => eq_refl) (mean_exact_constant 1)
           (stdev_exact_constant 1) Hrun).
Defined.

Local Close Scope R_scope.
